(** * kedro/framework/cli/pipeline.py: a shallow embedding

    The development follows the Python module top to bottom: strings and
    the two regular expressions of [_assert_pkg_name_ok], the string
    helpers, a filesystem with the [pathlib]/[shutil] calls the module
    makes, the merge-copier [_sync_dirs] with its two callers, and the
    [delete] command. *)

From Stdlib Require Import Ascii String.
From stdpp Require Import base numbers list sorting gmap.

(** ** Python strings

    A Python [str] is a sequence of Unicode code points; a code point is
    a natural number.  [lit] reads the code points of a literal. *)

Abbreviation char := N (only parsing).
Abbreviation str := (list N) (only parsing).

Definition lit (s : string) : str := N_of_ascii <$> list_ascii_of_string s.

Definition dot : char := 46%N.
Definition newline : char := 10%N.
Definition underscore : char := 95%N.
Definition slash : char := 47%N.

Module Str.

(** [s.rsplit(sep, 1)]: the scan for the last separator.  The result
    is [Some (before, after)] when [sep] occurs in [s]. *)
Fixpoint rfind_split (sep : char) (s : str) : option (str * str) :=
  match s with
  | [] => None
  | c :: s' =>
      match rfind_split sep s' with
      | Some (before, after) => Some (c :: before, after)
      | None => if (c =? sep)%N then Some ([], s') else None
      end
  end.

(** [s.rsplit(sep, 1)] *)
Definition rsplit1 (sep : char) (s : str) : list str :=
  match rfind_split sep s with
  | Some (before, after) => [before; after]
  | None => [s]
  end.

(** [s.split(sep)] for a one-character separator: never empty, one
    more part than there are separators. *)
Fixpoint split (sep : char) (s : str) : list str :=
  match s with
  | [] => [[]]
  | c :: s' =>
      if (c =? sep)%N then [] :: split sep s'
      else match split sep s' with
           | part :: parts => (c :: part) :: parts
           | [] => [[c]]
           end
  end.

(** [s.endswith(suffix)] *)
Definition endswith (s suffix : str) : bool :=
  bool_decide (drop (length s - length suffix) s = suffix).

End Str.

(** ** Exceptions *)

Abbreviation path := (list (list N)) (only parsing).

Inductive oserror : Type :=
  | FileNotFoundError (p : path)
  | FileExistsError (p : path)
  | NotADirectoryError (p : path)
  | IsADirectoryError (p : path)
  | SameFileError (src dst : path)
  | PermissionError (p : path).

(** The texts of the [KedroCliError]s the module raises. *)
Inductive cli_message : Type :=
  | MustStartWithLetter (pkg_name : str)
  | TooShort (pkg_name : str)
  | OnlyWordCharacters (pkg_name : str)
  | EnvNotFound (env : str)
  | ContainsChildPipeline (dir_to_delete child : path)
  | PipelineNotFound (name : str)
  | DeletionAborted
  | Caused (exc : oserror).

Inductive exn : Type :=
  | OSError (e : oserror)
  | KedroCliError (m : cli_message).

Inductive result (A : Type) : Type :=
  | Return (a : A)
  | Raise (e : exn).
Arguments Return {A} a.
Arguments Raise {A} e.

(** ** Regular expressions

    The fragment of [re] syntax the module uses, and a backtracking
    matcher.  [re.match] anchors the attempt at position 0 and does not
    require the whole string to be consumed. *)

Module Re.

Inductive charset : Type :=
  | AsciiLetterOrUnderscore   (* [a-zA-Z_] *)
  | Word                      (* \w *)
  | Lit (c : char).

Inductive regex : Type :=
  | Bol                       (* ^ *)
  | Eol                       (* $ *)
  | Set_ (cs : charset)
  | Cat (r1 r2 : regex)
  | Star (r : regex).

Definition Plus (r : regex) : regex := Cat r (Star r).

Definition ascii_letter (c : char) : bool :=
  ((65 <=? c) && (c <=? 90) || (97 <=? c) && (c <=? 122))%N.

Definition ascii_digit (c : char) : bool := ((48 <=? c) && (c <=? 57))%N.

Section Matcher.

(** [str.isalnum] on the code points from 128 on: the Unicode
    database of the interpreter, given from outside. *)
Variable unicode_isalnum : char → bool.

(** [\w] of a [str] pattern: alphanumeric or underscore. *)
Definition is_word (c : char) : bool :=
  if (c <? 128)%N
  then ascii_letter c || ascii_digit c || (c =? underscore)%N
  else unicode_isalnum c.

Definition in_set (cs : charset) (c : char) : bool :=
  match cs with
  | AsciiLetterOrUnderscore => ascii_letter c || (c =? underscore)%N
  | Word => is_word c
  | Lit c' => (c =? c')%N
  end.

(** [$] without [re.MULTILINE]: at the end of the string, or just
    before a newline that ends the string. *)
Definition at_eol (rest : str) : bool :=
  match rest with
  | [] => true
  | [c] => (c =? newline)%N
  | _ => false
  end.

(** [accept r pos rest k]: some match of [r] at position [pos],
    where [rest] is what remains of the subject, leaves a position
    and remainder that [k] accepts.  A star tries one more iteration
    first (greedy) and gives up an iteration that consumed nothing. *)
Fixpoint accept (r : regex) (pos : nat) (rest : str)
    (k : nat → str → bool) {struct r} : bool :=
  match r with
  | Bol => bool_decide (pos = 0) && k pos rest
  | Eol => at_eol rest && k pos rest
  | Set_ cs =>
      match rest with
      | c :: rest' => in_set cs c && k (S pos) rest'
      | [] => false
      end
  | Cat r1 r2 => accept r1 pos rest (λ pos' rest', accept r2 pos' rest' k)
  | Star r1 =>
      (fix iterate (fuel : nat) (pos : nat) (rest : str) {struct fuel} : bool :=
         match fuel with
         | 0 => k pos rest
         | S fuel' =>
             accept r1 pos rest
               (λ pos' rest',
                  bool_decide (length rest' < length rest)
                  && iterate fuel' pos' rest')
             || k pos rest
         end) (length rest) pos rest
  end.

(** [re.match(pattern, string)] as a truth value *)
Definition match_ (pattern : regex) (string : str) : bool :=
  accept pattern 0 string (λ _ _, true).

End Matcher.

(** r"^[a-zA-Z_]" *)
Definition first_char_pattern : regex :=
  Cat Bol (Set_ AsciiLetterOrUnderscore).

(** r"^\w(\w+\.)*\w+$" *)
Definition pkg_name_pattern : regex :=
  Cat Bol
    (Cat (Set_ Word)
       (Cat (Star (Cat (Plus (Set_ Word)) (Set_ (Lit dot))))
          (Cat (Plus (Set_ Word)) Eol))).

End Re.

(** ** Name validation and string helpers *)

Section Names.

Variable unicode_isalnum : char → bool.

Definition _assert_pkg_name_ok (pkg_name : str) : result unit :=
  if negb (Re.match_ unicode_isalnum Re.first_char_pattern pkg_name)
  then Raise (KedroCliError (MustStartWithLetter pkg_name))
  else if bool_decide (length pkg_name < 2)
  then Raise (KedroCliError (TooShort pkg_name))
  else if negb (Re.match_ unicode_isalnum Re.pkg_name_pattern pkg_name)
  then Raise (KedroCliError (OnlyWordCharacters pkg_name))
  else Return ().

(** The click callback of the [name] argument: [if value:] is false
    for the empty string. *)
Definition _check_pipeline_name (value : str) : result str :=
  match value with
  | [] => Return value
  | _ =>
      match _assert_pkg_name_ok value with
      | Return _ => Return value
      | Raise e => Raise e
      end
  end.

End Names.

Definition _split_on_last_dot (input_string : str) : str * str :=
  let parts := Str.rsplit1 dot input_string in
  let expected_nb_parts := 2 in
  if bool_decide (length parts = expected_nb_parts)
  then (parts !!! 0, parts !!! 1)
  else ([], input_string).

(** ** The filesystem

    A path is the list of its components, innermost first: [name] is
    the head, [parent] the tail, and [n :: p] is [p / n].  The root is
    [[]].  The filesystem maps every existing path to what is there. *)

Abbreviation bytes := string (only parsing).

Inductive entry : Type :=
  | File (data : bytes)
  | Dir.

Global Instance entry_eq_dec : EqDecision entry.
Proof. solve_decision. Defined.

Definition name (p : path) : str := default [] (head p).
Definition parent (p : path) : path := tail p.

(** [base / rel] for a relative path [rel] *)
Definition joinpath (base rel : path) : path := rel ++ base.

(** [Path(base, *parts)]: empty parts leave the path as it is.  A part
    is one component of the path: the parts the module passes have no
    slash. *)
Definition Path (base : path) (parts : list str) : path :=
  foldl (λ p part, match part with [] => p | _ => part :: p end) base parts.

Definition is_dir (σ : gmap path entry) (p : path) : bool :=
  match σ !! p with Some Dir => true | _ => false end.

Definition is_file (σ : gmap path entry) (p : path) : bool :=
  match σ !! p with Some (File _) => true | _ => false end.

Definition exists_ (σ : gmap path entry) (p : path) : bool :=
  match σ !! p with Some _ => true | None => false end.

(** [q] is an entry of the directory [p]. *)
Definition child_of (p q : path) : Prop := q ≠ [] ∧ parent q = p.

Global Instance child_of_dec p q : Decision (child_of p q).
Proof. unfold child_of. apply _. Defined.

(** [q] lies strictly below [p]. *)
Definition below (p q : path) : Prop := p `suffix_of` q ∧ p ≠ q.

(** Every entry but the root sits in a directory, and the root is a
    directory. *)
Definition wf (σ : gmap path entry) : Prop :=
  σ !! [] = Some Dir ∧ map_Forall (λ q _, σ !! parent q = Some Dir) σ.

(** ** Terminal output and the state of a run *)

Inductive message : Type :=
  | Creating (prefix : str) (target_path : path)
  | Skipped
  | Ok
  | Failed
  | Blank
  | DeletionWarning (directories files : list path)
  | Deleting (artifact : path)
  | Deleted (name : str)
  | RegistryReminder (name : str) (registry : path).

Record world : Type := World {
  files : gmap path entry;
  terminal : list message
}.

(** A computation reads and writes the world, and either returns,
    raises, or (for the recursion below) runs out of fuel: [None]. *)
Definition M (A : Type) : Type := world → option (result A * world).

Global Instance M_ret : MRet M := λ A a w, Some (Return a, w).

Global Instance M_bind : MBind M := λ A B f m w,
  match m w with
  | None => None
  | Some (Return a, w') => f a w'
  | Some (Raise e, w') => Some (Raise e, w')
  end.

Definition raise {A} (e : exn) : M A := λ w, Some (Raise e, w).

Definition exhausted {A} : M A := λ _, None.

(** [try: body except Exception as e: handler(e)] *)
Definition try_except {A} (body : M A) (handler : exn → M A) : M A := λ w,
  match body w with
  | Some (Raise e, w') => handler e w'
  | r => r
  end.

(** [try: body finally: cleanup].  An exception of the cleanup replaces
    the outcome of the body. *)
Definition try_finally {A} (body : M A) (cleanup : M unit) : M A := λ w,
  match body w with
  | None => None
  | Some (r, w') =>
      match cleanup w' with
      | None => None
      | Some (Return _, w'') => Some (r, w'')
      | Some (Raise e, w'') => Some (Raise e, w'')
      end
  end.

Definition echo (m : message) : M unit := λ w,
  Some (Return (), World (files w) (terminal w ++ [m])).

(** A query that leaves the filesystem as it is. *)
Definition stat {A} (f : gmap path entry → A) : M A := λ w,
  Some (Return (f (files w)), w).

(** A filesystem call: its outcome and the filesystem it leaves. *)
Definition syscall {A} (f : gmap path entry → result A * gmap path entry) : M A := λ w,
  let '(r, σ) := f (files w) in Some (r, World σ (terminal w)).

Fixpoint for_each {A} (l : list A) (body : A → M unit) : M unit :=
  match l with
  | [] => mret ()
  | x :: l' => body x;; for_each l' body
  end.

(** ** The operating system calls

    What the operating system decides is given from outside: the order
    in which a directory is listed, and which creations of a directory
    and which openings of a copy target it refuses (permissions, a full
    disk).  A refused call leaves the filesystem as it was. *)

Section OS.

Variable scandir_order : list path → list path.
Variable mkdir_denied : path → bool.
Variable copy_denied : path → path → bool.

Definition paths (σ : gmap path entry) : list path := (map_to_list σ).*1.

(** [p.iterdir()], for a directory [p] *)
Definition iterdir (σ : gmap path entry) (p : path) : list path :=
  scandir_order (filter (child_of p) (paths σ)).

(** [os.mkdir(p)] *)
Definition os_mkdir (p : path) (σ : gmap path entry)
    : oserror + gmap path entry :=
  match σ !! p with
  | Some _ => inl (FileExistsError p)
  | None =>
      match σ !! parent p with
      | None => inl (FileNotFoundError p)
      | Some (File _) => inl (NotADirectoryError p)
      | Some Dir =>
          if mkdir_denied p then inl (PermissionError p)
          else inr (<[p := Dir]> σ)
      end
  end.

(** [p.mkdir(parents=False, exist_ok=True)] *)
Definition mkdir_exist_ok (p : path) (σ : gmap path entry)
    : result unit * gmap path entry :=
  match os_mkdir p σ with
  | inr σ' => (Return (), σ')
  | inl (FileNotFoundError q) => (Raise (OSError (FileNotFoundError q)), σ)
  | inl e => if is_dir σ p then (Return (), σ) else (Raise (OSError e), σ)
  end.

(** [p.mkdir(parents=True, exist_ok=True)]: on [FileNotFoundError]
    the parent is made first, unless [p] is its own parent. *)
Fixpoint mkdir_parents (p : path) (σ : gmap path entry)
    : result unit * gmap path entry :=
  match os_mkdir p σ with
  | inr σ' => (Return (), σ')
  | inl (FileNotFoundError q) =>
      match p with
      | [] => (Raise (OSError (FileNotFoundError q)), σ)
      | _ :: parent_ =>
          match mkdir_parents parent_ σ with
          | (Return _, σ1) => mkdir_exist_ok p σ1
          | (Raise e, σ1) => (Raise e, σ1)
          end
      end
  | inl e => if is_dir σ p then (Return (), σ) else (Raise (OSError e), σ)
  end.

(** [shutil.copyfile(src, dst)]: content only. *)
Definition copyfile (src dst : path) (σ : gmap path entry)
    : result unit * gmap path entry :=
  if bool_decide (src = dst) && exists_ σ src
  then (Raise (OSError (SameFileError src dst)), σ)
  else
    match σ !! src with
    | None => (Raise (OSError (FileNotFoundError src)), σ)
    | Some Dir => (Raise (OSError (IsADirectoryError src)), σ)
    | Some (File data) =>
        match σ !! dst, σ !! parent dst with
        | Some Dir, _ => (Raise (OSError (IsADirectoryError dst)), σ)
        | _, None => (Raise (OSError (FileNotFoundError dst)), σ)
        | _, Some (File _) => (Raise (OSError (NotADirectoryError dst)), σ)
        | _, Some Dir =>
            if copy_denied src dst
            then (Raise (OSError (PermissionError dst)), σ)
            else (Return (), <[dst := File data]> σ)
        end
    end.

(** [shutil.rmtree(p)] *)
Definition rmtree (p : path) (σ : gmap path entry)
    : result unit * gmap path entry :=
  match σ !! p with
  | None => (Raise (OSError (FileNotFoundError p)), σ)
  | Some (File _) => (Raise (OSError (NotADirectoryError p)), σ)
  | Some Dir => (Return (), filter (λ kv, ¬ p `suffix_of` kv.1) σ)
  end.

(** [p.unlink()] *)
Definition unlink (p : path) (σ : gmap path entry)
    : result unit * gmap path entry :=
  match σ !! p with
  | None => (Raise (OSError (FileNotFoundError p)), σ)
  | Some Dir => (Raise (OSError (IsADirectoryError p)), σ)
  | Some (File _) => (Return (), delete p σ)
  end.

(** [dir.glob("**/*/")]: the directories strictly below [dir]. *)
Definition glob_subdirs (σ : gmap path entry) (dir : path) : list path :=
  if is_dir σ dir
  then scandir_order
         (filter (λ q, below dir q ∧ σ !! q = Some Dir) (paths σ))
  else [].

(** [dir.glob("**/*.py")]: whatever lies strictly below [dir] under a
    name that ends in [.py]. *)
Definition glob_py (σ : gmap path entry) (dir : path) : list path :=
  if is_dir σ dir
  then scandir_order
         (filter (λ q, below dir q ∧ Str.endswith (name q) (lit ".py"))
            (paths σ))
  else [].

(** ** The merge-copier *)

(** Rule #1 of [_sync_dirs], as the condition of its [if]. *)
Definition skip_rule (overwrite : bool) (source_name : str)
    (existing_files existing_folders : list str)
    (source_is_file : bool) : bool :=
  negb overwrite && bool_decide (source_name ∈ existing_files)
  || source_is_file && bool_decide (source_name ∈ existing_folders).

(** The body of the [for] loop of [_sync_dirs]; [recurse] is the call
    of rule #3, which leaves [overwrite] at its default. *)
Definition sync_item (recurse : path → path → str → M unit)
    (existing_files existing_folders : list str)
    (target : path) (prefix : str) (overwrite : bool)
    (source_path : path) : M unit :=
  let source_name := name source_path in
  let target_path := source_name :: target in
  echo (Creating prefix target_path);;
  skip ← stat (λ σ, skip_rule overwrite source_name
                      existing_files existing_folders
                      (is_file σ source_path));
  if skip : bool then echo Skipped
  else
    source_is_file ← stat (λ σ, is_file σ source_path);
    if source_is_file : bool then
      try_except
        (syscall (mkdir_parents target);;
         syscall (copyfile source_path target_path))
        (λ e, echo Failed;; raise e);;
      echo Ok
    else
      echo Blank;;
      let new_prefix := prefix ++ lit "  " in
      recurse source_path target_path new_prefix.

(** What [_sync_dirs] reads before its loop: the listing of the
    target, split into the names of its files and of its folders, and
    the items to copy. *)
Definition existing (σ : gmap path entry) (target : path) : list path :=
  if is_dir σ target then iterdir σ target else [].

Definition existing_files (σ : gmap path entry) (target : path) : list str :=
  name <$> filter (λ f, is_file σ f) (existing σ target).

Definition existing_folders (σ : gmap path entry) (target : path) : list str :=
  name <$> filter (λ f, is_dir σ f) (existing σ target).

Definition content (σ : gmap path entry) (source : path) : list path :=
  if is_dir σ source then iterdir σ source
  else if is_file σ source then [source]
  else [].

Fixpoint _sync_dirs (fuel : nat) (source target : path) (prefix : str)
    (overwrite : bool) : M unit :=
  match fuel with
  | 0 => exhausted
  | S fuel' =>
      existing_files ← stat (λ σ, existing_files σ target);
      existing_folders ← stat (λ σ, existing_folders σ target);
      content ← stat (λ σ, content σ source);
      for_each content
        (sync_item (λ s t p, _sync_dirs fuel' s t p false)
           existing_files existing_folders target prefix overwrite)
  end.

(** ** The callers of the merge-copier *)

Definition _copy_pipeline_tests (fuel : nat) (result_path tests_target : path)
    : M unit :=
  let tests_source := lit "tests" :: result_path in
  try_finally
    (_sync_dirs fuel tests_source tests_target [] false)
    (syscall (rmtree tests_source)).

Definition _copy_pipeline_configs (fuel : nat) (result_path conf_path : path)
    (skip_config : bool) (env : str) : M unit :=
  let config_source := lit "config" :: result_path in
  try_finally
    (if negb skip_config then
       let config_target := env :: conf_path in
       _sync_dirs fuel config_source config_target [] false
     else mret ())
    (syscall (rmtree config_source)).

End OS.

(** ** The [delete] command *)

Record ProjectMetadata : Type := {
  source_dir : path;
  package_name : str;
  project_path : path
}.

Record PipelineArtifacts : Type := {
  pipeline_dir : path;
  pipeline_tests : path;
  pipeline_conf : path
}.

Section Delete.

Variable scandir_order : list path → list path.

(** [settings.CONF_SOURCE], a path relative to the project *)
Variable CONF_SOURCE : path.

Definition _get_artifacts_to_package (project_metadata : ProjectMetadata)
    (module_path : str) (env : str) : path * path * path :=
  let package_dir :=
    package_name project_metadata :: source_dir project_metadata in
  let project_conf_path :=
    joinpath (project_path project_metadata) CONF_SOURCE in
  (Path package_dir (Str.split dot module_path),
   Path (parent package_dir) (lit "tests" :: Str.split dot module_path),
   env :: project_conf_path).

Definition _get_pipeline_artifacts (project_metadata : ProjectMetadata)
    (pipeline_name : str) (env : str) : PipelineArtifacts :=
  let '(source_path, tests_path, config_paths) :=
    _get_artifacts_to_package project_metadata
      (lit "pipelines." ++ pipeline_name) env in
  {| pipeline_dir := source_path;
     pipeline_tests := tests_path;
     pipeline_conf := config_paths |}.

Definition _echo_deletion_warning (directories files : list path) : M unit :=
  match directories, files with
  | [], [] => mret ()
  | _, _ => echo (DeletionWarning directories files)
  end.

Definition _delete_artifacts (artifacts : list path) : M unit :=
  for_each artifacts (λ artifact,
    echo (Deleting artifact);;
    try_except
      (artifact_is_dir ← stat (λ σ, is_dir σ artifact);
       if artifact_is_dir : bool
       then syscall (rmtree artifact)
       else syscall (unlink artifact))
      (λ exc, echo Failed;;
              raise (KedroCliError
                       match exc with
                       | OSError e => Caused e
                       | KedroCliError m => m
                       end));;
    echo Ok).

(** The loops of [delete_pipeline] that look for a child pipeline. *)
Definition refuse_child_pipelines (dirs_to_delete : list path) : M unit :=
  for_each dirs_to_delete (λ dir_to_delete,
    subdirs ← stat (λ σ, glob_subdirs scandir_order σ dir_to_delete);
    for_each subdirs (λ subdir,
      py_files ← stat (λ σ, glob_py scandir_order σ subdir);
      for_each py_files (λ py_file,
        raise (KedroCliError
                 (ContainsChildPipeline dir_to_delete (parent py_file)))))).

(** [confirm] is what the user answers to [click.confirm]. *)
Definition delete_pipeline (metadata : ProjectMetadata) (name : str)
    (env : option str) (yes : bool) (confirm : bool) : M unit :=
  let package_dir := package_name metadata :: source_dir metadata in
  let conf_source := CONF_SOURCE in
  let project_conf_path := joinpath (project_path metadata) conf_source in
  let env := match env with
             | Some (c :: e) => c :: e
             | _ => lit "base"
             end in
  env_exists ← stat (λ σ, exists_ σ (env :: project_conf_path));
  if negb env_exists then raise (KedroCliError (EnvNotFound env))
  else
    let pipeline_artifacts := _get_pipeline_artifacts metadata name env in
    let conf_name := (_split_on_last_dot name).2 in
    files_to_delete ← stat (λ σ,
      filter (λ f, is_file σ f)
        (confdir ← [lit "parameters"; lit "catalog"];
         filepath ← [ [confdir ++ lit "_" ++ conf_name ++ lit ".yml"];
                      [conf_name ++ lit ".yml"; confdir] ];
         [joinpath (pipeline_conf pipeline_artifacts) filepath]));
    dirs_to_delete ← stat (λ σ,
      filter (λ d, is_dir σ d)
        [pipeline_dir pipeline_artifacts; pipeline_tests pipeline_artifacts]);
    refuse_child_pipelines dirs_to_delete;;
    match files_to_delete, dirs_to_delete with
    | [], [] => raise (KedroCliError (PipelineNotFound name))
    | _, _ =>
        yes ← (if negb yes then
                 _echo_deletion_warning dirs_to_delete files_to_delete;;
                 echo Blank;;
                 answer ← mret confirm;
                 echo Blank;;
                 mret answer
               else mret yes);
        if negb yes then raise (KedroCliError DeletionAborted)
        else
          _delete_artifacts (files_to_delete ++ dirs_to_delete);;
          echo (Deleted name);;
          echo (RegistryReminder name (lit "pipeline_registry.py" :: package_dir))
    end.

End Delete.

(** ** Concrete paths and listings for the examples *)

Definition root : path := [].

Definition sub (p : path) (n : string) : path := lit n :: p.
Infix "//" := sub (at level 40, left associativity).

(** A listing in alphabetical order of the names, one of the orders an
    operating system may produce. *)
Fixpoint str_leb (s t : str) : bool :=
  match s, t with
  | [], _ => true
  | _ :: _, [] => false
  | a :: s', b :: t' => (a <? b)%N || (a =? b)%N && str_leb s' t'
  end.

Definition alphabetical (l : list path) : list path :=
  merge_sort (λ p q, Is_true (str_leb (name p) (name q))) l.

Definition never1 : path → bool := λ _, false.
Definition never2 : path → path → bool := λ _ _, false.

Definition S_ : path := root // "S".
Definition T_ : path := root // "T".

(** S = {a.txt: "1", sub/b.txt: "2"} and T = {a.txt: "0"}. *)
Definition scenario : gmap path entry :=
  list_to_map
    [ (root, Dir);
      (S_, Dir); (S_ // "a.txt", File "1");
      (S_ // "sub", Dir); (S_ // "sub" // "b.txt", File "2");
      (T_, Dir); (T_ // "a.txt", File "0") ].

(** As [scenario], with T = {a.txt: "0", sub/b.txt: "0"}. *)
Definition nested_collision : gmap path entry :=
  <[T_ // "sub" := Dir]> (<[T_ // "sub" // "b.txt" := File "0"]> scenario).

(** S = {d/g.txt: "x"} and T = {d: "y"}: the directory [d] of the
    source meets a file [d] of the target. *)
Definition dir_meets_file : gmap path entry :=
  list_to_map
    [ (root, Dir);
      (S_, Dir); (S_ // "d", Dir); (S_ // "d" // "g.txt", File "x");
      (T_, Dir); (T_ // "d", File "y") ].

(** As [dir_meets_file], with a file [f.txt] on both sides. *)
Definition dir_meets_file_and_f : gmap path entry :=
  <[S_ // "f.txt" := File "1"]> (<[T_ // "f.txt" := File "0"]> dir_meets_file).

(** S = {empty/} and no T. *)
Definition empty_subdirectory : gmap path entry :=
  list_to_map [ (root, Dir); (S_, Dir); (S_ // "empty", Dir) ].

(** S = {a.txt: "1", sub/b.txt: "2", empty/} and no T. *)
Definition nested_source : gmap path entry :=
  list_to_map
    [ (root, Dir);
      (S_, Dir); (S_ // "a.txt", File "1");
      (S_ // "sub", Dir); (S_ // "sub" // "b.txt", File "2");
      (S_ // "empty", Dir) ].

(** S = {a.txt: "1", d/g.txt: "2", z.txt: "3"}, an empty T, and an
    operating system that refuses to open T/d/g.txt for writing: the
    world when [a.txt] is copied, and the world when the copy of
    [g.txt] has failed. *)
Definition nested_failure : gmap path entry :=
  list_to_map
    [ (root, Dir);
      (S_, Dir); (S_ // "a.txt", File "1");
      (S_ // "d", Dir); (S_ // "d" // "g.txt", File "2");
      (S_ // "z.txt", File "3");
      (T_, Dir) ].

Definition g_denied : path → path → bool :=
  λ _ dst, bool_decide (dst = T_ // "d" // "g.txt").

Definition nested_failure_done : world :=
  World (<[T_ // "a.txt" := File "1"]> nested_failure)
    [ Creating [] (T_ // "a.txt"); Ok ].

Definition nested_failure_left : world :=
  World (<[T_ // "d" := Dir]> (<[T_ // "a.txt" := File "1"]> nested_failure))
    [ Creating [] (T_ // "a.txt"); Ok;
      Creating [] (T_ // "d"); Blank;
      Creating (lit "  ") (T_ // "d" // "g.txt"); Failed ].

(** A project after the template was instantiated: the new pipeline
    [p] with its scratch [tests] and [config], and a pipeline [old]
    that has a child pipeline [inner]. *)
Definition pkg : path := root // "src" // "pkg".
Definition generated : path := pkg // "pipelines" // "p".

Definition project : gmap path entry :=
  list_to_map
    [ (root, Dir); (root // "src", Dir); (pkg, Dir);
      (pkg // "pipelines", Dir); (generated, Dir);
      (generated // "__init__.py", File "");
      (generated // "tests", Dir);
      (generated // "tests" // "test_pipeline.py", File "test");
      (generated // "config", Dir);
      (generated // "config" // "parameters_p.yml", File "{}");
      (pkg // "pipelines" // "old", Dir);
      (pkg // "pipelines" // "old" // "pipeline.py", File "old");
      (pkg // "pipelines" // "old" // "inner", Dir);
      (pkg // "pipelines" // "old" // "inner" // "pipeline.py", File "inner");
      (root // "conf", Dir); (root // "conf" // "base", Dir) ].

Definition metadata0 : ProjectMetadata :=
  {| source_dir := root // "src";
     package_name := lit "pkg";
     project_path := root |}.

(** A project with a pipeline [q]: its directory, its tests, and its
    parameters in the environment [base]. *)
Definition project_q : gmap path entry :=
  list_to_map
    [ (root, Dir); (root // "src", Dir); (pkg, Dir);
      (pkg // "pipelines", Dir); (pkg // "pipelines" // "q", Dir);
      (pkg // "pipelines" // "q" // "pipeline.py", File "q");
      (root // "src" // "tests", Dir);
      (root // "src" // "tests" // "pipelines", Dir);
      (root // "src" // "tests" // "pipelines" // "q", Dir);
      (root // "src" // "tests" // "pipelines" // "q" // "test_pipeline.py",
       File "test");
      (root // "conf", Dir); (root // "conf" // "base", Dir);
      (root // "conf" // "base" // "parameters_q.yml", File "{}");
      (root // "conf" // "base" // "catalog.yml", File "") ].

(** What the merge of [scenario] without [overwrite] leaves and
    prints. *)
Definition scenario_merged : world :=
  World (<[T_ // "sub" // "b.txt" := File "2"]>
           (<[T_ // "sub" := Dir]> scenario))
    [ Creating [] (T_ // "a.txt"); Skipped;
      Creating [] (T_ // "sub"); Blank;
      Creating (lit "  ") (T_ // "sub" // "b.txt"); Ok ].

Global Instance wf_dec σ : Decision (wf σ).
Proof. unfold wf. apply _. Defined.

(** A run of the merge-copier on a filesystem, with an empty terminal
    and alphabetical listings. *)
Abbreviation run fs_denied fuel source target overwrite σ :=
  (_sync_dirs alphabetical never1 fs_denied fuel source target [] overwrite
     (World σ [])).

(** ** Vocabulary of the statements *)

(** Nothing exists at [p] or below it. *)
Definition gone (p : path) (σ : gmap path entry) : Prop :=
  ∀ q, p `suffix_of` q → σ !! q = None.

(** Neither path lies at or below the other. *)
Definition apart (p q : path) : Prop :=
  ¬ p `suffix_of` q ∧ ¬ q `suffix_of` p.

Global Instance apart_dec p q : Decision (apart p q).
Proof. unfold apart. apply _. Defined.

(** Some file lies at [p] or below it. *)
Definition holds_file (σ : gmap path entry) (p : path) : Prop :=
  map_Exists (λ q e, p `suffix_of` q ∧ e ≠ Dir) σ.

Global Instance holds_file_dec σ p : Decision (holds_file σ p).
Proof. unfold holds_file. apply _. Defined.

(** What a merge into an empty target leaves at the relative path [r]
    of the target: the file of the source there, or a directory when
    the source has one there that holds a file. *)
Definition merged (σ : gmap path entry) (source : path) (r : path)
    : option entry :=
  match σ !! (r ++ source) with
  | Some (File data) => Some (File data)
  | Some Dir => if decide (holds_file σ (r ++ source)) then Some Dir else None
  | None => None
  end.

(** The state of the loop of a merge into an empty target, when the
    items [done] have been copied. *)
Definition merging (σ : gmap path entry) (source target : path)
    (done : list path) (σ1 : gmap path entry) : Prop :=
  wf σ1
  ∧ (∀ q, source `suffix_of` q → σ1 !! q = σ !! q)
  ∧ (∀ q, below target q →
       (∀ x, x ∈ done → ¬ (name x :: target) `suffix_of` q) → σ1 !! q = None)
  ∧ (∀ x r, x ∈ done →
       σ1 !! (r ++ name x :: target) = merged σ source (r ++ [name x]))
  ∧ (∀ q, q `suffix_of` target →
       σ1 !! q = if decide (Exists (holds_file σ) done)
                 then Some Dir else σ !! q).

(** More than the length of any existing path: fuel enough for a
    recursion that descends one directory per call. *)
Definition depth_bound (σ : gmap path entry) : nat :=
  S (max_list_with length (paths σ)).

(** What a run may write.

    Every change the module makes to the filesystem while it copies is
    one of two: a directory is made where nothing was, in a directory;
    or a file is written, in a directory, where no directory was.  [F]
    says where. *)

Inductive write (F : path → Prop) (σ : gmap path entry)
    : gmap path entry → Prop :=
  | write_dir q :
      F q → σ !! q = None → σ !! parent q = Some Dir →
      write F σ (<[q := Dir]> σ)
  | write_file q data :
      F q → σ !! q ≠ Some Dir → σ !! parent q = Some Dir →
      write F σ (<[q := File data]> σ).

Definition writes (F : path → Prop) : relation (gmap path entry) :=
  rtc (write F).

(** A computation whose every outcome, returned or raised, leaves a
    filesystem related by [R] to the one it found. *)
Definition steps (R : relation (gmap path entry)) {A} (m : M A) : Prop :=
  ∀ w r w', m w = Some (r, w') → R (files w) (files w').

(** Where a call of the merge-copier writes: at the target and above
    it, for the directories that are missing, and below it. *)
Definition touched (target : path) (q : path) : Prop :=
  q `suffix_of` target ∨ target `suffix_of` q.

Definition touched_by_item (target : path) (n : str) (q : path) : Prop :=
  q `suffix_of` target ∨ (n :: target) `suffix_of` q.

(** A failure while a file is copied, somewhere in the calls of a
    merge.  In the call at hand the items [pre] are done and have left
    [w1], and the item [x] is not skipped.  Either [x] is a file, and
    making the target directory or copying the file raises [e]; or [x]
    is a directory, and the failure lies in its own call, one frame
    down.  [w'] is the filesystem the failed call of the operating
    system left, with what was printed. *)
Section Failure.

Variable scandir_order : list path → list path.
Variable mkdir_denied : path → bool.
Variable copy_denied : path → path → bool.

Inductive fails_in
    : nat → path → path → str → bool → world → exn → world → Prop :=
  | fails_file fuel source target prefix overwrite w pre x post w1 e σ2 :
      content scandir_order (files w) source = pre ++ x :: post →
      for_each pre
        (sync_item mkdir_denied copy_denied
           (λ s t p, _sync_dirs scandir_order mkdir_denied copy_denied
                       fuel s t p false)
           (existing_files scandir_order (files w) target)
           (existing_folders scandir_order (files w) target)
           target prefix overwrite) w = Some (Return (), w1) →
      skip_rule overwrite (name x)
        (existing_files scandir_order (files w) target)
        (existing_folders scandir_order (files w) target)
        (is_file (files w1) x) = false →
      is_file (files w1) x = true →
      (syscall (mkdir_parents mkdir_denied target);;
       syscall (copyfile copy_denied x (name x :: target))) w1
      = Some (Raise e, World σ2 (terminal w1)) →
      fails_in (S fuel) source target prefix overwrite w e
        (World σ2
           (terminal w1 ++ [Creating prefix (name x :: target); Failed]))
  | fails_dir fuel source target prefix overwrite w pre x post w1 e w' :
      content scandir_order (files w) source = pre ++ x :: post →
      for_each pre
        (sync_item mkdir_denied copy_denied
           (λ s t p, _sync_dirs scandir_order mkdir_denied copy_denied
                       fuel s t p false)
           (existing_files scandir_order (files w) target)
           (existing_folders scandir_order (files w) target)
           target prefix overwrite) w = Some (Return (), w1) →
      skip_rule overwrite (name x)
        (existing_files scandir_order (files w) target)
        (existing_folders scandir_order (files w) target)
        (is_file (files w1) x) = false →
      is_file (files w1) x = false →
      fails_in fuel x (name x :: target) (prefix ++ lit "  ") false
        (World (files w1)
           (terminal w1 ++ [Creating prefix (name x :: target); Blank]))
        e w' →
      fails_in (S fuel) source target prefix overwrite w e w'.

End Failure.

(** The item [x] of a source is merged at the path [t] of a target: a
    file is at [t]; or [x] is a file and something is at [t]; or [x] is
    a directory whose entries are merged below [t]. *)
Inductive settled (σ : gmap path entry) : path → path → Prop :=
  | settled_skip x t data :
      σ !! t = Some (File data) → settled σ x t
  | settled_file x t :
      is_file σ x = true → is_Some (σ !! t) → settled σ x t
  | settled_dir x t :
      is_dir σ x = true →
      (∀ y, child_of x y → is_Some (σ !! y) → settled σ y (name y :: t)) →
      settled σ x t.

(** The matches of a pattern, as a relation: from a position and the
    rest of the subject to the position and rest after the match.  An
    iteration of a star consumes something. *)
Inductive matches (unicode_isalnum : char → bool)
    : Re.regex → nat → str → nat → str → Prop :=
  | matches_bol s : matches unicode_isalnum Re.Bol 0 s 0 s
  | matches_eol pos s :
      Re.at_eol s = true → matches unicode_isalnum Re.Eol pos s pos s
  | matches_set cs pos c s :
      Re.in_set unicode_isalnum cs c = true →
      matches unicode_isalnum (Re.Set_ cs) pos (c :: s) (S pos) s
  | matches_cat r1 r2 pos s pos1 s1 pos2 s2 :
      matches unicode_isalnum r1 pos s pos1 s1 →
      matches unicode_isalnum r2 pos1 s1 pos2 s2 →
      matches unicode_isalnum (Re.Cat r1 r2) pos s pos2 s2
  | matches_star_nil r pos s : matches unicode_isalnum (Re.Star r) pos s pos s
  | matches_star_cons r pos s pos1 s1 pos2 s2 :
      matches unicode_isalnum r pos s pos1 s1 →
      length s1 < length s →
      matches unicode_isalnum (Re.Star r) pos1 s1 pos2 s2 →
      matches unicode_isalnum (Re.Star r) pos s pos2 s2.

(** The names [_assert_pkg_name_ok] lets through: a first character,
    folders that each end in a dot, a last folder, and the end of the
    string or a final newline. *)
Definition folder (unicode_isalnum : char → bool) (u : str) : Prop :=
  u ≠ [] ∧ Forall (λ c, Re.is_word unicode_isalnum c = true) u.

Definition dots (folders : list str) : str :=
  concat ((λ u, u ++ [dot]) <$> folders).

Definition dotted (unicode_isalnum : char → bool) (s : str) : Prop :=
  ∃ c0 folders last tail,
    s = c0 :: dots folders ++ last ++ tail
    ∧ Re.in_set unicode_isalnum Re.AsciiLetterOrUnderscore c0 = true
    ∧ Forall (folder unicode_isalnum) (folders ++ [last])
    ∧ (tail = [] ∨ tail = [newline]).

(** The error [delete] raises for a child pipeline. *)
Definition child_pipeline_error (e : exn) : Prop :=
  ∃ dir_to_delete child,
    e = KedroCliError (ContainsChildPipeline dir_to_delete child).

(** The four configuration files [delete] looks for, for the name
    [conf_name], in the directory [conf] of the environment: the
    comprehension of [delete_pipeline], written out. *)
Definition conf_files (conf : path) (conf_name : str) : list path :=
  [ (lit "parameters" ++ lit "_" ++ conf_name ++ lit ".yml") :: conf;
    (conf_name ++ lit ".yml") :: lit "parameters" :: conf;
    (lit "catalog" ++ lit "_" ++ conf_name ++ lit ".yml") :: conf;
    (conf_name ++ lit ".yml") :: lit "catalog" :: conf ].

(** * Properties *)

(** ** Strings *)

Lemma rfind_split_None sep s : Str.rfind_split sep s = None ↔ sep ∉ s.
Proof.
  induction s as [|c s IH]; simpl.
  - split; [intros _; apply not_elem_of_nil | done].
  - destruct (Str.rfind_split sep s) as [[before after]|].
    + split; [done|]. intros Hn. exfalso.
      assert (sep ∉ s) as Hs by (intros ?; apply Hn; by right).
      apply IH in Hs. done.
    + destruct (N.eqb_spec c sep) as [->|Hne].
      * split; [done|]. intros Hn. exfalso. apply Hn. by left.
      * split; [|done]. intros _ [?|?]%elem_of_cons; [done|].
        by apply (proj1 IH).
Qed.

Lemma rfind_split_Some sep s before after :
  Str.rfind_split sep s = Some (before, after) →
  s = before ++ sep :: after ∧ sep ∉ after.
Proof.
  revert before. induction s as [|c s IH]; intros before; simpl; [done|].
  destruct (Str.rfind_split sep s) as [[b a]|] eqn:Hs.
  - intros [= <- <-]. destruct (IH b eq_refl) as [-> Ha]. done.
  - destruct (N.eqb_spec c sep) as [->|Hne]; [|done].
    intros [= <- <-]. split; [done|]. by apply rfind_split_None.
Qed.

(** C10: [_split_on_last_dot] splits at the last dot.  Without a dot
    the first part is empty and the second is the input; with one, the
    second part has no dot and the parts joined by a dot give back the
    input. *)
Theorem split_on_last_dot_spec (input_string : str) :
  let '(before, last) := _split_on_last_dot input_string in
  if bool_decide (dot ∈ input_string)
  then (dot ∉ last) ∧ before ++ dot :: last = input_string
  else before = [] ∧ last = input_string.
Proof.
  unfold _split_on_last_dot, Str.rsplit1.
  destruct (Str.rfind_split dot input_string) as [[b a]|] eqn:Hs; simpl.
  - apply rfind_split_Some in Hs as [-> Ha].
    rewrite bool_decide_true; [done|].
    apply elem_of_app. right. by left.
  - apply rfind_split_None in Hs. by rewrite bool_decide_false.
Qed.

(** X3: splitting undoes joining with a dot, when what follows the
    dot has none. *)
Theorem split_on_last_dot_join (before last : str) :
  dot ∉ last → _split_on_last_dot (before ++ dot :: last) = (before, last).
Proof.
  intros Hlast. unfold _split_on_last_dot, Str.rsplit1.
  assert (Str.rfind_split dot (before ++ dot :: last) = Some (before, last))
    as ->; [|done].
  induction before as [|c before IH]; simpl.
  - apply rfind_split_None in Hlast. by rewrite Hlast.
  - by rewrite IH.
Qed.

(** ** Patterns *)

Section Patterns.

Variable unicode_isalnum : char → bool.

Abbreviation accept := (Re.accept unicode_isalnum).
Abbreviation matches_ := (matches unicode_isalnum).
Abbreviation word c := (Re.is_word unicode_isalnum c = true).

Lemma accept_iff r pos s k :
  accept r pos s k = true
  ↔ ∃ pos' s', matches_ r pos s pos' s' ∧ k pos' s' = true.
Proof.
  revert pos s k. induction r as [| |cs|r1 IH1 r2 IH2|r IH]; intros pos s k.
  - simpl. rewrite andb_true_iff, bool_decide_eq_true. split.
    + intros [-> Hk]. exists 0, s. split; [constructor|done].
    + intros (pos' & s' & Hm & Hk). by inversion Hm; subst.
  - simpl. rewrite andb_true_iff. split.
    + intros [He Hk]. exists pos, s. split; [by constructor|done].
    + intros (pos' & s' & Hm & Hk). by inversion Hm; subst.
  - simpl. destruct s as [|c s].
    + split; [done|]. intros (pos' & s' & Hm & _). inversion Hm.
    + rewrite andb_true_iff. split.
      * intros [Hc Hk]. exists (S pos), s. split; [by constructor|done].
      * intros (pos' & s' & Hm & Hk). by inversion Hm; subst.
  - simpl. rewrite IH1. split.
    + intros (pos1 & s1 & Hm1 & (pos2 & s2 & Hm2 & Hk)%IH2).
      exists pos2, s2. split; [by econstructor|done].
    + intros (pos2 & s2 & Hm & Hk). inversion Hm; subst.
      eexists _, _. split; [done|]. apply IH2. by eexists _, _.
  - simpl. generalize (le_n (length s)).
    generalize (length s) at 2 3 as fuel. intros fuel. revert pos s.
    induction fuel as [|fuel IHfuel]; intros pos s Hlen.
    + split.
      * intros Hk. exists pos, s. split; [constructor|done].
      * intros (pos' & s' & Hm & Hk). inversion Hm; subst; [done|lia].
    + rewrite orb_true_iff, IH. split.
      * intros [(pos1 & s1 & Hm1 & [Hlt Hit]%andb_true_iff)|Hk].
        -- apply bool_decide_eq_true in Hlt.
           apply IHfuel in Hit as (pos2 & s2 & Hm2 & Hk); [|lia].
           exists pos2, s2. split; [by econstructor|done].
        -- exists pos, s. split; [constructor|done].
      * intros (pos' & s' & Hm & Hk). inversion Hm; subst; [by right|].
        left. eexists _, _. split; [done|].
        apply andb_true_iff. split; [by apply bool_decide_eq_true|].
        apply IHfuel; [lia|]. by eexists _, _.
Qed.

Abbreviation folder_ := (folder unicode_isalnum).

Lemma star_word_inv pos s pos' s' :
  matches_ (Re.Star (Re.Set_ Re.Word)) pos s pos' s' →
  ∃ u, s = u ++ s' ∧ Forall (λ c, word c) u.
Proof.
  remember (Re.Star (Re.Set_ Re.Word)) as r eqn:Hr.
  induction 1 as [| | | |r0 pos s|r0 pos s pos1 s1 pos2 s2 Hm _ _ _ IH];
    try discriminate.
  - exists []. split; [done|constructor].
  - injection Hr as ->. inversion Hm; subst. simpl in *.
    destruct (IH eq_refl) as (u & -> & Hu).
    exists (c :: u). split; [done|by constructor].
Qed.

Lemma star_word_intro u s' pos :
  Forall (λ c, word c) u →
  ∃ pos', matches_ (Re.Star (Re.Set_ Re.Word)) pos (u ++ s') pos' s'.
Proof.
  intros Hu. revert pos. induction Hu as [|c u Hc Hu IH]; intros pos.
  - eexists. constructor.
  - destruct (IH (S pos)) as [pos' Hm]. exists pos'. simpl.
    eapply matches_star_cons; [by constructor|simpl; lia|done].
Qed.

Lemma plus_word_inv pos s pos' s' :
  matches_ (Re.Plus (Re.Set_ Re.Word)) pos s pos' s' →
  ∃ u, s = u ++ s' ∧ folder_ u.
Proof.
  unfold Re.Plus. intros Hm.
  inversion Hm as [| | |? ? ? ? ? ? ? ? H1 H2| |]; subst.
  inversion H1; subst. apply star_word_inv in H2 as (u & -> & Hu).
  exists (c :: u). split; [done|]. split; [done|by constructor].
Qed.

Lemma plus_word_intro u s' pos :
  folder_ u →
  ∃ pos', matches_ (Re.Plus (Re.Set_ Re.Word)) pos (u ++ s') pos' s'.
Proof.
  intros [Hne Hu]. destruct Hu as [|c u Hc Hu]; [done|].
  destruct (star_word_intro u s' (S pos) Hu) as [pos' Hm].
  exists pos'. simpl. econstructor; [by constructor|done].
Qed.

Lemma star_folders_inv pos s pos' s' :
  matches_ (Re.Star (Re.Cat (Re.Plus (Re.Set_ Re.Word)) (Re.Set_ (Re.Lit dot))))
    pos s pos' s' →
  ∃ folders, s = dots folders ++ s' ∧ Forall folder_ folders.
Proof.
  remember (Re.Star _) as r eqn:Hr.
  induction 1 as [| | | |r0 pos s|r0 pos s pos1 s1 pos2 s2 Hm _ _ _ IH];
    try discriminate.
  - exists []. split; [done|constructor].
  - injection Hr as ->.
    inversion Hm as [| | |? ? ? ? ? ? ? ? H1 H2| |]; subst.
    apply plus_word_inv in H1 as (u & -> & Hu).
    inversion H2 as [| |? ? c ? Hc| | |]; subst.
    simpl in Hc. apply N.eqb_eq in Hc as ->.
    destruct (IH eq_refl) as (folders & -> & Hfs).
    exists (u :: folders). split; [|by constructor].
    unfold dots. rewrite fmap_cons. simpl. by rewrite <-!app_assoc.
Qed.

Lemma star_folders_intro folders s' pos :
  Forall folder_ folders →
  ∃ pos',
    matches_
      (Re.Star (Re.Cat (Re.Plus (Re.Set_ Re.Word)) (Re.Set_ (Re.Lit dot))))
      pos (dots folders ++ s') pos' s'.
Proof.
  intros Hfs. revert pos.
  induction Hfs as [|u folders Hu Hfs IH]; intros pos.
  - eexists. constructor.
  - replace (dots (u :: folders) ++ s') with (u ++ dot :: dots folders ++ s')
      by (unfold dots; rewrite fmap_cons; simpl; by rewrite <-!app_assoc).
    destruct (plus_word_intro u (dot :: dots folders ++ s') pos Hu)
      as [pos1 Hm1].
    destruct (IH (S pos1)) as [pos' Hm].
    exists pos'. eapply matches_star_cons; [| |exact Hm].
    + econstructor; [exact Hm1|]. by constructor.
    + rewrite !length_app. simpl. rewrite length_app. lia.
Qed.

Lemma at_eol_iff tail : Re.at_eol tail = true ↔ tail = [] ∨ tail = [newline].
Proof.
  destruct tail as [|c [|c' tail]]; simpl.
  - split; [by left|done].
  - rewrite N.eqb_eq. split; [intros ->; by right|by intros [|[= ->]]].
  - split; [done|by intros [|]].
Qed.

Lemma letter_is_word c :
  Re.in_set unicode_isalnum Re.AsciiLetterOrUnderscore c = true → word c.
Proof.
  simpl. unfold Re.is_word, Re.ascii_letter, underscore.
  intros H. destruct (N.ltb_spec c 128) as [Hlt|Hge].
  - apply orb_true_iff in H as [H|H]; rewrite H; by rewrite ?orb_true_r.
  - exfalso. apply orb_true_iff in H as [H|H].
    + apply orb_true_iff in H as [H|H]; apply andb_true_iff in H as [_ H];
        apply N.leb_le in H; lia.
    + apply N.eqb_eq in H. lia.
Qed.

Lemma pkg_name_pattern_iff s :
  Re.match_ unicode_isalnum Re.pkg_name_pattern s = true
  ↔ ∃ c0 folders last tail,
      s = c0 :: dots folders ++ last ++ tail
      ∧ word c0
      ∧ Forall folder_ (folders ++ [last])
      ∧ (tail = [] ∨ tail = [newline]).
Proof.
  unfold Re.match_, Re.pkg_name_pattern. rewrite accept_iff. split.
  - intros (pos' & s' & Hm & _).
    inversion Hm as [| | |? ? ? ? ? ? ? ? H1 H2| |]; subst.
    inversion H1; subst.
    inversion H2 as [| | |? ? ? ? ? ? ? ? H3 H4| |]; subst.
    inversion H3; subst.
    inversion H4 as [| | |? ? ? ? ? ? ? ? H5 H6| |]; subst.
    apply star_folders_inv in H5 as (folders & -> & Hfs).
    inversion H6 as [| | |? ? ? ? ? ? ? ? H7 H8| |]; subst.
    apply plus_word_inv in H7 as (last & -> & Hlast).
    inversion H8; subst.
    exists c, folders, last, s'. split; [done|]. split; [done|].
    split; [|by apply at_eol_iff].
    apply Forall_app. split; [done|]. constructor; [done|constructor].
  - intros (c0 & folders & last & tail & -> & Hc0 & Hfs & Htail).
    apply Forall_app in Hfs as [Hfs [Hlast _]%Forall_cons].
    destruct (star_folders_intro folders (last ++ tail) 1 Hfs) as [pos1 Hm1].
    destruct (plus_word_intro last tail pos1 Hlast) as [pos2 Hm2].
    exists pos2, tail. split; [|done].
    econstructor; [constructor|].
    econstructor; [by constructor|].
    econstructor; [exact Hm1|].
    econstructor; [exact Hm2|].
    constructor. by apply at_eol_iff.
Qed.

(** What [_assert_pkg_name_ok] accepts, exactly. *)
Lemma pkg_name_accepted_iff s :
  _assert_pkg_name_ok unicode_isalnum s = Return ()
  ↔ dotted unicode_isalnum s.
Proof.
  unfold _assert_pkg_name_ok, dotted. split.
  - destruct (Re.match_ _ Re.first_char_pattern s) eqn:Hfirst; [|done]. simpl.
    case_bool_decide; [done|].
    destruct (Re.match_ _ Re.pkg_name_pattern s) eqn:Hpat; [|done]. intros _.
    apply pkg_name_pattern_iff in Hpat
      as (c0 & folders & last & tail & -> & _ & Hfs & Htail).
    exists c0, folders, last, tail. split; [done|]. split; [|done].
    unfold Re.match_, Re.first_char_pattern in Hfirst. simpl in Hfirst.
    by apply andb_true_iff in Hfirst as [Hfirst _].
  - intros (c0 & folders & last & tail & -> & Hc0 & Hfs & Htail).
    assert (Re.match_ unicode_isalnum Re.first_char_pattern
              (c0 :: dots folders ++ last ++ tail)
            = true) as ->.
    { unfold Re.match_, Re.first_char_pattern. simpl in *. by rewrite Hc0. }
    simpl. rewrite bool_decide_false.
    2:{ apply Forall_app in Hfs as [_ [[Hne _] _]%Forall_cons].
        simpl. rewrite !length_app. destruct last; [done|]. simpl. lia. }
    assert (Re.match_ unicode_isalnum Re.pkg_name_pattern
              (c0 :: dots folders ++ last ++ tail)
            = true) as ->; [|done].
    apply pkg_name_pattern_iff. exists c0, folders, last, tail.
    split; [done|]. split; [by apply letter_is_word|done].
Qed.

Lemma first_char_pattern_eq s :
  Re.match_ unicode_isalnum Re.first_char_pattern s
  = match s with
    | c :: _ => Re.in_set unicode_isalnum Re.AsciiLetterOrUnderscore c
    | [] => false
    end.
Proof.
  unfold Re.match_, Re.first_char_pattern. destruct s as [|c s]; [done|].
  cbn [Re.accept]. rewrite bool_decide_true by done.
  by rewrite andb_true_r.
Qed.

(** X1: the outcome of [_assert_pkg_name_ok] on every name.  It
    returns exactly on the dotted names; the complaint about the first
    character comes first (also for the empty name), the one about the
    length is for a single letter or underscore, and the one about the
    characters is for the rest. *)
Theorem assert_pkg_name_ok_outcome s :
  let outcome := _assert_pkg_name_ok unicode_isalnum s in
  let starts_well :=
    ∃ c rest, s = c :: rest
      ∧ Re.in_set unicode_isalnum Re.AsciiLetterOrUnderscore c = true in
  (outcome = Return () ↔ dotted unicode_isalnum s)
  ∧ (outcome = Raise (KedroCliError (MustStartWithLetter s)) ↔ ¬ starts_well)
  ∧ (outcome = Raise (KedroCliError (TooShort s))
     ↔ starts_well ∧ length s = 1)
  ∧ (outcome = Raise (KedroCliError (OnlyWordCharacters s))
     ↔ starts_well ∧ 2 ≤ length s ∧ ¬ dotted unicode_isalnum s).
Proof.
  intros outcome starts_well.
  pose proof (pkg_name_accepted_iff s) as Hacc.
  assert (Re.match_ unicode_isalnum Re.first_char_pattern s = true
          ↔ starts_well) as Hfirst.
  { rewrite first_char_pattern_eq. subst starts_well.
    destruct s as [|c rest].
    - split; [done|]. by intros (? & ? & ? & ?).
    - split; [intros; by exists c, rest|].
      by intros (? & ? & [= <- <-] & ?). }
  assert (starts_well → 1 ≤ length s) as Hlen.
  { intros (c & rest & -> & _). simpl. lia. }
  subst outcome. unfold _assert_pkg_name_ok in *.
  destruct (Re.match_ unicode_isalnum Re.first_char_pattern s);
    cbn [negb] in *.
  2:{ assert (¬ starts_well) as Hno by (intros H; by apply Hfirst in H).
      split; [done|]. split; [by split|].
      split; split; try done; by intros [? _]. }
  assert starts_well as Hyes by (by apply Hfirst).
  specialize (Hlen Hyes).
  destruct (bool_decide_reflect (length s < 2)) as [Hshort|Hlong].
  { split; [split; [done|]; intros Hd; by apply Hacc in Hd|].
    split; [by split|]. split; [split; [intros _; split; [done|lia]|done]|].
    split; [done|]. intros (_ & ? & _). lia. }
  destruct (Re.match_ unicode_isalnum Re.pkg_name_pattern s);
    cbn [negb] in *.
  - split; [done|]. split; [by split|].
    split; [split; [done|]; intros [_ ?]; lia|].
    split; [done|]. intros (_ & _ & Hnot). exfalso. by apply Hnot, Hacc.
  - split; [done|]. split; [by split|].
    split; [split; [done|]; intros [_ ?]; lia|].
    split; [|done]. intros _. split; [done|]. split; [lia|].
    intros Hd. by apply Hacc in Hd.
Qed.

Lemma check_pipeline_name_dotted value :
  _check_pipeline_name unicode_isalnum value = Return value →
  value = [] ∨ dotted unicode_isalnum value.
Proof.
  unfold _check_pipeline_name. destruct value as [|c rest]; [by left|].
  pose proof (pkg_name_accepted_iff (c :: rest)) as Hacc.
  destruct (_assert_pkg_name_ok unicode_isalnum (c :: rest)) as [[]|e];
    [|done].
  intros _. right. by apply Hacc.
Qed.

(** X2: the callback of the [name] argument never changes the name, and
    lets through the empty name besides the names
    [_assert_pkg_name_ok] accepts. *)
Theorem check_pipeline_name_returns value value' :
  _check_pipeline_name unicode_isalnum value = Return value'
  ↔ value' = value ∧ (value = [] ∨ dotted unicode_isalnum value).
Proof.
  unfold _check_pipeline_name. destruct value as [|c rest].
  { split; [intros [= <-]; by split; [|left]|by intros [-> _]]. }
  pose proof (pkg_name_accepted_iff (c :: rest)) as Hacc.
  destruct (_assert_pkg_name_ok unicode_isalnum (c :: rest)) as [[]|e].
  - split; [intros [= <-]; split; [done|right; by apply Hacc]|by intros [-> _]].
  - split; [done|]. intros [_ [?|Hd]]; [done|]. by apply Hacc in Hd.
Qed.

End Patterns.

(** ** Computations *)

Lemma bind_unfold {A B} (m : M A) (f : A → M B) (w : world) :
  (m ≫= f) w = match m w with
               | None => None
               | Some (Return a, w') => f a w'
               | Some (Raise e, w') => Some (Raise e, w')
               end.
Proof. reflexivity. Qed.

Lemma bind_stat {A B : Type} (f : gmap path entry → A) (k : A → M B) (w : world) :
  (stat f ≫= k) w = k (f (files w)) w.
Proof. reflexivity. Qed.

Lemma for_each_app {A} (pre post : list A) (body : A → M unit) (w : world) :
  for_each (pre ++ post) body w =
  match for_each pre body w with
  | Some (Return _, w') => for_each post body w'
  | r => r
  end.
Proof.
  revert w. induction pre as [|x pre IH]; intros w; simpl; [done|].
  rewrite !bind_unfold.
  destruct (body x w) as [[[[]|e] w1]|]; [apply IH|done..].
Qed.

Lemma for_each_inv {A} (I : list A → world → Prop) (body : A → M unit) :
  (∀ x rest w r w', I (x :: rest) w → body x w = Some (r, w') → I rest w') →
  ∀ l w r w', I l w → for_each l body w = Some (r, w') → ∃ rest, I rest w'.
Proof.
  intros Hstep. induction l as [|x l IH]; intros w r w' HI; simpl.
  { intros [= <- <-]. by exists []. }
  rewrite bind_unfold. destruct (body x w) as [[[[]|e] w1]|] eqn:Hx; [| |done].
  - apply IH. by eapply Hstep.
  - intros [= <- <-]. exists l. by eapply Hstep.
Qed.

Lemma for_each_inv_return {A} (I : list A → world → Prop) (body : A → M unit) :
  (∀ x rest w w',
     I (x :: rest) w → body x w = Some (Return (), w') → I rest w') →
  ∀ l w w', I l w → for_each l body w = Some (Return (), w') → I [] w'.
Proof.
  intros Hstep. induction l as [|x l IH]; intros w w' HI; simpl.
  { by intros [= <-]. }
  rewrite bind_unfold. destruct (body x w) as [[[[]|e] w1]|] eqn:Hx; [|done..].
  apply IH. by eapply Hstep.
Qed.

Lemma for_each_success {A} (I : list A → world → Prop) (body : A → M unit) :
  (∀ x rest w, I (x :: rest) w →
     ∃ w', body x w = Some (Return (), w') ∧ I rest w') →
  ∀ l w, I l w → ∃ w', for_each l body w = Some (Return (), w') ∧ I [] w'.
Proof.
  intros Hstep. induction l as [|x l IH]; intros w HI; simpl.
  { by exists w. }
  destruct (Hstep x l w HI) as (w1 & Hx & HI1).
  rewrite bind_unfold, Hx. by apply IH.
Qed.

Lemma for_each_raise {A} (pre post : list A) (x : A) (body : A → M unit)
    (w w1 w2 : world) (e : exn) :
  for_each pre body w = Some (Return (), w1) →
  body x w1 = Some (Raise e, w2) →
  for_each (pre ++ x :: post) body w = Some (Raise e, w2).
Proof.
  intros Hpre Hx. rewrite for_each_app, Hpre. simpl.
  by rewrite bind_unfold, Hx.
Qed.

Lemma writes_mono (F G : path → Prop) σ σ' :
  (∀ q, F q → G q) → writes F σ σ' → writes G σ σ'.
Proof.
  intros HFG. induction 1 as [|σ σ1 σ2 Hstep _ IH]; [constructor|].
  eapply rtc_l; [|exact IH].
  destruct Hstep; [apply write_dir|apply write_file]; auto.
Qed.

Lemma writes_frame F σ σ' p : writes F σ σ' → ¬ F p → σ' !! p = σ !! p.
Proof.
  intros Hw Hp. induction Hw as [|σ σ1 σ2 Hstep _ IH]; [done|].
  rewrite IH. destruct Hstep; apply lookup_insert_ne; congruence.
Qed.

Lemma writes_dir F σ σ' p :
  writes F σ σ' → σ !! p = Some Dir → σ' !! p = Some Dir.
Proof.
  induction 1 as [|σ σ1 σ2 Hstep _ IH]; [done|]. intros Hp. apply IH.
  destruct Hstep as [q ? Hq ?|q d ? Hq ?];
    (destruct (decide (q = p)) as [->|]; [congruence|]);
    by rewrite lookup_insert_ne.
Qed.

Lemma writes_present F σ σ' p :
  writes F σ σ' → is_Some (σ !! p) → is_Some (σ' !! p).
Proof.
  induction 1 as [|σ σ1 σ2 Hstep _ IH]; [done|]. intros Hp. apply IH.
  destruct Hstep as [q ? Hq ?|q d ? Hq ?];
    (destruct (decide (q = p)) as [->|];
     [by rewrite lookup_insert_eq|by rewrite lookup_insert_ne]).
Qed.

Lemma wf_insert σ q e :
  wf σ → σ !! parent q = Some Dir → σ !! q ≠ Some Dir →
  wf (<[q := e]> σ).
Proof.
  intros [Hroot Hall] Hparent Hq.
  assert (q ≠ []) as Hne by (intros ->; simpl in Hparent; congruence).
  assert (∀ p, σ !! p = Some Dir → <[q := e]> σ !! p = Some Dir) as Hkeep.
  { intros p Hp. rewrite lookup_insert_ne; [done|congruence]. }
  split; [by apply Hkeep|].
  apply map_Forall_insert_2; [by apply Hkeep|].
  intros p e' Hp. apply Hkeep. by eapply Hall.
Qed.

Lemma writes_wf F σ σ' : writes F σ σ' → wf σ → wf σ'.
Proof.
  induction 1 as [|σ σ1 σ2 Hstep _ IH]; [done|]. intros Hwf. apply IH.
  destruct Hstep; apply wf_insert; congruence.
Qed.

Section Steps.

Context (R : relation (gmap path entry)) `{!PreOrder R}.

Lemma steps_mret {A} (a : A) : steps R (mret a).
Proof. intros w r w' [= <- <-]. reflexivity. Qed.

Lemma steps_raise {A} e : steps R (raise (A:=A) e).
Proof. intros w r w' [= <- <-]. reflexivity. Qed.

Lemma steps_exhausted {A} : steps R (exhausted (A:=A)).
Proof. intros w r w' [=]. Qed.

Lemma steps_echo m : steps R (echo m).
Proof. intros w r w' [= <- <-]. reflexivity. Qed.

Lemma steps_stat {A} (f : gmap path entry → A) : steps R (stat f).
Proof. intros w r w' [= <- <-]. reflexivity. Qed.

Lemma steps_syscall {A} (f : gmap path entry → result A * gmap path entry) :
  (∀ σ, R σ (f σ).2) → steps R (syscall f).
Proof.
  intros Hf w r w'. unfold syscall. specialize (Hf (files w)).
  destruct (f (files w)) as [r1 σ1]. by intros [= <- <-].
Qed.

Lemma steps_bind {A B} (m : M A) (f : A → M B) :
  steps R m → (∀ a, steps R (f a)) → steps R (m ≫= f).
Proof.
  intros Hm Hf w r w'. rewrite bind_unfold.
  destruct (m w) as [[[a|e] w1]|] eqn:Hmw; [| |done].
  - intros Hfa. etrans; [by eapply Hm|by eapply Hf].
  - intros [= <- <-]. by eapply Hm.
Qed.

Lemma steps_try_except {A} (body : M A) (handler : exn → M A) :
  steps R body → (∀ e, steps R (handler e)) → steps R (try_except body handler).
Proof.
  intros Hb Hh w r w'. unfold try_except.
  destruct (body w) as [[[a|e] w1]|] eqn:Hbw; [| |done].
  - intros [= <- <-]. by eapply Hb.
  - intros Hhe. etrans; [by eapply Hb|by eapply Hh].
Qed.

Lemma steps_for_each {A} (l : list A) (body : A → M unit) :
  (∀ x, x ∈ l → steps R (body x)) → steps R (for_each l body).
Proof.
  induction l as [|x l IH]; intros Hbody; simpl; [apply steps_mret|].
  apply steps_bind; [apply Hbody; by left|].
  intros _. apply IH. intros y Hy. apply Hbody. by right.
Qed.

End Steps.

Lemma steps_weaken (R R' : relation (gmap path entry)) {A} (m : M A) :
  (∀ σ σ', R σ σ' → R' σ σ') → steps R m → steps R' m.
Proof. intros HR Hm w r w' Hw. apply HR. by eapply Hm. Qed.

Section MergeCopier.

Variable scandir_order : list path → list path.
Variable mkdir_denied : path → bool.
Variable copy_denied : path → path → bool.

(** A listing has the entries of the directory, in some order. *)
Hypothesis scandir_order_perm : ∀ l, scandir_order l ≡ₚ l.

Abbreviation sync_dirs := (_sync_dirs scandir_order mkdir_denied copy_denied).
Abbreviation item := (sync_item mkdir_denied copy_denied).

Lemma sync_dirs_unfold fuel source target prefix overwrite w :
  sync_dirs (S fuel) source target prefix overwrite w =
  for_each (content scandir_order (files w) source)
    (item (λ s t p, sync_dirs fuel s t p false)
       (existing_files scandir_order (files w) target)
       (existing_folders scandir_order (files w) target)
       target prefix overwrite) w.
Proof. reflexivity. Qed.

(** The three ways through the body of the loop. *)

Lemma item_skipped recurse efiles efolders target prefix overwrite sp w :
  skip_rule overwrite (name sp) efiles efolders (is_file (files w) sp) = true →
  item recurse efiles efolders target prefix overwrite sp w =
  Some (Return (),
        World (files w)
          (terminal w ++ [Creating prefix (name sp :: target); Skipped])).
Proof.
  intros Hskip. unfold sync_item. rewrite !bind_unfold. simpl.
  rewrite bind_unfold. simpl. rewrite Hskip. unfold echo. simpl.
  by rewrite <-app_assoc.
Qed.

Lemma item_directory recurse efiles efolders target prefix overwrite sp w :
  skip_rule overwrite (name sp) efiles efolders (is_file (files w) sp) = false →
  is_file (files w) sp = false →
  item recurse efiles efolders target prefix overwrite sp w =
  recurse sp (name sp :: target) (prefix ++ lit "  ")
    (World (files w)
       (terminal w ++ [Creating prefix (name sp :: target); Blank])).
Proof.
  intros Hskip Hfile. unfold sync_item. rewrite !bind_unfold. simpl.
  rewrite bind_unfold. simpl. rewrite Hskip. rewrite bind_unfold. simpl.
  rewrite Hfile. rewrite bind_unfold. simpl. by rewrite <-app_assoc.
Qed.

Lemma item_file recurse efiles efolders target prefix overwrite sp w :
  skip_rule overwrite (name sp) efiles efolders (is_file (files w) sp) = false →
  is_file (files w) sp = true →
  item recurse efiles efolders target prefix overwrite sp w =
  let creating := terminal w ++ [Creating prefix (name sp :: target)] in
  match mkdir_parents mkdir_denied target (files w) with
  | (Raise e, σ1) => Some (Raise e, World σ1 (creating ++ [Failed]))
  | (Return _, σ1) =>
      match copyfile copy_denied sp (name sp :: target) σ1 with
      | (Raise e, σ2) => Some (Raise e, World σ2 (creating ++ [Failed]))
      | (Return _, σ2) => Some (Return (), World σ2 (creating ++ [Ok]))
      end
  end.
Proof.
  intros Hskip Hfile. unfold sync_item. rewrite !bind_unfold. simpl.
  rewrite bind_unfold. simpl. rewrite Hskip. rewrite bind_unfold. simpl.
  rewrite Hfile. rewrite bind_unfold. unfold try_except, syscall.
  rewrite bind_unfold. simpl.
  destruct (mkdir_parents mkdir_denied target (files w)) as [[[]|e] σ1]; simpl;
    [|done].
  destruct (copyfile copy_denied sp (name sp :: target) σ1) as [[[]|e] σ2];
    done.
Qed.

(** C6: a source that is neither a file nor a directory gives an
    empty run: the call returns and the filesystem and the terminal
    are as before. *)
Theorem sync_dirs_missing_source fuel source target prefix overwrite w :
  is_dir (files w) source = false →
  is_file (files w) source = false →
  sync_dirs (S fuel) source target prefix overwrite w = Some (Return (), w).
Proof.
  intros Hd Hf. rewrite sync_dirs_unfold. unfold content.
  by rewrite Hd, Hf.
Qed.

(** The filesystem calls, as writes. *)

Lemma os_mkdir_inr p σ σ' :
  os_mkdir mkdir_denied p σ = inr σ' →
  σ !! p = None ∧ σ !! parent p = Some Dir ∧ mkdir_denied p = false
  ∧ σ' = <[p := Dir]> σ.
Proof.
  unfold os_mkdir. destruct (σ !! p); [done|].
  destruct (σ !! parent p) as [[]|]; [done| |done].
  destruct (mkdir_denied p); [done|]. by intros [= <-].
Qed.

Lemma mkdir_exist_ok_writes p σ :
  writes (λ q, q = p) σ (mkdir_exist_ok mkdir_denied p σ).2.
Proof.
  unfold mkdir_exist_ok.
  destruct (os_mkdir mkdir_denied p σ) as [e|σ'] eqn:Hos.
  - destruct e; simpl; try destruct (is_dir σ p); reflexivity.
  - apply os_mkdir_inr in Hos as (? & ? & _ & ->). simpl.
    apply rtc_once. by apply write_dir.
Qed.

Lemma mkdir_exist_ok_Return p σ σ' :
  mkdir_exist_ok mkdir_denied p σ = (Return (), σ') → σ' !! p = Some Dir.
Proof.
  unfold mkdir_exist_ok, is_dir.
  destruct (os_mkdir mkdir_denied p σ) as [e|σ1] eqn:Hos.
  - destruct e; try done; destruct (σ !! p) as [[]|] eqn:Hp; naive_solver.
  - apply os_mkdir_inr in Hos as (_ & _ & _ & ->). intros [= <-].
    apply lookup_insert_eq.
Qed.

Lemma mkdir_parents_writes p σ :
  writes (λ q, q `suffix_of` p) σ (mkdir_parents mkdir_denied p σ).2.
Proof.
  revert σ. induction p as [|n p IH]; intros σ; simpl.
  - destruct (os_mkdir mkdir_denied [] σ) as [e|σ'] eqn:Hos.
    + destruct e; simpl; try destruct (is_dir σ []); reflexivity.
    + apply os_mkdir_inr in Hos as (? & ? & _ & ->). simpl.
      apply rtc_once. by apply write_dir.
  - destruct (os_mkdir mkdir_denied (n :: p) σ) as [e|σ'] eqn:Hos.
    + destruct e; simpl; try (destruct (is_dir σ (n :: p)); reflexivity).
      specialize (IH σ).
      destruct (mkdir_parents mkdir_denied p σ) as [[[]|e] σ1]; simpl in *.
      * etrans.
        { eapply writes_mono; [|exact IH]. intros q Hq. by apply suffix_cons_r. }
        eapply writes_mono; [|apply mkdir_exist_ok_writes].
        by intros q ->.
      * eapply writes_mono; [|exact IH]. intros q Hq. by apply suffix_cons_r.
    + apply os_mkdir_inr in Hos as (? & ? & _ & ->). simpl.
      apply rtc_once. by apply write_dir.
Qed.

Lemma mkdir_parents_Return p σ σ' :
  mkdir_parents mkdir_denied p σ = (Return (), σ') → σ' !! p = Some Dir.
Proof.
  assert (∀ e, (if is_dir σ p then (Return (), σ) else (Raise (OSError e), σ))
               = (Return (), σ') → σ' !! p = Some Dir) as Hexists.
  { intros e. unfold is_dir.
    destruct (σ !! p) as [[]|] eqn:Hp; naive_solver. }
  destruct p as [|n p]; simpl.
  - destruct (os_mkdir mkdir_denied [] σ) as [e|σ1] eqn:Hos.
    + destruct e; try done; apply Hexists.
    + apply os_mkdir_inr in Hos as (_ & _ & _ & ->). intros [= <-].
      apply lookup_insert_eq.
  - destruct (os_mkdir mkdir_denied (n :: p) σ) as [e|σ1] eqn:Hos.
    + destruct e; try apply Hexists.
      destruct (mkdir_parents mkdir_denied p σ) as [[[]|e] σ1]; [|done].
      apply mkdir_exist_ok_Return.
    + apply os_mkdir_inr in Hos as (_ & _ & _ & ->). intros [= <-].
      apply lookup_insert_eq.
Qed.

Lemma copyfile_cases src dst σ :
  (∃ e, copyfile copy_denied src dst σ = (Raise e, σ))
  ∨ (∃ data, σ !! src = Some (File data) ∧ σ !! dst ≠ Some Dir
             ∧ σ !! parent dst = Some Dir ∧ copy_denied src dst = false
             ∧ (src = dst → False)
             ∧ copyfile copy_denied src dst σ
               = (Return (), <[dst := File data]> σ)).
Proof.
  unfold copyfile, exists_.
  destruct (decide (src = dst)) as [->|Hne].
  - rewrite bool_decide_true by done. simpl.
    destruct (σ !! dst) as [[]|] eqn:Hdst; simpl; left; eauto.
  - rewrite bool_decide_false by done. simpl.
    destruct (σ !! src) as [[data|]|] eqn:Hsrc; [|left; eauto..].
    destruct (σ !! dst) as [[]|] eqn:Hdst;
      destruct (σ !! parent dst) as [[]|] eqn:Hpar;
      try destruct (copy_denied src dst) eqn:Hdenied;
      try (left; eauto; fail); right; exists data; naive_solver.
Qed.

Lemma copyfile_writes src dst σ :
  writes (λ q, q = dst) σ (copyfile copy_denied src dst σ).2.
Proof.
  destruct (copyfile_cases src dst σ)
    as [[e ->]|(data & _ & ? & ? & _ & _ & ->)]; simpl; [reflexivity|].
  apply rtc_once. by apply write_file.
Qed.

Lemma suffix_cons_r_inv {A} (q l : list A) (x : A) :
  q `suffix_of` x :: l → q = x :: l ∨ q `suffix_of` l.
Proof.
  intros [[|y k] E]; simplify_eq/=; [by left|right]. by apply suffix_app_r.
Qed.

Lemma touched_item_call target n q :
  touched_by_item target n q → touched target q.
Proof.
  intros [?|?]; [by left|right]. by eapply suffix_cons_l.
Qed.

Lemma touched_call_item target n q :
  touched (n :: target) q → touched_by_item target n q.
Proof.
  intros [Hq|?]; [|by right].
  apply suffix_cons_r_inv in Hq as [->|?]; [by right|by left].
Qed.

Lemma item_writes recurse efiles efolders target prefix overwrite sp :
  (∀ prefix', steps (writes (touched (name sp :: target)))
                (recurse sp (name sp :: target) prefix')) →
  steps (writes (touched_by_item target (name sp)))
    (item recurse efiles efolders target prefix overwrite sp).
Proof.
  intros Hrec. unfold sync_item.
  apply steps_bind; [apply _|apply steps_echo, _|intros _].
  apply steps_bind; [apply _|apply steps_stat, _|intros skip].
  destruct skip; [apply steps_echo, _|].
  apply steps_bind; [apply _|apply steps_stat, _|intros source_is_file].
  destruct source_is_file.
  - apply steps_bind; [apply _| |intros _; apply steps_echo, _].
    apply steps_try_except; [apply _| |].
    + apply steps_bind; [apply _| |intros _].
      * apply steps_syscall. intros σ.
        eapply writes_mono; [|apply mkdir_parents_writes]. by left.
      * apply steps_syscall. intros σ.
        eapply writes_mono; [|apply copyfile_writes].
        intros q ->. by right.
    + intros e. apply steps_bind; [apply _|apply steps_echo, _|intros _].
      apply steps_raise, _.
  - apply steps_bind; [apply _|apply steps_echo, _|intros _].
    eapply steps_weaken; [|apply Hrec].
    intros σ σ'. apply writes_mono, touched_call_item.
Qed.

Lemma sync_dirs_writes fuel source target prefix overwrite :
  steps (writes (touched target))
    (sync_dirs fuel source target prefix overwrite).
Proof.
  revert source target prefix overwrite.
  induction fuel as [|fuel IH]; intros source target prefix overwrite.
  { apply steps_exhausted. }
  simpl.
  apply steps_bind; [apply _|apply steps_stat, _|intros efiles].
  apply steps_bind; [apply _|apply steps_stat, _|intros efolders].
  apply steps_bind; [apply _|apply steps_stat, _|intros items].
  apply steps_for_each; [apply _|]. intros x _.
  eapply steps_weaken; [|apply item_writes].
  - intros σ σ'. apply writes_mono, touched_item_call.
  - intros prefix'. apply IH.
Qed.

Lemma is_dir_not_file σ p : is_dir σ p = true → is_file σ p = false.
Proof. unfold is_dir, is_file. by destruct (σ !! p) as [[]|]. Qed.


(** *** Termination, for a source and a target that are apart *)

Lemma elem_of_paths σ q : q ∈ paths σ ↔ is_Some (σ !! q).
Proof.
  unfold paths. rewrite list_elem_of_fmap. split.
  - intros [[q' e] [-> He%elem_of_map_to_list]]. by exists e.
  - intros [e He]. exists (q, e). split; [done|].
    by apply elem_of_map_to_list.
Qed.

Lemma elem_of_iterdir σ p q :
  q ∈ iterdir scandir_order σ p ↔ child_of p q ∧ is_Some (σ !! q).
Proof.
  unfold iterdir. rewrite scandir_order_perm, list_elem_of_filter.
  by rewrite elem_of_paths.
Qed.

Lemma depth_bound_spec σ q : is_Some (σ !! q) → length q < depth_bound σ.
Proof.
  intros Hq%elem_of_paths. unfold depth_bound.
  apply Nat.lt_succ_r. induction Hq; simpl; lia.
Qed.

Lemma depth_bound_fuel σ source fuel :
  depth_bound σ ≤ fuel →
  0 < fuel ∧ ∀ r, is_Some (σ !! (r ++ source)) → length r < fuel.
Proof.
  intros Hfuel. split; [unfold depth_bound in Hfuel; lia|].
  intros r Hr%depth_bound_spec. rewrite length_app in Hr. lia.
Qed.

Lemma apart_frame target source q :
  apart source target → source `suffix_of` q → ¬ touched target q.
Proof.
  intros [Hst Hts] Hq [Hqt|Htq].
  - apply Hst. by etrans.
  - destruct (suffix_weak_total _ _ _ Hq Htq); done.
Qed.

Lemma apart_cons source target n m : apart source target → apart (n :: source) (m :: target).
Proof.
  intros [Hst Hts]. split; intros H; apply suffix_cons_inv in H as [H|H].
  - simplify_eq. by apply Hst.
  - apply Hst. by eapply suffix_cons_l.
  - simplify_eq. by apply Hts.
  - apply Hts. by eapply suffix_cons_l.
Qed.

Lemma item_is_Some recurse efiles efolders target prefix overwrite sp w :
  (is_file (files w) sp = false → ∀ prefix' w1,
     files w1 = files w →
     is_Some (recurse sp (name sp :: target) prefix' w1)) →
  is_Some (item recurse efiles efolders target prefix overwrite sp w).
Proof.
  intros Hrec.
  destruct (skip_rule overwrite (name sp) efiles efolders
              (is_file (files w) sp)) eqn:Hskip.
  { by rewrite item_skipped. }
  destruct (is_file (files w) sp) eqn:Hfile.
  - rewrite item_file by (by rewrite ?Hfile). simpl.
    destruct (mkdir_parents _ _ _) as [[[]|e] σ1]; [|done].
    by destruct (copyfile _ _ _ _) as [[[]|e] σ2].
  - rewrite item_directory by (by rewrite ?Hfile). by apply Hrec.
Qed.

Lemma sync_dirs_terminates fuel source target prefix overwrite w :
  0 < fuel →
  (∀ r, is_Some (files w !! (r ++ source)) → length r < fuel) →
  apart source target →
  is_Some (sync_dirs fuel source target prefix overwrite w).
Proof.
  revert source target prefix overwrite w.
  induction fuel as [|fuel IH]; intros source target prefix overwrite w
    Hfuel Hdepth Hapart; [lia|].
  rewrite sync_dirs_unfold.
  set (σ0 := files w).
  set (body := item _ _ _ _ _ _).
  assert (∀ items w1,
            (∀ x, x ∈ items → x ∈ content scandir_order σ0 source) →
            (∀ q, source `suffix_of` q → files w1 !! q = σ0 !! q) →
            is_Some (for_each items body w1)) as Hloop; last first.
  { apply Hloop; done. }
  induction items as [|x items IHitems]; intros w1 Hitems Hsame; [done|].
  simpl. rewrite bind_unfold.
  assert (is_Some (body x w1)) as [[r w2] Hx].
  { apply item_is_Some. intros Hfile prefix' w1' Hw1'.
    assert (x ∈ content scandir_order σ0 source) as Hx
      by (apply Hitems; by left).
    unfold content in Hx.
    destruct (is_dir σ0 source) eqn:Hdir.
    - apply elem_of_iterdir in Hx as [[Hne Hpar] Hsome].
      destruct x as [|n x']; [done|]. simpl in Hpar. subst x'. simpl.
      assert (∀ r, is_Some (files w1' !! (r ++ n :: source)) →
                   length r < fuel) as Hdepth'.
      { intros r Hr. rewrite Hw1', Hsame in Hr
          by (apply suffix_app_r; by apply suffix_cons_r).
        replace (r ++ n :: source) with ((r ++ [n]) ++ source) in Hr
          by (by rewrite <-app_assoc).
        apply Hdepth in Hr. rewrite length_app in Hr. simpl in Hr. lia. }
      apply IH; [|done|by apply apart_cons].
      assert (is_Some (files w1' !! ([] ++ n :: source))) as H0.
      { simpl. rewrite Hw1', Hsame by (by apply suffix_cons_r). done. }
      apply Hdepth' in H0. simpl in H0. lia.
    - destruct (is_file σ0 source) eqn:Hsrc; [|by apply not_elem_of_nil in Hx].
      apply list_elem_of_singleton in Hx as ->.
      unfold is_file in Hfile, Hsrc. rewrite Hsame in Hfile by done.
      congruence. }
  rewrite Hx. destruct r as [[]|e]; [|done].
  apply IHitems.
  - intros y Hy. apply Hitems. by right.
  - intros q Hq. rewrite <-Hsame by done.
    assert (steps (writes (touched target)) (body x)) as Hsteps.
    { eapply steps_weaken; [|apply item_writes].
      - intros σ σ'. apply writes_mono, touched_item_call.
      - intros prefix'. apply sync_dirs_writes. }
    eapply writes_frame; [by eapply Hsteps|].
    by eapply apart_frame.
Qed.

(** *** What a run keeps *)

Lemma mkdir_exist_ok_subseteq p σ :
  σ ⊆ (mkdir_exist_ok mkdir_denied p σ).2.
Proof.
  unfold mkdir_exist_ok.
  destruct (os_mkdir mkdir_denied p σ) as [e|σ'] eqn:Hos.
  - destruct e; simpl; try destruct (is_dir σ p); reflexivity.
  - apply os_mkdir_inr in Hos as (? & ? & _ & ->). simpl.
    by apply insert_subseteq.
Qed.

Lemma mkdir_parents_subseteq p σ :
  σ ⊆ (mkdir_parents mkdir_denied p σ).2.
Proof.
  revert σ. induction p as [|n p IH]; intros σ; simpl.
  - destruct (os_mkdir mkdir_denied [] σ) as [e|σ'] eqn:Hos.
    + destruct e; simpl; try destruct (is_dir σ []); reflexivity.
    + apply os_mkdir_inr in Hos as (? & ? & _ & ->). simpl.
      by apply insert_subseteq.
  - destruct (os_mkdir mkdir_denied (n :: p) σ) as [e|σ'] eqn:Hos.
    + destruct e; simpl; try (destruct (is_dir σ (n :: p)); reflexivity).
      specialize (IH σ).
      destruct (mkdir_parents mkdir_denied p σ) as [[[]|e] σ1]; simpl in *;
        [|done].
      etrans; [exact IH|apply mkdir_exist_ok_subseteq].
    + apply os_mkdir_inr in Hos as (? & ? & _ & ->). simpl.
      by apply insert_subseteq.
Qed.

Lemma mkdir_parents_existing p σ :
  is_dir σ p = true → mkdir_parents mkdir_denied p σ = (Return (), σ).
Proof.
  intros Hdir. assert (σ !! p = Some Dir) as Hp.
  { unfold is_dir in Hdir. by destruct (σ !! p) as [[]|]. }
  destruct p as [|n p]; simpl; unfold os_mkdir; by rewrite Hp, Hdir.
Qed.

(** The outcomes of the body of the loop, read off the filesystem. *)
Lemma item_cases recurse efiles efolders target prefix overwrite sp w r w' :
  item recurse efiles efolders target prefix overwrite sp w = Some (r, w') →
  let skip := skip_rule overwrite (name sp) efiles efolders
                (is_file (files w) sp) in
  (skip = true ∧ r = Return () ∧ files w' = files w)
  ∨ (skip = false ∧ is_file (files w) sp = true
     ∧ ∃ r1 σ1, mkdir_parents mkdir_denied target (files w) = (r1, σ1)
       ∧ ((∃ e, r1 = Raise e ∧ r = Raise e ∧ files w' = σ1)
          ∨ (r1 = Return ()
             ∧ copyfile copy_denied sp (name sp :: target) σ1
               = (r, files w'))))
  ∨ (skip = false ∧ is_file (files w) sp = false
     ∧ ∃ prefix' w1, files w1 = files w
       ∧ recurse sp (name sp :: target) prefix' w1 = Some (r, w')).
Proof.
  intros Hrun skip. subst skip.
  destruct (skip_rule _ _ _ _ _) eqn:Hskip.
  { rewrite item_skipped in Hrun by done. left. by simplify_eq. }
  destruct (is_file (files w) sp) eqn:Hfile.
  - right. left. do 2 (split; [done|]).
    rewrite item_file in Hrun by (by rewrite ?Hfile). simpl in Hrun.
    destruct (mkdir_parents _ _ _) as [[[]|e] σ1]; eexists _, _;
      (split; [done|]).
    + right. split; [done|].
      destruct (copyfile _ _ _ _) as [[[]|e] σ2]; by simplify_eq.
    + left. exists e. by simplify_eq.
  - right. right. do 2 (split; [done|]).
    rewrite item_directory in Hrun by (by rewrite ?Hfile).
    eexists _, _. split; [|exact Hrun]. done.
Qed.

(** Whatever the outcome, the body of the loop leaves every entry but
    its own target path as it found it, when the recursion keeps what
    exists. *)
Lemma item_preserves recurse efiles efolders target prefix overwrite sp w r w' :
  (∀ prefix' w1 r1 w2,
     files w1 = files w →
     recurse sp (name sp :: target) prefix' w1 = Some (r1, w2) →
     files w1 ⊆ files w2) →
  item recurse efiles efolders target prefix overwrite sp w = Some (r, w') →
  ∀ p e, p ≠ name sp :: target →
    files w !! p = Some e → files w' !! p = Some e.
Proof.
  intros Hrec Hrun p e Hne Hp.
  apply item_cases in Hrun
    as [(_ & _ & ->)|[(_ & _ & r1 & σ1 & Hmk & Hcp)|
                      (_ & _ & prefix' & w1 & Hw1 & Hcall)]]; [done| |].
  - assert (σ1 !! p = Some e) as Hp1.
    { pose proof (mkdir_parents_subseteq target (files w)) as Hsub.
      rewrite Hmk in Hsub. by eapply lookup_weaken. }
    destruct Hcp as [(e' & _ & _ & ->)|[_ Hcp]]; [done|].
    destruct (copyfile_cases sp (name sp :: target) σ1)
      as [[e' He']|(data & _ & _ & _ & _ & _ & Hret)].
    + rewrite He' in Hcp. injection Hcp as _ Hf. by rewrite <-Hf.
    + rewrite Hret in Hcp. injection Hcp as _ Hf.
      by rewrite <-Hf, lookup_insert_ne.
  - eapply lookup_weaken; [|by eapply Hrec]. by rewrite Hw1.
Qed.

Lemma existing_absent σ target n :
  wf σ →
  n ∉ existing_files scandir_order σ target →
  n ∉ existing_folders scandir_order σ target →
  σ !! (n :: target) = None.
Proof.
  intros [_ Hall] Hfiles Hfolders.
  destruct (σ !! (n :: target)) as [e|] eqn:Hn; [exfalso|done].
  pose proof (Hall _ _ Hn) as Htarget. simpl in Htarget.
  assert (n :: target ∈ existing scandir_order σ target) as Hin.
  { unfold existing, is_dir. rewrite Htarget. apply elem_of_iterdir.
    split; [by split|by rewrite Hn]. }
  destruct e as [data|].
  - apply Hfiles. unfold existing_files.
    apply list_elem_of_fmap. exists (n :: target). split; [done|].
    apply list_elem_of_filter. split; [|done]. unfold is_file. by rewrite Hn.
  - apply Hfolders. unfold existing_folders.
    apply list_elem_of_fmap. exists (n :: target). split; [done|].
    apply list_elem_of_filter. split; [|done]. unfold is_dir. by rewrite Hn.
Qed.

Lemma content_child σ source x :
  x ∈ content scandir_order σ source →
  (x = source ∧ is_file σ source = true) ∨ child_of source x.
Proof.
  unfold content. destruct (is_dir σ source).
  - intros [? _]%elem_of_iterdir. by right.
  - destruct (is_file σ source); [|by intros ?%not_elem_of_nil].
    intros ->%list_elem_of_singleton. by left.
Qed.

Lemma NoDup_content_names σ source :
  NoDup (name <$> content scandir_order σ source).
Proof.
  unfold content. destruct (is_dir σ source).
  - apply (NoDup_fmap_2_strong name).
    + intros x y [[Hx Hpx] _]%elem_of_iterdir [[Hy Hpy] _]%elem_of_iterdir Hn.
      destruct x as [|n x'], y as [|m y']; simplify_eq/=.
      unfold name in Hn. simpl in Hn. by subst.
    + unfold iterdir. rewrite scandir_order_perm.
      apply NoDup_filter, NoDup_fst_map_to_list.
  - destruct (is_file σ source); simpl; [apply NoDup_singleton|apply NoDup_nil_2].
Qed.

Lemma other_child_untouched target n m :
  n ≠ m → ¬ touched_by_item target n (m :: target).
Proof.
  intros Hne [H|H].
  - by apply suffix_cons_not in H.
  - apply suffix_cons_inv in H as [?|H]; [by simplify_eq|].
    by apply suffix_cons_not in H.
Qed.

Lemma item_steps fuel efiles efolders target prefix overwrite x :
  steps (writes (touched_by_item target (name x)))
    (item (λ s t p, sync_dirs fuel s t p false)
       efiles efolders target prefix overwrite x).
Proof. apply item_writes. intros prefix'. apply sync_dirs_writes. Qed.

Lemma skip_rule_off n efiles efolders :
  skip_rule false n efiles efolders true = false →
  (n ∉ efiles) ∧ (n ∉ efolders).
Proof.
  unfold skip_rule. simpl. intros [H1 H2]%orb_false_elim.
  by apply bool_decide_eq_false in H1, H2.
Qed.

(** With [overwrite] off, a run keeps every entry it finds, whether it
    returns or raises. *)
Lemma sync_dirs_no_clobber fuel source target prefix w r w' :
  wf (files w) →
  sync_dirs fuel source target prefix false w = Some (r, w') →
  files w ⊆ files w'.
Proof.
  revert source target prefix w r w'.
  induction fuel as [|fuel IH]; intros source target prefix w r w' Hwf;
    [done|].
  rewrite sync_dirs_unfold.
  set (efiles := existing_files scandir_order (files w) target).
  set (efolders := existing_folders scandir_order (files w) target).
  set (body := item _ efiles efolders target prefix false).
  intros Hrun.
  pose (I := λ (rest : list path) (w1 : world),
          wf (files w1) ∧ files w ⊆ files w1 ∧ NoDup (name <$> rest)
          ∧ ∀ x, x ∈ rest → name x ∉ efiles → name x ∉ efolders →
                 files w1 !! (name x :: target) = None).
  assert (I (content scandir_order (files w) source) w) as Hinit.
  { split; [done|]. split; [done|]. split; [apply NoDup_content_names|].
    intros x _. by apply existing_absent. }
  assert (∀ x rest w1 r1 w2,
            I (x :: rest) w1 → body x w1 = Some (r1, w2) → I rest w2) as Hstep.
  { intros x rest w1 r1 w2 (Hwf1 & Hsub1 & Hnd & Habs) Hx.
    pose proof (item_steps _ _ _ _ _ _ _ _ _ _ Hx) as Hwrites.
    apply NoDup_cons in Hnd as [Hx_rest Hnd].
    assert (files w1 ⊆ files w2) as Hsub2.
    { apply map_subseteq_spec. intros p e Hp.
      destruct (decide (p = name x :: target)) as [->|Hne].
      - apply item_cases in Hx
          as [(_ & _ & ->)|[(Hskip & Hfile & _)|
                            (_ & _ & prefix' & w1' & Hw1' & Hcall)]];
          [done| |].
        + rewrite Hfile in Hskip. apply skip_rule_off in Hskip as [??].
          rewrite Habs in Hp; [done|by left|done..].
        + eapply lookup_weaken; [|eapply IH; [|exact Hcall]];
            by rewrite Hw1'.
      - eapply item_preserves; [|exact Hx|done..].
        intros prefix' w1' r1' w2' Hw1' Hcall.
        eapply IH; [|exact Hcall]. by rewrite Hw1'. }
    split; [by eapply writes_wf|]. split; [by etrans|]. split; [done|].
    intros y Hy Hyf Hyd.
    rewrite (writes_frame _ _ _ _ Hwrites).
    - apply Habs; [by right|done..].
    - apply other_child_untouched. intros Heq. apply Hx_rest.
      rewrite Heq. by apply list_elem_of_fmap_2. }
  destruct (for_each_inv I body Hstep _ _ _ _ Hinit Hrun)
    as [rest (_ & Hsub & _)].
  done.
Qed.

Lemma file_not_in_existing_folders σ target n data :
  σ !! (n :: target) = Some (File data) →
  n ∉ existing_folders scandir_order σ target.
Proof.
  intros Hn (y & Hname & Hy)%list_elem_of_fmap.
  apply list_elem_of_filter in Hy as [Hdir Hy].
  unfold existing in Hy. destruct (is_dir σ target);
    [|by apply not_elem_of_nil in Hy].
  apply elem_of_iterdir in Hy as [[Hne Hpar] _].
  destruct y as [|m y']; [done|]. unfold name in Hname. simplify_eq/=.
  unfold is_dir in Hdir. by rewrite Hn in Hdir.
Qed.

Lemma wf_parent_is_dir σ n p e :
  wf σ → σ !! (n :: p) = Some e → is_dir σ p = true.
Proof.
  intros [_ Hall] Hn. apply Hall in Hn. simpl in Hn.
  unfold is_dir. by rewrite Hn.
Qed.

(** C5, as the code has it: a file [f] of the target that the source
    also has at its top keeps its bytes when [overwrite] is off,
    whether the call returns or raises; with [overwrite] on it has the
    bytes of the source's [f] whenever the call returns.  (It may
    raise before it reaches [f].)  The call completes when source and
    target are apart. *)
Theorem top_level_collision fuel source target prefix f d_src d_tgt w :
  wf (files w) →
  files w !! (f :: source) = Some (File d_src) →
  files w !! (f :: target) = Some (File d_tgt) →
  (∀ r w', sync_dirs fuel source target prefix false w = Some (r, w') →
           files w' !! (f :: target) = Some (File d_tgt))
  ∧ (∀ w', sync_dirs fuel source target prefix true w
           = Some (Return (), w') →
           files w' !! (f :: target) = Some (File d_src))
  ∧ (apart source target → depth_bound (files w) ≤ fuel →
     ∀ overwrite,
       is_Some (sync_dirs fuel source target prefix overwrite w)).
Proof.
  intros Hwf Hsrc Htgt. split; [|split].
  - intros r w' Hrun. eapply lookup_weaken; [done|].
    by eapply sync_dirs_no_clobber.
  - destruct fuel as [|fuel]; [done|]. intros w'.
    rewrite sync_dirs_unfold.
    set (efiles := existing_files scandir_order (files w) target).
    set (efolders := existing_folders scandir_order (files w) target).
    set (body := item _ efiles efolders target prefix true).
    intros Hrun.
    pose (I := λ (rest : list path) (w1 : world),
            wf (files w1) ∧ NoDup (name <$> rest)
            ∧ ((f :: source ∈ rest
                ∧ files w1 !! (f :: source) = Some (File d_src)
                ∧ files w1 !! (f :: target) = Some (File d_tgt))
               ∨ ((f ∉ name <$> rest)
                  ∧ files w1 !! (f :: target) = Some (File d_src)))).
    assert (I (content scandir_order (files w) source) w) as Hinit.
    { split; [done|]. split; [apply NoDup_content_names|]. left.
      split; [|done]. unfold content.
      rewrite (wf_parent_is_dir _ _ _ _ Hwf Hsrc).
      apply elem_of_iterdir. split; [by split|by rewrite Hsrc]. }
    assert (∀ x rest w1 w2,
              I (x :: rest) w1 → body x w1 = Some (Return (), w2) →
              I rest w2) as Hstep.
    { intros x rest w1 w2 (Hwf1 & Hnd & Hcases) Hx.
      pose proof (item_steps _ _ _ _ _ _ _ _ _ _ Hx) as Hwrites.
      apply NoDup_cons in Hnd as [Hx_rest Hnd].
      split; [by eapply writes_wf|]. split; [done|].
      assert (∀ p e, p ≠ name x :: target →
                files w1 !! p = Some e → files w2 !! p = Some e) as Hkeep.
      { eapply item_preserves; [|exact Hx].
        intros prefix' w1' r1' w2' Hw1' Hcall.
        eapply sync_dirs_no_clobber; [|exact Hcall]. by rewrite Hw1'. }
      destruct Hcases as [(Hin & Hs1 & Ht1)|[Hnotin Ht1]].
      - apply elem_of_cons in Hin as [<-|Hin].
        + right. split; [done|].
          change (name (f :: source)) with f in *.
          apply item_cases in Hx
            as [(Hskip & _)|[(_ & _ & r1 & σ1 & Hmk & Hcp)|(_ & Hfile & _)]];
            change (name (f :: source)) with f in *.
          * exfalso. unfold skip_rule, is_file in Hskip. rewrite Hs1 in Hskip.
            simpl in Hskip. apply bool_decide_eq_true in Hskip.
            exact (file_not_in_existing_folders _ _ _ _ Htgt Hskip).
          * rewrite mkdir_parents_existing in Hmk
              by (by eapply wf_parent_is_dir).
            injection Hmk as <- <-.
            destruct Hcp as [(e & ? & _)|[_ Hcp]]; [done|].
            destruct (copyfile_cases (f :: source) (f :: target) (files w1))
              as [[e' He']|(data & Hdata & _ & _ & _ & _ & Hret)].
            { rewrite He' in Hcp. by simplify_eq. }
            rewrite Hret in Hcp. injection Hcp as Hf. rewrite <-Hf.
            rewrite lookup_insert_eq. congruence.
          * unfold is_file in Hfile. by rewrite Hs1 in Hfile.
        + assert (name x ≠ f) as Hne.
          { intros Heq. apply Hx_rest. rewrite Heq.
            by apply (list_elem_of_fmap_2 name) in Hin. }
          left. split; [done|]. split; apply Hkeep; congruence.
      - right. split; [by intros ?; apply Hnotin; right|].
        apply Hkeep; [|done]. intros [= Heq]. apply Hnotin. rewrite Heq.
        by left. }
    destruct (for_each_inv_return I body Hstep _ _ _ Hinit Hrun)
      as (_ & _ & [(Hin & _)|[_ Hdone]]); [|done].
    by apply not_elem_of_nil in Hin.
  - intros Hapart [??]%(depth_bound_fuel _ source) overwrite.
    by apply sync_dirs_terminates.
Qed.

(** *** A merge into an empty target *)

Lemma wf_absent_below σ p q :
  wf σ → σ !! p = None → p `suffix_of` q → σ !! q = None.
Proof.
  intros [_ Hall] Hp [k ->]. induction k as [|n k IH]; [done|].
  destruct (σ !! ((n :: k) ++ p)) as [e|] eqn:Hq; [|done].
  apply Hall in Hq. simpl in Hq. congruence.
Qed.

Lemma wf_ancestors σ p q :
  wf σ → is_Some (σ !! p) → q `suffix_of` p → q ≠ p → σ !! q = Some Dir.
Proof.
  intros [_ Hall] Hp [k ->] Hne. induction k as [|n k IH]; [done|].
  destruct Hp as [e Hp]. apply Hall in Hp. simpl in Hp.
  destruct k as [|m k]; [done|]. apply IH; [by rewrite Hp|].
  intros Heq. apply (f_equal length) in Heq. simpl in Heq.
  rewrite length_app in Heq. lia.
Qed.

Lemma wf_below_file σ p q data :
  wf σ → σ !! p = Some (File data) → below p q → σ !! q = None.
Proof.
  intros Hwf Hp [Hpq Hne]. destruct (σ !! q) as [e|] eqn:Hq; [|done].
  assert (σ !! p = Some Dir) as Hdir; [|congruence].
  apply (wf_ancestors σ q); [done|by rewrite Hq|done..].
Qed.

Lemma siblings_disjoint (target q : path) n m :
  n ≠ m → (n :: target) `suffix_of` q → ¬ (m :: target) `suffix_of` q.
Proof.
  intros Hne Hn Hm.
  destruct (suffix_weak_total _ _ _ Hn Hm) as [H|H];
    apply suffix_cons_inv in H as [?|H]; simplify_eq;
    by apply suffix_cons_not in H.
Qed.

Lemma apart_cons_r source target n : apart source target → apart source (n :: target).
Proof.
  intros [Hst Hts]. split.
  - intros [->|?]%suffix_cons_r_inv; [|done]. apply Hts. by apply suffix_cons_r.
  - intros H. apply Hts. by eapply suffix_cons_l.
Qed.

Lemma apart_ne source target : apart source target → source ≠ target.
Proof. intros [Hst _] ->. by apply Hst. Qed.

Lemma holds_file_ext σ σ' p :
  (∀ q, p `suffix_of` q → σ' !! q = σ !! q) →
  holds_file σ p ↔ holds_file σ' p.
Proof.
  intros Hsame. unfold holds_file, map_Exists.
  split; intros (q & e & Hq & Hp & He); exists q, e;
    (split; [|done]); [rewrite Hsame|rewrite <-Hsame]; done.
Qed.

Lemma holds_file_file σ p data : σ !! p = Some (File data) → holds_file σ p.
Proof. intros Hp. by exists p, (File data). Qed.

Lemma snoc_inv {A} (l : list A) : l ≠ [] → ∃ l' x, l = l' ++ [x].
Proof.
  destruct l as [|y l] using rev_ind; [done|]. intros _. by exists l, y.
Qed.

Lemma holds_file_content σ source :
  wf σ → is_dir σ source = true →
  holds_file σ source ↔ Exists (holds_file σ) (content scandir_order σ source).
Proof.
  intros Hwf Hdir. unfold content. rewrite Hdir. rewrite Exists_exists.
  assert (σ !! source = Some Dir) as Hs.
  { unfold is_dir in Hdir. by destruct (σ !! source) as [[]|]. }
  split.
  - intros (q & e & Hq & [k ->] & He).
    destruct (decide (k = [])) as [->|Hk]; [simpl in Hq; congruence|].
    apply snoc_inv in Hk as (k' & n & ->).
    rewrite <-app_assoc in Hq. simpl in Hq.
    exists (n :: source). split.
    + apply elem_of_iterdir. split; [by split|].
      destruct (σ !! (n :: source)) eqn:Hn; [done|].
      rewrite (wf_absent_below σ (n :: source)) in Hq; [done..|].
      by apply suffix_app_r.
    + exists (k' ++ n :: source), e. split; [done|]. split; [|done].
      by apply suffix_app_r.
  - intros (x & [[Hne Hpar] _]%elem_of_iterdir & (q & e & Hq & Hxq & He)).
    exists q, e. split; [done|]. split; [|done].
    destruct x as [|n x']; [done|]. simpl in Hpar. subst x'.
    by eapply suffix_cons_l.
Qed.

Lemma merged_child σ σ' source n r :
  (∀ q, (n :: source) `suffix_of` q → σ' !! q = σ !! q) →
  merged σ' (n :: source) r = merged σ source (r ++ [n]).
Proof.
  intros Hsame. unfold merged. rewrite <-app_assoc. simpl.
  rewrite Hsame by (by apply suffix_app_r).
  destruct (σ !! (r ++ n :: source)) as [[]|]; [done| |done].
  assert (holds_file σ' (r ++ n :: source) ↔ holds_file σ (r ++ n :: source)).
  { symmetry. apply holds_file_ext. intros q Hq. apply Hsame.
    etrans; [|exact Hq]. by apply suffix_app_r. }
  destruct (decide (holds_file σ' (r ++ n :: source))),
    (decide (holds_file σ (r ++ n :: source))); tauto.
Qed.

Lemma existing_empty σ target :
  (∀ q, below target q → σ !! q = None) →
  existing scandir_order σ target = [].
Proof.
  intros Hempty. unfold existing. destruct (is_dir σ target); [|done].
  apply elem_of_nil_inv. intros q [[Hne Hpar] [e Hq]]%elem_of_iterdir.
  rewrite Hempty in Hq; [done|].
  destruct q as [|n q']; [done|]. simpl in Hpar. subst q'.
  split; [by apply suffix_cons_r|]. intros Heq.
  apply (f_equal length) in Heq. simpl in Heq. lia.
Qed.

Section NoRefusal.

Hypothesis mkdir_allowed : ∀ p, mkdir_denied p = false.
Hypothesis copy_allowed : ∀ src dst, copy_denied src dst = false.

Lemma mkdir_parents_ok p σ :
  wf σ → (∀ q, q `suffix_of` p → is_file σ q = false) →
  ∃ σ', mkdir_parents mkdir_denied p σ = (Return (), σ')
        ∧ (∀ q, q `suffix_of` p → σ' !! q = Some Dir)
        ∧ (∀ q, ¬ q `suffix_of` p → σ' !! q = σ !! q).
Proof.
  intros Hwf. induction p as [|n p IH]; intros Hfiles.
  { exists σ. rewrite mkdir_parents_existing
      by (unfold is_dir; by rewrite (proj1 Hwf)).
    split; [done|]. split; [|done].
    intros q ->%suffix_nil_inv. apply Hwf. }
  destruct (σ !! (n :: p)) as [[data|]|] eqn:Hnp.
  - specialize (Hfiles (n :: p)). unfold is_file in Hfiles.
    rewrite Hnp in Hfiles. by discriminate Hfiles.
  - exists σ. rewrite mkdir_parents_existing by (unfold is_dir; by rewrite Hnp).
    split; [done|]. split; [|done]. intros q Hq.
    destruct (decide (q = n :: p)) as [->|Hne]; [done|].
    by apply (wf_ancestors σ (n :: p)).
  - destruct IH as (σ1 & Hmk & Hdirs & Hrest).
    { intros q Hq. apply Hfiles. by apply suffix_cons_r. }
    assert (σ1 !! (n :: p) = None) as Hnp1.
    { rewrite Hrest; [done|]. apply suffix_cons_not. }
    assert (mkdir_exist_ok mkdir_denied (n :: p) σ1
            = (Return (), <[n :: p := Dir]> σ1)) as Hlast.
    { unfold mkdir_exist_ok, os_mkdir. simpl.
      by rewrite Hnp1, (Hdirs p), mkdir_allowed. }
    exists (<[n :: p := Dir]> σ1). split; [|split].
    + simpl. unfold os_mkdir. rewrite Hnp. simpl.
      destruct (σ !! p) as [[data|]|] eqn:Hp.
      * specialize (Hfiles p). unfold is_file in Hfiles. rewrite Hp in Hfiles.
        by discriminate Hfiles; apply suffix_cons_r.
      * rewrite mkdir_allowed. f_equal. apply map_eq. intros q.
        destruct (decide (q = n :: p)) as [->|Hne];
          [by rewrite !lookup_insert_eq|].
        rewrite !lookup_insert_ne by done.
        destruct (decide (q `suffix_of` p)) as [Hq|Hq].
        -- rewrite Hdirs by done.
           destruct (decide (q = p)) as [->|Hqp]; [done|].
           by apply (wf_ancestors σ p); [|rewrite Hp|..].
        -- by rewrite Hrest.
      * by rewrite Hmk, Hlast.
    + intros q [->|Hq]%suffix_cons_r_inv; [apply lookup_insert_eq|].
      rewrite lookup_insert_ne; [by apply Hdirs|].
      intros <-. by apply suffix_cons_not in Hq.
    + intros q Hq. rewrite lookup_insert_ne by (by intros <-).
      apply Hrest. intros Hqp. apply Hq. by apply suffix_cons_r.
Qed.

Lemma copyfile_ok src dst σ data :
  src ≠ dst → σ !! src = Some (File data) → σ !! dst ≠ Some Dir →
  σ !! parent dst = Some Dir →
  copyfile copy_denied src dst σ = (Return (), <[dst := File data]> σ).
Proof.
  intros Hne Hsrc Hdst Hpar. unfold copyfile.
  rewrite bool_decide_false by done. simpl.
  rewrite Hsrc, Hpar, copy_allowed. by destruct (σ !! dst) as [[]|].
Qed.

Lemma skip_rule_empty overwrite n is_f : skip_rule overwrite n [] [] is_f = false.
Proof.
  unfold skip_rule. rewrite !bool_decide_false by apply not_elem_of_nil.
  by rewrite !andb_false_r.
Qed.

Lemma merging_file σ source target done σ1 n data prefix overwrite recurse w1 :
  apart source target →
  wf σ →
  (∀ q, q `suffix_of` target → is_file σ q = false) →
  merging σ source target done σ1 →
  files w1 = σ1 →
  σ !! (n :: source) = Some (File data) →
  (∀ y, y ∈ done → name y ≠ n) →
  ∃ w2, item recurse [] [] target prefix overwrite (n :: source) w1
        = Some (Return (), w2)
        ∧ merging σ source target (done ++ [n :: source]) (files w2).
Proof.
  intros Hapart Hwf Hnofile (Hwf1 & Hsrc & Hnone & Hdone & Hanc) Hw1 Hx Hfresh.
  pose proof Hapart as [Hst Hts].
  assert (∀ q, (n :: target) `suffix_of` q → σ1 !! q = None) as Hsubtree.
  { intros q Hq. apply Hnone.
    - split; [by eapply suffix_cons_l|]. intros ->.
      by apply suffix_cons_not in Hq.
    - intros y Hy. apply siblings_disjoint with n; [|done].
      intros Heq. by apply (Hfresh y). }
  destruct (mkdir_parents_ok target σ1) as (σ1' & Hmk & Hdirs & Hrest);
    [done| |].
  { intros q Hq. unfold is_file. rewrite Hanc by done.
    case_decide; [done|]. by apply Hnofile. }
  assert (¬ (n :: source) `suffix_of` target) as Hnst.
  { intros H. apply Hst. by eapply suffix_cons_l. }
  assert (¬ (n :: target) `suffix_of` target) as Hntt by apply suffix_cons_not.
  assert (copyfile copy_denied (n :: source) (n :: target) σ1'
          = (Return (), <[n :: target := File data]> σ1')) as Hcp.
  { apply copyfile_ok.
    - intros [= ->]. by apply (apart_ne _ _ Hapart).
    - rewrite Hrest by done. by rewrite Hsrc by (by apply suffix_cons_r).
    - rewrite Hrest, Hsubtree by done. done.
    - by apply Hdirs. }
  assert (is_file (files w1) (n :: source) = true) as Hfile.
  { unfold is_file. rewrite Hw1, Hsrc by (by apply suffix_cons_r).
    by rewrite Hx. }
  eexists. split.
  { rewrite item_file by (by rewrite ?Hfile, ?skip_rule_empty).
    simpl. rewrite Hw1, Hmk. change (name (n :: source)) with n.
    by rewrite Hcp. }
  simpl. split; [|split; [|split; [|split]]].
  - apply wf_insert.
    + eapply writes_wf; [|exact Hwf1].
      pose proof (mkdir_parents_writes target σ1) as Hw. by rewrite Hmk in Hw.
    + by apply Hdirs.
    + rewrite Hrest, Hsubtree by done. done.
  - intros q Hq. rewrite lookup_insert_ne, Hrest; [by apply Hsrc| |].
    + intros Hqt. apply Hst. by etrans.
    + intros <-. apply suffix_cons_r_inv in Hq as [Heq|Hq].
      * apply Hts. rewrite Heq. by apply suffix_cons_r.
      * by apply Hst.
  - intros q Hq Hnot. rewrite lookup_insert_ne, Hrest.
    + apply Hnone; [done|]. intros y Hy. apply Hnot, elem_of_app. by left.
    + intros Hqt. destruct Hq as [Htq Hne]. apply Hne. by apply (anti_symm suffix).
    + intros <-. eapply (Hnot (n :: source)); [|done].
      apply elem_of_app. right. by left.
  - intros y r [Hy| ->%list_elem_of_singleton]%elem_of_app.
    + rewrite lookup_insert_ne, Hrest; [by apply Hdone| |].
      * intros Hs%suffix_length. rewrite length_app in Hs. simpl in Hs. lia.
      * intros Heq. destruct r as [|a r]; simpl in Heq.
        -- injection Heq as Hn. by apply (Hfresh y).
        -- injection Heq as _ Ht. apply (f_equal length) in Ht.
           rewrite length_app in Ht. simpl in Ht. lia.
    + change (name (n :: source)) with n.
      unfold merged. rewrite <-app_assoc. simpl.
      destruct r as [|a r]; simpl.
      * by rewrite lookup_insert_eq, Hx.
      * rewrite lookup_insert_ne, Hrest, Hsubtree.
        -- rewrite (wf_below_file σ (n :: source) _ data); [done..|].
           split; [by apply (suffix_app_r _ _ (a :: r))|].
           intros Heq. apply (f_equal length) in Heq. simpl in Heq.
           rewrite length_app in Heq. simpl in Heq. lia.
        -- by apply (suffix_app_r _ _ (a :: r)).
        -- intros Hs%suffix_length. simpl in Hs. rewrite length_app in Hs.
           simpl in Hs. lia.
        -- intros Heq. apply (f_equal length) in Heq. simpl in Heq.
           rewrite length_app in Heq. simpl in Heq. lia.
  - intros q Hq. rewrite lookup_insert_ne, Hdirs by (done || by intros <-).
    rewrite decide_True; [done|]. apply Exists_app. right.
    apply Exists_cons. left. by eapply holds_file_file.
Qed.

Lemma merging_subtree_empty σ source target done σ1 n :
  merging σ source target done σ1 →
  (∀ y, y ∈ done → name y ≠ n) →
  ∀ q, (n :: target) `suffix_of` q → σ1 !! q = None.
Proof.
  intros (_ & _ & Hnone & _) Hfresh q Hq. apply Hnone.
  - split; [by eapply suffix_cons_l|]. intros ->.
    by apply suffix_cons_not in Hq.
  - intros y Hy. apply siblings_disjoint with n; [|done].
    intros Heq. by apply (Hfresh y).
Qed.

Lemma merging_dir σ source target done σ1 n prefix overwrite recurse w1 :
  apart source target →
  merging σ source target done σ1 →
  files w1 = σ1 →
  σ !! (n :: source) = Some Dir →
  (∀ y, y ∈ done → name y ≠ n) →
  (∀ prefix' w1', files w1' = σ1 →
     ∃ w2, recurse (n :: source) (n :: target) prefix' w1'
           = Some (Return (), w2)
           ∧ wf (files w2)
           ∧ (∀ r, r ≠ [] →
                files w2 !! (r ++ n :: target) = merged σ1 (n :: source) r)
           ∧ (∀ q, q `suffix_of` n :: target →
                files w2 !! q = if decide (holds_file σ1 (n :: source))
                                then Some Dir else σ1 !! q)
           ∧ (∀ q, ¬ touched (n :: target) q → files w2 !! q = σ1 !! q)) →
  ∃ w2, item recurse [] [] target prefix overwrite (n :: source) w1
        = Some (Return (), w2)
        ∧ merging σ source target (done ++ [n :: source]) (files w2).
Proof.
  intros Hapart Hm Hw1 Hx Hfresh Hrec.
  pose proof (merging_subtree_empty _ _ _ _ _ _ Hm Hfresh) as Hsubtree.
  destruct Hm as (Hwf1 & Hsrc & Hnone & Hdone & Hanc).
  pose proof Hapart as [Hst Hts].
  assert (is_file (files w1) (n :: source) = false) as Hfile.
  { unfold is_file. rewrite Hw1, Hsrc by (by apply suffix_cons_r).
    by rewrite Hx. }
  assert (∀ q, (n :: source) `suffix_of` q → σ1 !! q = σ !! q) as Hsrc_n.
  { intros q Hq. apply Hsrc. by eapply suffix_cons_l. }
  assert (holds_file σ1 (n :: source) ↔ holds_file σ (n :: source)) as Hhf.
  { symmetry. by apply holds_file_ext. }
  destruct (Hrec (prefix ++ lit "  ")
              (World (files w1)
                 (terminal w1
                  ++ [Creating prefix (name (n :: source) :: target); Blank]))
              Hw1)
    as (w2 & Hcall & Hwf2 & Hbelow & Habove & Hframe).
  exists w2. split.
  { rewrite item_directory by (by rewrite ?Hfile, ?skip_rule_empty).
    exact Hcall. }
  split; [done|]. split; [|split; [|split]].
  - intros q Hq. rewrite Hframe; [by apply Hsrc|].
    apply apart_frame with source; [by apply apart_cons_r|done].
  - intros q Hq Hnot. rewrite Hframe.
    + apply Hnone; [done|]. intros y Hy. apply Hnot, elem_of_app. by left.
    + assert (¬ (n :: target) `suffix_of` q) as Hnq.
      { apply (Hnot (n :: source)). apply elem_of_app. right. by left. }
      intros [[->|Hqt]%suffix_cons_r_inv|?]; [done| |done].
      destruct Hq as [Htq Hne]. apply Hne. by apply (anti_symm suffix).
  - intros y r [Hy| ->%list_elem_of_singleton]%elem_of_app.
    + rewrite Hframe; [by apply Hdone|].
      intros [[Heq|Hs]%suffix_cons_r_inv|Hs].
      * destruct r as [|a r]; simpl in Heq.
        -- injection Heq as Hn. by apply (Hfresh y).
        -- injection Heq as _ Ht. apply (f_equal length) in Ht.
           rewrite length_app in Ht. simpl in Ht. lia.
      * apply suffix_length in Hs. rewrite length_app in Hs. simpl in Hs. lia.
      * eapply (siblings_disjoint target _ n (name y)); [|exact Hs|].
        -- intros Heq. by apply (Hfresh y).
        -- by apply suffix_app_r.
    + change (name (n :: source)) with n.
      destruct r as [|a r].
      * simpl. rewrite Habove by done. rewrite Hsubtree by done.
        unfold merged. simpl. rewrite Hx.
        destruct (decide (holds_file σ1 (n :: source))),
          (decide (holds_file σ (n :: source))); tauto.
      * rewrite Hbelow by done. by apply merged_child.
  - intros q Hq. rewrite Habove by (by apply suffix_cons_r).
    rewrite Hanc by done.
    destruct (decide (holds_file σ1 (n :: source))) as [Hh|Hh].
    + rewrite decide_True; [done|]. apply Exists_app. right.
      apply Exists_cons. left. by apply Hhf.
    + destruct (decide (Exists (holds_file σ) done)) as [He|He].
      * rewrite decide_True; [done|]. apply Exists_app. by left.
      * rewrite decide_False; [done|].
        intros [?|[?|?%Exists_nil]%Exists_cons]%Exists_app; [done| |done].
        by apply Hh, Hhf.
Qed.

Lemma sync_into_empty fuel source target prefix overwrite w :
  wf (files w) →
  is_dir (files w) source = true →
  apart source target →
  (∀ q, below target q → files w !! q = None) →
  (∀ q, q `suffix_of` target → is_file (files w) q = false) →
  (∀ r, is_Some (files w !! (r ++ source)) → length r < fuel) →
  ∃ w', sync_dirs fuel source target prefix overwrite w
        = Some (Return (), w')
        ∧ wf (files w')
        ∧ (∀ r, r ≠ [] →
             files w' !! (r ++ target) = merged (files w) source r)
        ∧ (∀ q, q `suffix_of` target →
             files w' !! q = if decide (holds_file (files w) source)
                             then Some Dir else files w !! q)
        ∧ (∀ q, ¬ touched target q → files w' !! q = files w !! q).
Proof.
  revert source target prefix overwrite w.
  induction fuel as [|fuel IH];
    intros source target prefix overwrite w Hwf Hdir Hapart Hempty Hnofile
      Hdepth.
  { exfalso. specialize (Hdepth []). simpl in Hdepth. unfold is_dir in Hdir.
    destruct (files w !! source); [|done].
    assert (0 < 0) by (by apply Hdepth). lia. }
  assert (∀ x, x ∈ content scandir_order (files w) source →
               ∃ n, x = n :: source ∧ is_Some (files w !! x)) as Hitems.
  { intros x. unfold content. rewrite Hdir.
    intros [[Hne Hpar] Hx]%elem_of_iterdir.
    destruct x as [|n x']; [done|]. simpl in Hpar. subst x'. by exists n. }
  pose proof (NoDup_content_names (files w) source) as Hnd.
  pose (I := λ (rest : list path) (w1 : world),
          ∃ done, content scandir_order (files w) source = done ++ rest
                  ∧ merging (files w) source target done (files w1)).
  assert (I (content scandir_order (files w) source) w) as Hinit.
  { exists []. split; [done|]. split; [done|]. split; [done|].
    split; [by intros q Hq _; apply Hempty|].
    split; [by intros x r ?%not_elem_of_nil|].
    intros q _. rewrite decide_False; [done|]. by intros ?%Exists_nil. }
  assert (∀ x rest w1, I (x :: rest) w1 →
            ∃ w2, item (λ s t p, sync_dirs fuel s t p false) [] [] target
                    prefix overwrite x w1 = Some (Return (), w2)
                  ∧ I rest w2) as Hstep.
  { intros x rest w1 (done & Hsplit & Hm).
    destruct (Hitems x) as (n & -> & Hx).
    { rewrite Hsplit. apply elem_of_app. right. by left. }
    assert (∀ y, y ∈ done → name y ≠ n) as Hfresh.
    { intros y Hy Heq. rewrite Hsplit, fmap_app in Hnd.
      apply NoDup_app in Hnd as (_ & Hnd & _).
      apply (Hnd (name y)); [by apply list_elem_of_fmap_2|].
      rewrite Heq. simpl. by left. }
    assert (∃ w2, item (λ s t p, sync_dirs fuel s t p false) [] [] target
                    prefix overwrite (n :: source) w1 = Some (Return (), w2)
                  ∧ merging (files w) source target (done ++ [n :: source])
                      (files w2)) as (w2 & Hrun & Hm2).
    { destruct Hx as [[data|] Hx].
      - by eapply merging_file.
      - eapply merging_dir; [done..|].
        intros prefix' w1' Hw1'.
        pose proof (merging_subtree_empty _ _ _ _ _ _ Hm Hfresh) as Hsubtree.
        destruct Hm as (Hwf1 & Hsrc & Hnone & Hdone & Hanc).
        rewrite <-Hw1' in *.
        destruct (IH (n :: source) (n :: target) prefix' false w1')
          as (w2 & Hcall & Hwf2 & Hbelow & Habove & Hframe).
        + done.
        + unfold is_dir. rewrite Hsrc by (by apply suffix_cons_r).
          by rewrite Hx.
        + by apply apart_cons.
        + intros q [Hq _]. by apply Hsubtree.
        + intros q [->|Hq]%suffix_cons_r_inv; unfold is_file.
          * by rewrite Hsubtree.
          * rewrite Hanc by done. case_decide; [done|]. by apply Hnofile.
        + intros r Hr. rewrite Hsrc in Hr
            by (apply suffix_app_r; by apply suffix_cons_r).
          replace (r ++ n :: source) with ((r ++ [n]) ++ source) in Hr
            by (by rewrite <-app_assoc).
          apply Hdepth in Hr. rewrite length_app in Hr. simpl in Hr. lia.
        + by exists w2. }
    exists w2. split; [done|]. exists (done ++ [n :: source]).
    split; [|done]. by rewrite <-app_assoc. }
  rewrite sync_dirs_unfold. unfold existing_files, existing_folders.
  rewrite (existing_empty _ _ Hempty). simpl.
  destruct (for_each_success I _ Hstep _ _ Hinit)
    as (w' & Hrun & (done & Hsplit & Hwf' & Hsrc & Hnone & Hdone & Hanc)).
  rewrite app_nil_r in Hsplit. subst done.
  exists w'. split; [done|]. split; [done|]. split; [|split].
  - intros r Hr. apply snoc_inv in Hr as (r' & n & ->).
    rewrite <-app_assoc. simpl.
    destruct (decide (n :: source ∈ content scandir_order (files w) source))
      as [Hin|Hnotin].
    + by apply (Hdone (n :: source)).
    + assert (files w !! (n :: source) = None) as Habsent.
      { destruct (files w !! (n :: source)) eqn:Hn; [|done]. exfalso.
        apply Hnotin. unfold content. rewrite Hdir. apply elem_of_iterdir.
        split; [by split|by rewrite Hn]. }
      unfold merged. rewrite <-app_assoc. simpl.
      rewrite (wf_absent_below (files w) (n :: source) (r' ++ n :: source))
        by (done || by apply suffix_app_r).
      apply Hnone.
      * split; [apply suffix_app_r; by apply suffix_cons_r|].
        intros Heq. apply (f_equal length) in Heq.
        rewrite length_app in Heq. simpl in Heq. lia.
      * intros y Hy. destruct (Hitems y Hy) as (m & -> & _).
        apply siblings_disjoint with n; [|by apply suffix_app_r].
        intros ->. done.
  - intros q Hq. rewrite Hanc by done.
    pose proof (holds_file_content (files w) source Hwf Hdir) as Hiff.
    destruct (decide (Exists (holds_file (files w))
                        (content scandir_order (files w) source))),
      (decide (holds_file (files w) source)); tauto.
  - intros q Hq. eapply writes_frame; [|exact Hq].
    eapply (sync_dirs_writes (S fuel) source target prefix overwrite).
    rewrite sync_dirs_unfold. unfold existing_files, existing_folders.
    rewrite (existing_empty _ _ Hempty). exact Hrun.
Qed.

(** C3, as the code has it: merged into a target that is absent or
    empty, and apart from the source, a source directory gives the
    target every file of the source, with its bytes, at the same
    relative path, and no other file; of the directories of the source
    the target gets those that hold a file at some depth, and the
    others are not made (the target itself is made only for a file).
    Nothing else changes but the missing directories above the
    target. *)
Theorem merge_into_empty_target fuel source target prefix overwrite w :
  wf (files w) →
  is_dir (files w) source = true →
  apart source target →
  (∀ q, below target q → files w !! q = None) →
  (∀ q, q `suffix_of` target → is_file (files w) q = false) →
  depth_bound (files w) ≤ fuel →
  ∃ w', sync_dirs fuel source target prefix overwrite w
        = Some (Return (), w')
        ∧ (∀ r, r ≠ [] →
             files w' !! (r ++ target) = merged (files w) source r)
        ∧ (∀ q, q `suffix_of` target →
             files w' !! q = if decide (holds_file (files w) source)
                             then Some Dir else files w !! q)
        ∧ (∀ q, ¬ touched target q → files w' !! q = files w !! q).
Proof.
  intros Hwf Hdir Hapart Hempty Hnofile [_ Hdepth]%(depth_bound_fuel _ source).
  destruct (sync_into_empty fuel source target prefix overwrite w)
    as (w' & Hrun & _ & Hrest); [done..|].
  by exists w'.
Qed.

End NoRefusal.

(** *** The callers *)

Lemma rmtree_gone p σ :
  wf σ → is_file σ p = false → gone p (rmtree p σ).2.
Proof.
  intros Hwf Hfile q Hq. unfold rmtree, is_file in *.
  destruct (σ !! p) as [[]|] eqn:Hp; [done| |]; simpl.
  - apply map_lookup_filter_None. right. intros e _ Hn. by apply Hn.
  - by eapply wf_absent_below.
Qed.

Lemma try_finally_rmtree {A} (body : M A) p w r w' :
  try_finally body (syscall (rmtree p)) w = Some (r, w') →
  ∃ r1 w1, body w = Some (r1, w1) ∧ files w' = (rmtree p (files w1)).2.
Proof.
  unfold try_finally, syscall.
  destruct (body w) as [[r1 w1]|]; [|done].
  destruct (rmtree p (files w1)) as [[[]|e] σ2] eqn:Hrm; intros [= <- <-];
    exists r1, w1; by rewrite Hrm.
Qed.

Lemma try_finally_is_Some {A} (body : M A) p w :
  is_Some (body w) → is_Some (try_finally body (syscall (rmtree p)) w).
Proof.
  intros [[r1 w1] Hb]. unfold try_finally, syscall. rewrite Hb.
  by destruct (rmtree p (files w1)) as [[[]|e] σ2].
Qed.

Lemma sync_dirs_keeps_scratch fuel source target prefix overwrite w r w' :
  wf (files w) → is_file (files w) source = false →
  sync_dirs fuel source target prefix overwrite w = Some (r, w') →
  wf (files w') ∧ is_file (files w') source = false.
Proof.
  intros Hwf Hfile Hrun.
  pose proof (sync_dirs_writes _ _ _ _ _ _ _ _ Hrun) as Hw.
  split; [by eapply writes_wf|].
  destruct (is_dir (files w) source) eqn:Hdir.
  - apply is_dir_not_file. unfold is_dir in *.
    destruct (files w !! source) as [[]|] eqn:Hs; try done.
    by rewrite (writes_dir _ _ _ _ Hw Hs).
  - destruct fuel as [|fuel]; [done|].
    rewrite sync_dirs_unfold in Hrun. unfold content in Hrun.
    rewrite Hdir, Hfile in Hrun. simpl in Hrun.
    injection Hrun as _ <-. done.
Qed.

(** C8: after either caller the scratch directory is gone, whatever the
    merge did: returned or raised, or, for the configuration, been
    left out.  The call completes when the scratch directory and the
    target are apart. *)
Theorem scratch_removed fuel result_path tests_target conf_path skip_config
    env w :
  let tests_source := lit "tests" :: result_path in
  let config_source := lit "config" :: result_path in
  let copy_tests :=
    _copy_pipeline_tests scandir_order mkdir_denied copy_denied
      fuel result_path tests_target in
  let copy_configs :=
    _copy_pipeline_configs scandir_order mkdir_denied copy_denied
      fuel result_path conf_path skip_config env in
  wf (files w) →
  (is_file (files w) tests_source = false →
   (∀ r w', copy_tests w = Some (r, w') → gone tests_source (files w'))
   ∧ (apart tests_source tests_target → depth_bound (files w) ≤ fuel →
      is_Some (copy_tests w)))
  ∧ (is_file (files w) config_source = false →
     (∀ r w', copy_configs w = Some (r, w') → gone config_source (files w'))
     ∧ (skip_config = true ∨ apart config_source (env :: conf_path) →
        depth_bound (files w) ≤ fuel →
        is_Some (copy_configs w))).
Proof.
  intros tests_source config_source copy_tests copy_configs Hwf.
  split; intros Hfile; split.
  - intros r w' Hrun.
    apply try_finally_rmtree in Hrun as (r1 & w1 & Hbody & ->).
    apply sync_dirs_keeps_scratch in Hbody as [??]; [|done..].
    by apply rmtree_gone.
  - intros Hapart [??]%(depth_bound_fuel _ tests_source).
    by apply try_finally_is_Some, sync_dirs_terminates.
  - intros r w' Hrun.
    apply try_finally_rmtree in Hrun as (r1 & w1 & Hbody & ->).
    destruct skip_config; simpl in Hbody.
    + injection Hbody as _ <-. by apply rmtree_gone.
    + apply sync_dirs_keeps_scratch in Hbody as [??]; [|done..].
      by apply rmtree_gone.
  - intros Hapart [??]%(depth_bound_fuel _ config_source).
    apply try_finally_is_Some. destruct skip_config; simpl; [done|].
    destruct Hapart as [|Hapart]; [done|].
    by apply sync_dirs_terminates.
Qed.

Lemma content_exists σ source x :
  x ∈ content scandir_order σ source → is_Some (σ !! x).
Proof.
  unfold content. destruct (is_dir σ source).
  - by intros [_ ?]%elem_of_iterdir.
  - unfold is_file. destruct (σ !! source) as [[]|] eqn:Hs;
      [|by intros ?%not_elem_of_nil..].
    intros ->%list_elem_of_singleton. by rewrite Hs.
Qed.

(** What the body of the loop does to an entry it finds: it leaves it,
    or it is the file at the target path of the item, which the copy
    has replaced. *)
Lemma item_effect recurse efiles efolders target prefix overwrite sp w r w' :
  (∀ prefix' w1 r1 w2,
     files w1 = files w →
     recurse sp (name sp :: target) prefix' w1 = Some (r1, w2) →
     files w1 ⊆ files w2) →
  item recurse efiles efolders target prefix overwrite sp w = Some (r, w') →
  ∀ p e, files w !! p = Some e →
    files w' !! p = Some e
    ∨ (p = name sp :: target ∧ is_file (files w) sp = true
       ∧ skip_rule overwrite (name sp) efiles efolders true = false
       ∧ ∃ data data', e = File data ∧ files w' !! p = Some (File data')).
Proof.
  intros Hrec Hrun p e Hp.
  destruct (decide (p = name sp :: target)) as [->|Hne];
    [|left; by eapply item_preserves].
  apply item_cases in Hrun
    as [(_ & _ & ->)|[(Hskip & Hfile & r1 & σ1 & Hmk & Hcp)|
                      (_ & _ & prefix' & w1 & Hw1 & Hcall)]].
  - by left.
  - assert (σ1 !! (name sp :: target) = Some e) as Hp1.
    { pose proof (mkdir_parents_subseteq target (files w)) as Hsub.
      rewrite Hmk in Hsub. by eapply lookup_weaken. }
    destruct Hcp as [(e' & _ & _ & ->)|[_ Hcp]]; [by left|].
    destruct (copyfile_cases sp (name sp :: target) σ1)
      as [[e' He']|(data & _ & Hnd & _ & _ & _ & Hret)].
    + rewrite He' in Hcp. injection Hcp as _ Hf. left. by rewrite <-Hf.
    + rewrite Hret in Hcp. injection Hcp as _ Hf. right.
      split; [done|]. split; [done|].
      split; [by rewrite Hfile in Hskip|].
      destruct e as [d|]; [|done]. exists d, data. split; [done|].
      by rewrite <-Hf, lookup_insert_eq.
  - left. eapply lookup_weaken; [|by eapply Hrec]. by rewrite Hw1.
Qed.

(** X4: what a call of [_sync_dirs] never does, whatever its arguments
    and whether it returns or raises: it removes no entry, it replaces
    no directory, it changes nothing but the target, the directories
    above it and what lies below it, it leaves the source as it is when
    source and target are apart, and it leaves every entry in a
    directory. *)
Theorem sync_dirs_only_adds fuel source target prefix overwrite w r w' :
  sync_dirs fuel source target prefix overwrite w = Some (r, w') →
  (∀ p, is_Some (files w !! p) → is_Some (files w' !! p))
  ∧ (∀ p, files w !! p = Some Dir → files w' !! p = Some Dir)
  ∧ (∀ p, ¬ touched target p → files w' !! p = files w !! p)
  ∧ (apart source target →
     ∀ p, source `suffix_of` p → files w' !! p = files w !! p)
  ∧ (wf (files w) → wf (files w')).
Proof.
  intros Hrun.
  pose proof (sync_dirs_writes _ _ _ _ _ _ _ _ Hrun) as Hw.
  split; [intros p; by eapply writes_present|].
  split; [intros p; by eapply writes_dir|].
  split; [intros p; by eapply writes_frame|].
  split; [|by eapply writes_wf].
  intros Hapart p Hp. eapply writes_frame; [done|]. by eapply apart_frame.
Qed.

(** X5: the only entries a call of [_sync_dirs] replaces are files
    directly in the target that have the name of a file among the items
    of the source, and only when [overwrite] is set; what replaces one
    is a file.  Every other entry, at whatever depth, is found again as
    it was, whether the call returns or raises. *)
Theorem sync_dirs_replaces_only_top_level fuel source target prefix overwrite
    w r w' :
  wf (files w) →
  sync_dirs fuel source target prefix overwrite w = Some (r, w') →
  ∀ p e, files w !! p = Some e →
    files w' !! p = Some e
    ∨ (overwrite = true
       ∧ ∃ x data data',
           x ∈ content scandir_order (files w) source
           ∧ is_file (files w) x = true
           ∧ p = name x :: target ∧ e = File data
           ∧ files w' !! p = Some (File data')).
Proof.
  intros Hwf Hrun p e Hp.
  destruct overwrite;
    [|left; eapply lookup_weaken; [done|by eapply sync_dirs_no_clobber]].
  destruct fuel as [|fuel]; [done|].
  rewrite sync_dirs_unfold in Hrun.
  set (items := content scandir_order (files w) source) in *.
  set (body := item _ _ _ target prefix true) in Hrun.
  pose (I := λ (rest : list path) (w1 : world),
          (∀ y, y ∈ rest → y ∈ items)
          ∧ writes (touched target) (files w) (files w1)
          ∧ (files w1 !! p = Some e
             ∨ ∃ x data data',
                 x ∈ items ∧ is_file (files w) x = true
                 ∧ p = name x :: target ∧ e = File data
                 ∧ files w1 !! p = Some (File data'))).
  assert (I items w) as Hinit.
  { split; [done|]. split; [reflexivity|by left]. }
  assert (∀ x rest w1 r1 w2,
            I (x :: rest) w1 → body x w1 = Some (r1, w2) → I rest w2) as Hstep.
  { intros x rest w1 r1 w2 (Hin & Hw1 & Hpe) Hx.
    pose proof (item_steps _ _ _ _ _ _ _ _ _ _ Hx) as Hwrites.
    assert (wf (files w1)) as Hwf1 by (by eapply writes_wf).
    assert (∀ prefix' w1' r1' w2',
              files w1' = files w1 →
              sync_dirs fuel x (name x :: target) prefix' false w1'
              = Some (r1', w2') → files w1' ⊆ files w2') as Hrec.
    { intros prefix' w1' r1' w2' Hw1' Hcall.
      eapply sync_dirs_no_clobber; [|exact Hcall]. by rewrite Hw1'. }
    split; [intros y Hy; apply Hin; by right|].
    split.
    { etrans; [exact Hw1|].
      eapply writes_mono; [|exact Hwrites]. apply touched_item_call. }
    destruct Hpe as [Hpe|(x0 & data & data' & Hx0 & Hf0 & -> & -> & Hpe)].
    - destruct (item_effect _ _ _ _ _ _ _ _ _ _ Hrec Hx _ _ Hpe)
        as [?|(-> & Hfile & _ & data & data' & -> & Hnew)]; [by left|].
      right. exists x, data, data'.
      split; [apply Hin; by left|]. split; [|done].
      destruct (content_exists (files w) source x) as [ex Hex];
        [apply Hin; by left|].
      unfold is_file in *. rewrite Hex. destruct ex as [d|]; [done|].
      by rewrite (writes_dir _ _ _ _ Hw1 Hex) in Hfile.
    - right.
      destruct (item_effect _ _ _ _ _ _ _ _ _ _ Hrec Hx _ _ Hpe)
        as [?|(_ & _ & _ & d & d' & _ & Hnew)].
      + by exists x0, data, data'.
      + by exists x0, data, d'. }
  destruct (for_each_inv I body Hstep _ _ _ _ Hinit Hrun)
    as [rest (_ & _ & [?|Hchanged])]; [by left|].
  right. split; [done|]. exact Hchanged.
Qed.

(** *** The fuel of the model *)

Lemma for_each_mono {A} (l : list A) (body body' : A → M unit) w res :
  (∀ x w1 res1, body x w1 = Some res1 → body' x w1 = Some res1) →
  for_each l body w = Some res → for_each l body' w = Some res.
Proof.
  intros Hbody. revert w. induction l as [|x l IH]; intros w; simpl; [done|].
  rewrite !bind_unfold.
  destruct (body x w) as [[[[]|e] w1]|] eqn:Hx; [| |done];
    rewrite (Hbody _ _ _ Hx); auto.
Qed.

Lemma item_recurse_mono recurse recurse' efiles efolders target prefix
    overwrite sp w res :
  (∀ s t p w1 res1,
     recurse s t p w1 = Some res1 → recurse' s t p w1 = Some res1) →
  item recurse efiles efolders target prefix overwrite sp w = Some res →
  item recurse' efiles efolders target prefix overwrite sp w = Some res.
Proof.
  intros Hrec.
  destruct (skip_rule overwrite (name sp) efiles efolders
              (is_file (files w) sp)) eqn:Hskip.
  { by rewrite !item_skipped. }
  destruct (is_file (files w) sp) eqn:Hfile.
  - by rewrite !item_file by (by rewrite ?Hfile).
  - rewrite !item_directory by (by rewrite ?Hfile). apply Hrec.
Qed.

Lemma sync_dirs_fuel_mono fuel fuel' source target prefix overwrite w res :
  fuel ≤ fuel' →
  sync_dirs fuel source target prefix overwrite w = Some res →
  sync_dirs fuel' source target prefix overwrite w = Some res.
Proof.
  revert fuel' source target prefix overwrite w res.
  induction fuel as [|fuel IH];
    intros fuel' source target prefix overwrite w res Hle; [done|].
  destruct fuel' as [|fuel']; [lia|].
  rewrite !sync_dirs_unfold. apply for_each_mono.
  intros x w1 res1. apply item_recurse_mono.
  intros s t p' w2 res2. apply IH. lia.
Qed.

(** X6: a call of [_sync_dirs] whose source and target are apart
    comes to an end: the model of the call has a result as soon as its
    fuel exceeds the depth of the filesystem, and the result is the
    same for any larger fuel. *)
Theorem sync_dirs_ends fuel fuel' source target prefix overwrite w :
  apart source target →
  depth_bound (files w) ≤ fuel → fuel ≤ fuel' →
  ∃ r w',
    sync_dirs fuel source target prefix overwrite w = Some (r, w')
    ∧ sync_dirs fuel' source target prefix overwrite w = Some (r, w').
Proof.
  intros Hapart [Hpos Hdepth]%(depth_bound_fuel _ source) Hle.
  destruct (sync_dirs_terminates fuel source target prefix overwrite w)
    as [[r w'] Hrun]; [done..|].
  exists r, w'. split; [done|]. by eapply sync_dirs_fuel_mono.
Qed.

(** *** A second run *)

Lemma writes_file F σ σ' p data :
  writes F σ σ' → σ !! p = Some (File data) →
  ∃ data', σ' !! p = Some (File data').
Proof.
  intros Hw. revert data.
  induction Hw as [|σ σ1 σ2 Hstep _ IH]; intros data Hp; [by exists data|].
  destruct Hstep as [q ? Hq ?|q d ? Hq ?];
    (destruct (decide (q = p)) as [->|]; [|by eapply IH; rewrite lookup_insert_ne]).
  - congruence.
  - eapply IH. by rewrite lookup_insert_eq.
Qed.

Lemma elem_of_existing σ target f :
  f ∈ existing scandir_order σ target →
  ∃ n, f = n :: target ∧ name f = n ∧ is_Some (σ !! f).
Proof.
  unfold existing. destruct (is_dir σ target); [|by intros ?%not_elem_of_nil].
  intros [[Hne Hpar] Hsome]%elem_of_iterdir.
  destruct f as [|n f']; [done|]. simpl in Hpar. subst f'. by exists n.
Qed.

Lemma existing_files_elem σ target n :
  n ∈ existing_files scandir_order σ target →
  ∃ data, σ !! (n :: target) = Some (File data).
Proof.
  unfold existing_files.
  intros (f & -> & [Hfile Hf]%list_elem_of_filter)%list_elem_of_fmap.
  apply elem_of_existing in Hf as (n & -> & _ & _).
  unfold is_file in Hfile. unfold name. simpl.
  destruct (σ !! (n :: target)) as [[data|]|]; [by exists data|done..].
Qed.

Lemma existing_folders_elem σ target n :
  n ∈ existing_folders scandir_order σ target →
  σ !! (n :: target) = Some Dir.
Proof.
  unfold existing_folders.
  intros (f & -> & [Hdir Hf]%list_elem_of_filter)%list_elem_of_fmap.
  apply elem_of_existing in Hf as (n & -> & _ & _).
  unfold is_dir in Hdir. unfold name. simpl.
  by destruct (σ !! (n :: target)) as [[data|]|].
Qed.

Lemma existing_listed σ target n :
  wf σ → is_Some (σ !! (n :: target)) →
  n ∈ existing_files scandir_order σ target
  ∨ n ∈ existing_folders scandir_order σ target.
Proof.
  intros Hwf [e He].
  destruct (decide (n ∈ existing_files scandir_order σ target)); [by left|].
  destruct (decide (n ∈ existing_folders scandir_order σ target));
    [by right|].
  rewrite existing_absent in He; done.
Qed.

Lemma existing_files_listed σ target n data :
  wf σ → σ !! (n :: target) = Some (File data) →
  n ∈ existing_files scandir_order σ target.
Proof.
  intros Hwf He.
  destruct (existing_listed σ target n) as [?|Hd]; [done..|done|].
  apply existing_folders_elem in Hd. congruence.
Qed.

Lemma settled_stable σ σ' x t :
  settled σ x t →
  (∀ q, x `suffix_of` q → σ' !! q = σ !! q) →
  (∀ p, is_Some (σ !! p) → is_Some (σ' !! p)) →
  (∀ p data, σ !! p = Some (File data) →
     ∃ data', σ' !! p = Some (File data')) →
  settled σ' x t.
Proof.
  intros Hs Hframe Hpresent Hfile.
  induction Hs as [x t data Ht|x t Hx Ht|x t Hx Hsub IH].
  - destruct (Hfile _ _ Ht) as [data' ?]. by eapply settled_skip.
  - apply settled_file; [|by apply Hpresent].
    unfold is_file. by rewrite Hframe.
  - apply settled_dir; [unfold is_dir; by rewrite Hframe|].
    intros y [Hne Hpar] Hy.
    assert (x `suffix_of` y) as Hxy.
    { destruct y as [|n y']; [done|]. simpl in Hpar. subst y'.
      by apply suffix_cons_r. }
    apply IH; [done|by rewrite <-Hframe| ].
    intros q Hq. apply Hframe. by etrans.
Qed.

(** A run on a filesystem in which every item of the source is merged
    copies nothing. *)
Lemma sync_dirs_settled fuel source target prefix σ t0 :
  wf σ → 0 < fuel →
  (∀ r, is_Some (σ !! (r ++ source)) → length r < fuel) →
  (∀ x, x ∈ content scandir_order σ source →
        settled σ x (name x :: target)) →
  ∃ t1, sync_dirs fuel source target prefix false (World σ t0)
        = Some (Return (), World σ t1).
Proof.
  intros Hwf. revert source target prefix t0.
  induction fuel as [|fuel IH]; intros source target prefix t0 Hfuel Hdepth
    Hsettled; [lia|].
  rewrite sync_dirs_unfold. simpl files.
  set (efiles := existing_files scandir_order σ target).
  set (efolders := existing_folders scandir_order σ target).
  set (body := item _ efiles efolders target prefix false).
  pose (I := λ (rest : list path) (w1 : world),
          files w1 = σ
          ∧ ∀ x, x ∈ rest → x ∈ content scandir_order σ source).
  destruct (for_each_success I body) with
    (l := content scandir_order σ source) (w := World σ t0)
    as ([σ1 t1] & Hrun & Hσ1 & _); [|done|simpl in Hσ1; subst σ1; by exists t1].
  intros x rest [σ1 t1] [Hσ1 Hin]. simpl in Hσ1. subst σ1.
  assert (x ∈ content scandir_order σ source) as Hx by (apply Hin; by left).
  assert (∀ y, y ∈ rest → y ∈ content scandir_order σ source) as Hrest
    by (intros y Hy; apply Hin; by right).
  unfold body.
  destruct (skip_rule false (name x) efiles efolders (is_file σ x)) eqn:Hskip.
  { rewrite item_skipped by done. eexists. split; [done|]. by split. }
  pose proof (Hsettled x Hx) as Hs.
  unfold skip_rule in Hskip. simpl in Hskip.
  apply orb_false_elim in Hskip as [Hnf Hnd].
  apply bool_decide_eq_false in Hnf.
  inversion Hs as [x' t data Ht|x' t Hfile Ht|x' t Hdir Hsub]; subst x' t.
  - exfalso. apply Hnf. by eapply existing_files_listed.
  - exfalso. rewrite Hfile in Hnd. simpl in Hnd.
    apply bool_decide_eq_false in Hnd.
    destruct (existing_listed σ target (name x)); done.
  - pose proof (is_dir_not_file _ _ Hdir) as Hfile.
    rewrite item_directory; [|unfold skip_rule; simpl files; rewrite Hfile;
      simpl; rewrite bool_decide_false by done; done|done].
    simpl files.
    destruct (content_child _ _ _ Hx) as [[Heq Hsf]|[Hne Hpar]].
    { rewrite Heq in Hfile. congruence. }
    destruct x as [|n x']; [done|]. simpl in Hpar. subst x'.
    assert (∀ r, is_Some (σ !! (r ++ n :: source)) → length r < fuel)
      as Hdepth'.
    { intros r Hr.
      replace (r ++ n :: source) with ((r ++ [n]) ++ source) in Hr
        by (by rewrite <-app_assoc).
      apply Hdepth in Hr. rewrite length_app in Hr. simpl in Hr. lia. }
    destruct (IH (n :: source) (name (n :: source) :: target)
                (prefix ++ lit "  ")
                (t1 ++ [Creating prefix (name (n :: source) :: target); Blank]))
      as [t2 Hcall].
    + assert (is_Some (σ !! ([] ++ n :: source))) as H0.
      { simpl. unfold is_dir in Hdir.
        by destruct (σ !! (n :: source)). }
      apply Hdepth' in H0. simpl in H0. lia.
    + done.
    + intros y Hy. apply Hsub.
      * unfold content in Hy. rewrite Hdir in Hy.
        by apply elem_of_iterdir in Hy as [? _].
      * by eapply content_exists.
    + exists (World σ t2). split; [exact Hcall|]. by split.
Qed.

Lemma content_frame σ σ' source x :
  (∀ q, source `suffix_of` q → σ' !! q = σ !! q) →
  x ∈ content scandir_order σ' source → x ∈ content scandir_order σ source.
Proof.
  intros Hframe. unfold content, is_dir, is_file.
  rewrite (Hframe source) by done.
  destruct (σ !! source) as [[]|]; [done| |done].
  intros [[Hne Hpar] Hx]%elem_of_iterdir. apply elem_of_iterdir.
  split; [done|]. rewrite <-Hframe; [done|].
  destruct x as [|n x']; [done|]. simpl in Hpar. subst x'.
  by apply suffix_cons_r.
Qed.

Lemma content_below σ source x :
  x ∈ content scandir_order σ source → source `suffix_of` x.
Proof.
  intros [[-> _]|[Hne Hpar]]%content_child; [done|].
  destruct x as [|n x']; [done|]. simpl in Hpar. subst x'.
  by apply suffix_cons_r.
Qed.

(** A run that returns leaves every item of its source merged. *)
Lemma sync_dirs_settles fuel source target prefix overwrite w w' :
  wf (files w) → apart source target →
  sync_dirs fuel source target prefix overwrite w = Some (Return (), w') →
  ∀ x, x ∈ content scandir_order (files w') source →
       settled (files w') x (name x :: target).
Proof.
  revert source target prefix overwrite w w'.
  induction fuel as [|fuel IH];
    intros source target prefix overwrite w w' Hwf Hapart; [done|].
  intros Hrun.
  pose proof (sync_dirs_writes _ _ _ _ _ _ _ _ Hrun) as Hall.
  rewrite sync_dirs_unfold in Hrun.
  set (items := content scandir_order (files w) source) in *.
  set (efiles := existing_files scandir_order (files w) target) in *.
  set (efolders := existing_folders scandir_order (files w) target) in *.
  set (body := item _ efiles efolders target prefix overwrite) in Hrun.
  pose (I := λ (rest : list path) (w1 : world),
          writes (touched target) (files w) (files w1)
          ∧ (∀ y, y ∈ rest → y ∈ items)
          ∧ ∀ y, y ∈ items → y ∉ rest →
                 settled (files w1) y (name y :: target)).
  assert (I items w) as Hinit.
  { split; [reflexivity|]. split; [done|]. by intros y Hy Hn. }
  assert (∀ x rest w1 w2,
            I (x :: rest) w1 → body x w1 = Some (Return (), w2) → I rest w2)
    as Hstep.
  { intros x rest w1 w2 (Hw1 & Hin & Hdone) Hx.
    pose proof (item_steps _ _ _ _ _ _ _ _ _ _ Hx) as Hwrites.
    apply (writes_mono _ (touched target)) in Hwrites;
      [|apply touched_item_call].
    assert (wf (files w1)) as Hwf1 by (by eapply writes_wf).
    assert (x ∈ items) as Hxin by (apply Hin; by left).
    split; [by etrans|]. split; [intros y Hy; apply Hin; by right|].
    intros y Hy Hyrest. destruct (decide (y = x)) as [->|Hyx].
    2:{ eapply settled_stable.
        - apply Hdone; [done|]. by intros [?|?]%elem_of_cons.
        - intros q Hq. eapply writes_frame; [done|].
          eapply apart_frame; [done|]. etrans; [|exact Hq].
          by eapply content_below.
        - intros p'. by eapply writes_present.
        - intros p' data. by eapply writes_file. }
    apply item_cases in Hx
      as [(Hskip & _ & Hsame)|[(_ & _ & r1 & σ1 & Hmk & Hcp)|
                              (_ & Hfile & prefix' & w1' & Hw1' & Hcall)]].
    - rewrite Hsame. unfold skip_rule in Hskip.
      apply orb_true_iff in Hskip as [[_ Hf]%andb_true_iff|
                                      [Hfile Hd]%andb_true_iff].
      + apply bool_decide_eq_true in Hf.
        apply existing_files_elem in Hf as [data Hf].
        destruct (writes_file _ _ _ _ _ Hw1 Hf) as [data' ?].
        by eapply settled_skip.
      + apply bool_decide_eq_true in Hd.
        apply existing_folders_elem in Hd.
        apply settled_file; [done|].
        eapply writes_present; [exact Hw1|]. by rewrite Hd.
    - destruct Hcp as [(e' & _ & ? & _)|[_ Hcp]]; [done|].
      destruct (copyfile_cases x (name x :: target) σ1)
        as [[e' He']|(data & _ & _ & _ & _ & _ & Hret)].
      + rewrite He' in Hcp. done.
      + rewrite Hret in Hcp. injection Hcp as Hf.
        apply settled_skip with data. by rewrite <-Hf, lookup_insert_eq.
    - destruct (content_exists _ _ _ Hxin) as [ex Hex].
      assert (ex = Dir) as ->.
      { destruct ex as [data|]; [|done].
        destruct (writes_file _ _ _ _ _ Hw1 Hex) as [data' Hex1].
        unfold is_file in Hfile. by rewrite Hex1 in Hfile. }
      assert (files w2 !! x = Some Dir) as Hdir2.
      { eapply writes_dir; [|exact Hex]. by etrans. }
      destruct (content_child _ _ _ Hxin) as [[-> Hsf]|[Hne Hpar]].
      { unfold is_file in Hsf. by rewrite Hex in Hsf. }
      destruct x as [|n x']; [done|]. simpl in Hpar. subst x'.
      apply settled_dir; [unfold is_dir; by rewrite Hdir2|].
      intros y' Hchild Hy'.
      eapply IH; [| |exact Hcall|].
      + by rewrite Hw1'.
      + by apply apart_cons.
      + unfold content, is_dir. rewrite Hdir2.
        by apply elem_of_iterdir. }
  pose proof (for_each_inv_return I body Hstep _ _ _ Hinit Hrun)
    as (_ & _ & Hdone).
  intros x Hx. apply Hdone; [|by intros ?%not_elem_of_nil].
  eapply content_frame; [|exact Hx].
  intros q Hq. eapply writes_frame; [exact Hall|]. by eapply apart_frame.
Qed.

(** X7: a second run of [_sync_dirs] copies nothing.  When a call has
    returned, for a source and a target that are apart, a call with
    the same source and target and without [overwrite] returns as
    well and leaves the filesystem as the first call left it. *)
Theorem sync_dirs_idempotent fuel fuel' source target prefix prefix'
    overwrite w w1 :
  wf (files w) → apart source target →
  sync_dirs fuel source target prefix overwrite w = Some (Return (), w1) →
  depth_bound (files w1) ≤ fuel' →
  ∃ w2, sync_dirs fuel' source target prefix' false w1
        = Some (Return (), w2)
        ∧ files w2 = files w1.
Proof.
  intros Hwf Hapart Hrun [Hpos Hdepth]%(depth_bound_fuel _ source).
  pose proof (sync_dirs_settles _ _ _ _ _ _ _ Hwf Hapart Hrun) as Hsettled.
  pose proof (sync_dirs_writes _ _ _ _ _ _ _ _ Hrun) as Hw.
  destruct w1 as [σ1 t1]. simpl in *.
  destruct (sync_dirs_settled fuel' source target prefix' σ1 t1)
    as [t2 Hrun2]; [by eapply writes_wf|done..|].
  by exists (World σ1 t2).
Qed.

(** *** The callers, on the project *)

Lemma rmtree_keeps p σ q :
  ¬ p `suffix_of` q → (rmtree p σ).2 !! q = σ !! q.
Proof.
  intros Hq. unfold rmtree. destruct (σ !! p) as [[]|]; simpl; [done| |done].
  destruct (σ !! q) as [e|] eqn:He.
  - by apply map_lookup_filter_Some_2.
  - apply map_lookup_filter_None_2. by left.
Qed.

Lemma try_finally_rmtree_dir {A} (body : M A) p w r1 w1 :
  body w = Some (r1, w1) → files w1 !! p = Some Dir →
  try_finally body (syscall (rmtree p)) w
  = Some (r1, World (rmtree p (files w1)).2 (terminal w1)).
Proof.
  intros Hbody Hp. unfold try_finally, syscall, rmtree.
  by rewrite Hbody, Hp.
Qed.

Lemma apart_target_below source target r :
  apart source target → ¬ source `suffix_of` r ++ target.
Proof.
  intros [Hst Hts] Hs.
  destruct (suffix_weak_total source target (r ++ target)); try done.
  by apply suffix_app_r.
Qed.

(** X8: what the two callers of [_sync_dirs] do to the project,
    whether the merge returns or raises.  Outside the scratch directory
    every entry is found again as it was, and nothing changes but the
    target of the merge, the directories above it and what lies below
    it; without the configuration, nothing changes at all.  When the
    scratch directory is there, the outcome of the caller is the outcome
    of the merge: an error of the merge is raised on, after the scratch
    directory is removed. *)
Theorem callers_keep_project fuel result_path tests_target conf_path
    skip_config env w :
  let tests_source := lit "tests" :: result_path in
  let config_source := lit "config" :: result_path in
  let copy_tests :=
    _copy_pipeline_tests scandir_order mkdir_denied copy_denied
      fuel result_path tests_target in
  let copy_configs :=
    _copy_pipeline_configs scandir_order mkdir_denied copy_denied
      fuel result_path conf_path skip_config env in
  wf (files w) →
  (∀ r w', copy_tests w = Some (r, w') →
     (∀ q e, ¬ tests_source `suffix_of` q →
        files w !! q = Some e → files w' !! q = Some e)
     ∧ (∀ q, ¬ tests_source `suffix_of` q → ¬ touched tests_target q →
          files w' !! q = files w !! q)
     ∧ (is_dir (files w) tests_source = true →
        ∃ w1, sync_dirs fuel tests_source tests_target [] false w
              = Some (r, w1)
              ∧ terminal w' = terminal w1))
  ∧ (∀ r w', copy_configs w = Some (r, w') →
       (∀ q e, ¬ config_source `suffix_of` q →
          files w !! q = Some e → files w' !! q = Some e)
       ∧ (∀ q, ¬ config_source `suffix_of` q →
            skip_config = true ∨ ¬ touched (env :: conf_path) q →
            files w' !! q = files w !! q)
       ∧ (is_dir (files w) config_source = true → skip_config = false →
          ∃ w1, sync_dirs fuel config_source (env :: conf_path) [] false w
                = Some (r, w1)
                ∧ terminal w' = terminal w1)).
Proof.
  intros tests_source config_source copy_tests copy_configs Hwf.
  assert (∀ source target r w',
            try_finally (sync_dirs fuel source target [] false)
              (syscall (rmtree source)) w = Some (r, w') →
            (∀ q e, ¬ source `suffix_of` q →
               files w !! q = Some e → files w' !! q = Some e)
            ∧ (∀ q, ¬ source `suffix_of` q → ¬ touched target q →
                 files w' !! q = files w !! q)
            ∧ (is_dir (files w) source = true →
               ∃ w1, sync_dirs fuel source target [] false w = Some (r, w1)
                     ∧ terminal w' = terminal w1)) as Hmerge.
  { intros source target r w' Hrun.
    pose proof Hrun as Hrun'.
    apply try_finally_rmtree in Hrun' as (r1 & w1 & Hbody & Hfiles).
    pose proof (sync_dirs_writes _ _ _ _ _ _ _ _ Hbody) as Hw.
    split; [|split].
    - intros q e Hq He. rewrite Hfiles, rmtree_keeps by done.
      eapply lookup_weaken; [done|]. by eapply sync_dirs_no_clobber.
    - intros q Hq Hn. rewrite Hfiles, rmtree_keeps by done.
      by eapply writes_frame.
    - intros Hdir. unfold is_dir in Hdir.
      destruct (files w !! source) as [[]|] eqn:Hs; try done.
      rewrite (try_finally_rmtree_dir _ _ _ _ _ Hbody) in Hrun
        by (by eapply writes_dir).
      injection Hrun as <- <-. by exists w1. }
  split; [apply Hmerge|].
  intros r w' Hrun. unfold copy_configs, _copy_pipeline_configs in Hrun.
  destruct skip_config; simpl in Hrun.
  - apply try_finally_rmtree in Hrun as (r1 & w1 & [= <- <-] & Hfiles).
    split; [|split; [|done]].
    + intros q e Hq He. by rewrite Hfiles, rmtree_keeps.
    + intros q Hq _. by rewrite Hfiles, rmtree_keeps.
  - destruct (Hmerge _ _ _ _ Hrun) as (Hkeep & Hframe & Hout).
    split; [done|]. split; [|by intros ? _; apply Hout].
    intros q Hq [?|Hn]; [done|]. by apply Hframe.
Qed.

(** X9: the generated tests are moved.  A scratch directory [tests],
    merged into a target that is absent or empty and apart from it, on
    an operating system that refuses nothing: the caller returns, every
    file of the scratch directory is in the target with its bytes at
    the same relative path, and the scratch directory is gone. *)
Theorem copy_pipeline_tests_moves fuel result_path tests_target w :
  let tests_source := lit "tests" :: result_path in
  (∀ p, mkdir_denied p = false) →
  (∀ src dst, copy_denied src dst = false) →
  wf (files w) →
  is_dir (files w) tests_source = true →
  apart tests_source tests_target →
  (∀ q, below tests_target q → files w !! q = None) →
  (∀ q, q `suffix_of` tests_target → is_file (files w) q = false) →
  depth_bound (files w) ≤ fuel →
  ∃ w', _copy_pipeline_tests scandir_order mkdir_denied copy_denied
          fuel result_path tests_target w = Some (Return (), w')
        ∧ gone tests_source (files w')
        ∧ (∀ r, r ≠ [] →
             files w' !! (r ++ tests_target)
             = merged (files w) tests_source r)
        ∧ (∀ r data, files w !! (r ++ tests_source) = Some (File data) →
             r ≠ [] → files w' !! (r ++ tests_target) = Some (File data)).
Proof.
  intros tests_source Hmk Hcp Hwf Hdir Hapart Hempty Hnofile
    [_ Hdepth]%(depth_bound_fuel _ tests_source).
  destruct (sync_into_empty Hmk Hcp fuel tests_source tests_target [] false w)
    as (w1 & Hrun & Hwf1 & Hmerged & _ & Hframe); [done..|].
  assert (files w1 !! tests_source = files w !! tests_source) as Hsame.
  { apply Hframe. by eapply apart_frame. }
  unfold is_dir in Hdir.
  destruct (files w !! tests_source) as [[]|] eqn:Hs; try done.
  eexists. split.
  { unfold _copy_pipeline_tests. by apply try_finally_rmtree_dir. }
  simpl files.
  assert (∀ r, r ≠ [] →
            (rmtree tests_source (files w1)).2 !! (r ++ tests_target)
            = merged (files w) tests_source r) as Hm.
  { intros r Hr. rewrite rmtree_keeps by (by apply apart_target_below).
    by apply Hmerged. }
  split; [|split; [done|]].
  - apply rmtree_gone; [done|].
    change (is_file (files w1) tests_source = false).
    unfold is_file. by rewrite Hsame.
  - intros r data Hfile Hr. rewrite Hm by done.
    unfold merged. by rewrite Hfile.
Qed.

(** *** A source that is a file *)

Lemma existing_folders_listed σ target n :
  wf σ → σ !! (n :: target) = Some Dir →
  n ∈ existing_folders scandir_order σ target.
Proof.
  intros Hwf He.
  destruct (existing_listed σ target n) as [Hf|?]; [done..| |done].
  apply existing_files_elem in Hf as [data ?]. congruence.
Qed.

(** X14: a source that is a file is copied under its name into the
    target, on an operating system that refuses nothing, when no file
    lies at the target or above it.  The call returns.  A directory of
    that name in the target stays; a file of that name stays unless
    [overwrite] is set; otherwise the target has the bytes of the source
    under its name.  The missing directories of the target are made
    when nothing has that name, and nothing else changes. *)
Theorem sync_dirs_file_source fuel source target prefix overwrite w data :
  let target_path := name source :: target in
  (∀ p, mkdir_denied p = false) →
  (∀ src dst, copy_denied src dst = false) →
  wf (files w) →
  files w !! source = Some (File data) →
  source ≠ target_path →
  (∀ q, q `suffix_of` target → is_file (files w) q = false) →
  ∃ w', sync_dirs (S fuel) source target prefix overwrite w
        = Some (Return (), w')
        ∧ files w' !! target_path
          = match files w !! target_path with
            | Some Dir => Some Dir
            | Some (File old) =>
                if overwrite then Some (File data) else Some (File old)
            | None => Some (File data)
            end
        ∧ (∀ q, q ≠ target_path → ¬ q `suffix_of` target →
             files w' !! q = files w !! q)
        ∧ (is_Some (files w !! target_path) →
           ∀ q, q ≠ target_path → files w' !! q = files w !! q)
        ∧ (files w !! target_path = None →
           ∀ q, q `suffix_of` target → files w' !! q = Some Dir).
Proof.
  intros target_path Hmk Hcp Hwf Hsrc Hne Hnofile. subst target_path.
  rewrite sync_dirs_unfold.
  assert (content scandir_order (files w) source = [source]) as ->.
  { unfold content, is_dir, is_file. by rewrite Hsrc. }
  simpl. rewrite bind_unfold.
  set (efiles := existing_files scandir_order (files w) target).
  set (efolders := existing_folders scandir_order (files w) target).
  assert (is_file (files w) source = true) as Hfile
    by (unfold is_file; by rewrite Hsrc).
  destruct (skip_rule overwrite (name source) efiles efolders
              (is_file (files w) source)) eqn:Hskip.
  - rewrite item_skipped by done. eexists. split; [done|]. simpl.
    unfold skip_rule in Hskip. rewrite Hfile in Hskip.
    assert (∃ e, files w !! (name source :: target) = Some e
                 ∧ (e = Dir ∨ overwrite = false)) as (e & He & Hcase).
    { apply orb_true_iff in Hskip as [[Hov Hf]%andb_true_iff|
                                      [_ Hd]%andb_true_iff].
      - apply bool_decide_eq_true, existing_files_elem in Hf as [old Hold].
        exists (File old). split; [done|]. right. by destruct overwrite.
      - apply bool_decide_eq_true, existing_folders_elem in Hd.
        exists Dir. split; [done|by left]. }
    rewrite He. split; [|by split].
    destruct e as [old|]; [|done]. by destruct Hcase as [?| ->].
  - rewrite item_file by done.
    destruct (mkdir_parents_ok Hmk target (files w) Hwf Hnofile)
      as (σ1 & Hmkdir & Hdirs & Hrest).
    rewrite Hmkdir.
    assert (¬ source `suffix_of` target) as Hst.
    { intros Hs. apply Hnofile in Hs. congruence. }
    assert (¬ (name source :: target) `suffix_of` target) as Htt
      by apply suffix_cons_not.
    rewrite Hfile in Hskip. unfold skip_rule in Hskip.
    apply orb_false_elim in Hskip as [Hnf Hnd]. simpl in Hnd.
    apply bool_decide_eq_false in Hnd.
    assert (files w !! (name source :: target) ≠ Some Dir) as Hnodir.
    { intros Hd. apply Hnd. by apply existing_folders_listed. }
    rewrite (copyfile_ok Hcp source (name source :: target) σ1 data);
      [|done|by rewrite Hrest|by rewrite Hrest|by apply Hdirs].
    eexists. split; [done|]. simpl. rewrite lookup_insert_eq.
    split; [|split; [|split]].
    + destruct (files w !! (name source :: target)) as [[old|]|] eqn:Hold;
        [|done..].
      destruct overwrite; [done|]. exfalso. simpl in Hnf.
      apply bool_decide_eq_false in Hnf. apply Hnf.
      by eapply existing_files_listed.
    + intros q Hq Hqt. rewrite lookup_insert_ne by done. by apply Hrest.
    + intros [e He] q Hq. rewrite lookup_insert_ne by done.
      destruct (decide (q `suffix_of` target)) as [Hqt|Hqt];
        [|by apply Hrest].
      rewrite Hdirs by done. symmetry.
      apply (wf_ancestors (files w) (name source :: target));
        [done|by rewrite He|by apply suffix_cons_r|].
      intros ->. by apply Htt.
    + intros _ q Hq. rewrite lookup_insert_ne; [by apply Hdirs|].
      intros <-. by apply Htt.
Qed.

(** *** What a merge adds *)

Lemma for_each_other_names fuel efiles efolders target prefix overwrite
    (l : list path) n w r w' :
  n ∉ name <$> l →
  for_each l (item (λ s t p, sync_dirs fuel s t p false)
                efiles efolders target prefix overwrite) w = Some (r, w') →
  writes (touched target) (files w) (files w')
  ∧ ∀ q, (n :: target) `suffix_of` q → files w' !! q = files w !! q.
Proof.
  intros Hn Hrun.
  assert (steps (writes (λ q', touched target q'
                               ∧ ¬ (n :: target) `suffix_of` q'))
            (for_each l (item (λ s t p, sync_dirs fuel s t p false)
                           efiles efolders target prefix overwrite)))
    as Hsteps.
  { apply steps_for_each; [apply _|]. intros y Hy.
    eapply steps_weaken; [|apply item_steps].
    intros σ σ'. apply writes_mono. intros q' Hq'.
    split; [by eapply touched_item_call|]. intros Hs.
    destruct Hq' as [Hq'|Hq'].
    - apply (suffix_cons_not n target). by etrans.
    - eapply siblings_disjoint; [|exact Hs|exact Hq'].
      intros ->. apply Hn. apply list_elem_of_fmap. by exists y. }
  apply Hsteps in Hrun. split.
  - eapply writes_mono; [|exact Hrun]. by intros q' [? _].
  - intros q Hq. eapply writes_frame; [exact Hrun|]. by intros [_ ?].
Qed.

(** *** What a failed merge does *)

Lemma mkdir_exist_ok_raise p σ e σ' :
  mkdir_exist_ok mkdir_denied p σ = (Raise e, σ') → ∃ c, e = OSError c.
Proof.
  unfold mkdir_exist_ok.
  destruct (os_mkdir mkdir_denied p σ) as [[]|]; try destruct (is_dir σ p);
    intros [= <- <-]; by eexists.
Qed.

Lemma mkdir_parents_raise p σ e σ' :
  mkdir_parents mkdir_denied p σ = (Raise e, σ') → ∃ c, e = OSError c.
Proof.
  revert σ σ'. induction p as [|n p IH]; intros σ σ'; simpl.
  - destruct (os_mkdir mkdir_denied [] σ) as [[]|];
      try destruct (is_dir σ []); intros [= <- <-]; by eexists.
  - destruct (os_mkdir mkdir_denied (n :: p) σ) as [err|σ1]; [|done].
    destruct err;
      try (destruct (is_dir σ (n :: p)); intros [= <- <-]; by eexists).
    destruct (mkdir_parents mkdir_denied p σ) as [[[]|e1] σ1] eqn:Hp.
    + apply mkdir_exist_ok_raise.
    + intros [= <- <-]. by eapply IH.
Qed.

Lemma copyfile_raise src dst σ e σ' :
  copyfile copy_denied src dst σ = (Raise e, σ') → ∃ c, e = OSError c.
Proof.
  destruct (copyfile_cases src dst σ) as [[e' He']|(data & _ & _ & _ & _ & _ & ->)];
    [|done].
  intros He. unfold copyfile in He.
  destruct (bool_decide (src = dst) && exists_ σ src);
    [injection He as <- <-; by eexists|].
  destruct (σ !! src) as [[]|]; [|injection He as <- <-; by eexists..].
  destruct (σ !! dst) as [[]|], (σ !! parent dst) as [[]|];
    try destruct (copy_denied src dst);
    by (injection He as <- <-; eexists) || done.
Qed.

Lemma fails_in_raises fuel source target prefix overwrite w e w' :
  fails_in scandir_order mkdir_denied copy_denied
    fuel source target prefix overwrite w e w' →
  sync_dirs fuel source target prefix overwrite w = Some (Raise e, w')
  ∧ last (terminal w') = Some Failed.
Proof.
  induction 1 as [fuel source target prefix overwrite w pre x post w1 e σ2
                    Hcontent Hpre Hskip Hfile Hio
                 |fuel source target prefix overwrite w pre x post w1 e w'
                    Hcontent Hpre Hskip Hfile _ [IHrun IHlast]].
  - split.
    + rewrite sync_dirs_unfold, Hcontent. apply for_each_raise with w1;
        [done|].
      rewrite item_file by done. simpl.
      rewrite bind_unfold in Hio. unfold syscall in Hio. simpl in Hio.
      destruct (mkdir_parents mkdir_denied target (files w1))
        as [[[]|e1] σ1]; simpl in Hio.
      * destruct (copyfile copy_denied x (name x :: target) σ1)
          as [[[]|e2] σ2']; simplify_eq. by rewrite <-app_assoc.
      * simplify_eq. by rewrite <-app_assoc.
    + simpl. by rewrite last_app_cons.
  - split; [|done].
    rewrite sync_dirs_unfold, Hcontent. apply for_each_raise with w1;
      [done|]. by rewrite item_directory.
Qed.

(** C7: a failure while a target directory is made or a file is
    copied, at whatever depth, is raised by the call.  The call at hand
    has done the items [pre]; its item [x] is the file that fails, or
    the directory in whose calls, any number of frames down, a file
    fails.  Then the call raises the error of the operating system, and
    the filesystem it leaves is the one the failed call of the
    operating system left: everything that was there when the items
    [pre] were done is still there, and nothing is changed at or below
    the target paths of the items [post].  This holds for the call of
    every frame above the failure. *)
Theorem sync_dirs_failure_aborts fuel source target prefix overwrite w
    pre x post w1 e w' :
  let efiles := existing_files scandir_order (files w) target in
  let efolders := existing_folders scandir_order (files w) target in
  let body := item (λ s t p, sync_dirs fuel s t p false)
                efiles efolders target prefix overwrite in
  content scandir_order (files w) source = pre ++ x :: post →
  for_each pre body w = Some (Return (), w1) →
  skip_rule overwrite (name x) efiles efolders (is_file (files w1) x)
  = false →
  (is_file (files w1) x = true
   ∧ ∃ σ2,
       (syscall (mkdir_parents mkdir_denied target);;
        syscall (copyfile copy_denied x (name x :: target))) w1
       = Some (Raise e, World σ2 (terminal w1))
       ∧ w' = World σ2 (terminal w1
                        ++ [Creating prefix (name x :: target); Failed]))
  ∨ (is_file (files w1) x = false
     ∧ fails_in scandir_order mkdir_denied copy_denied
         fuel x (name x :: target) (prefix ++ lit "  ") false
         (World (files w1)
            (terminal w1 ++ [Creating prefix (name x :: target); Blank]))
         e w') →
  _sync_dirs scandir_order mkdir_denied copy_denied
    (S fuel) source target prefix overwrite w = Some (Raise e, w')
  ∧ (wf (files w) → files w1 ⊆ files w')
  ∧ (∀ y q, y ∈ post → (name y :: target) `suffix_of` q →
       files w' !! q = files w !! q).
Proof.
  intros efiles efolders body Hcontent Hpre Hskip Hcase.
  assert (body x w1 = Some (Raise e, w')) as Hx.
  { unfold body. destruct Hcase as [(Hfile & σ2 & Hio & ->)|[Hfile Hin]].
    - rewrite item_file by done. simpl.
      rewrite bind_unfold in Hio. unfold syscall in Hio. simpl in Hio.
      destruct (mkdir_parents mkdir_denied target (files w1))
        as [[[]|e1] σ1]; simpl in Hio.
      + destruct (copyfile copy_denied x (name x :: target) σ1)
          as [[[]|e2] σ2']; simplify_eq. by rewrite <-app_assoc.
      + simplify_eq. by rewrite <-app_assoc.
    - rewrite item_directory by done.
      by apply fails_in_raises in Hin as [Hin _]. }
  split.
  { rewrite sync_dirs_unfold, Hcontent. by apply for_each_raise with w1. }
  split.
  - intros Hwf.
    assert (wf (files w1)) as Hwf1.
    { eapply writes_wf; [|exact Hwf].
      eapply (steps_for_each (writes (touched target))); [|exact Hpre].
      intros y _. eapply steps_weaken; [|apply item_steps].
      intros σ σ'. apply writes_mono, touched_item_call. }
    destruct Hcase as [(Hfile & σ2 & Hio & ->)|[Hfile Hin]].
    + simpl. rewrite bind_unfold in Hio. unfold syscall in Hio.
      simpl in Hio.
      pose proof (mkdir_parents_subseteq target (files w1)) as Hsub.
      destruct (mkdir_parents mkdir_denied target (files w1))
        as [[[]|e1] σ1]; simpl in Hio, Hsub; [|by simplify_eq].
      destruct (copyfile_cases x (name x :: target) σ1)
        as [[e2 He2]|(data & _ & _ & _ & _ & _ & Hret)].
      * rewrite He2 in Hio. by simplify_eq.
      * rewrite Hret in Hio. done.
    + apply fails_in_raises in Hin as [Hin _].
      by apply sync_dirs_no_clobber in Hin.
  - intros y q Hy Hq.
    pose proof (NoDup_content_names (files w) source) as Hnd.
    rewrite Hcontent in Hnd.
    assert (name y ∉ name <$> (pre ++ [x])) as Hname.
    { rewrite fmap_app in Hnd. apply NoDup_app in Hnd as (_ & Hdisj & Hnd).
      rewrite fmap_cons in Hnd. apply NoDup_cons in Hnd as [Hx_post _].
      assert (name y ∈ name <$> post) as Hin
        by (apply list_elem_of_fmap; by exists y).
      rewrite fmap_app. intros [Hp|Hxy]%elem_of_app.
      - apply (Hdisj _ Hp). rewrite fmap_cons. by right.
      - apply list_elem_of_singleton in Hxy. apply Hx_post.
        by rewrite <-Hxy. }
    eapply (for_each_other_names fuel efiles efolders target prefix
              overwrite (pre ++ [x]) (name y) w (Raise e) w' Hname);
      [|exact Hq].
    by apply for_each_raise with w1.
Qed.

(** X15: the error a failed merge raises.  When making a target
    directory or copying a file fails, at whatever depth, the call
    raises the error of the operating system as it is, not wrapped, and
    the last line it has printed is the failure of the item it was
    copying. *)
Theorem sync_dirs_raises_oserror fuel source target prefix overwrite w e w' :
  fails_in scandir_order mkdir_denied copy_denied
    fuel source target prefix overwrite w e w' →
  _sync_dirs scandir_order mkdir_denied copy_denied
    fuel source target prefix overwrite w = Some (Raise e, w')
  ∧ (∃ c, e = OSError c)
  ∧ last (terminal w') = Some Failed.
Proof.
  intros Hfails.
  destruct (fails_in_raises _ _ _ _ _ _ _ _ Hfails) as [Hrun Hlast].
  split; [done|]. split; [|done]. clear Hrun Hlast.
  induction Hfails as [fuel source target prefix overwrite w pre x post w1
                         e σ2 _ _ _ _ Hio|]; [|done].
  rewrite bind_unfold in Hio. unfold syscall in Hio. simpl in Hio.
  destruct (mkdir_parents mkdir_denied target (files w1))
    as [[[]|e1] σ1] eqn:Hmk; simpl in Hio.
  - destruct (copyfile copy_denied x (name x :: target) σ1)
      as [[[]|e2] σ2'] eqn:Hcp; [done|].
    injection Hio as <- _. by eapply copyfile_raise.
  - injection Hio as <- _. by eapply mkdir_parents_raise.
Qed.

(** A file of the source that the target has no place taken for is
    copied by a merge that returns. *)
Lemma sync_dirs_adds_file fuel source target prefix overwrite w w' r data :
  wf (files w) → apart source target →
  sync_dirs fuel source target prefix overwrite w = Some (Return (), w') →
  r ≠ [] →
  files w !! (r ++ source) = Some (File data) →
  files w !! (r ++ target) = None →
  (∀ r2, r2 `suffix_of` r → r2 ≠ [] →
         is_file (files w) (r2 ++ target) = false) →
  files w' !! (r ++ target) = Some (File data).
Proof.
  revert source target prefix overwrite w w' r.
  induction fuel as [|fuel IH];
    intros source target prefix overwrite w w' r Hwf Hapart Hrun Hr Hsrc
      Hnone Hanc; [done|].
  destruct (snoc_inv r Hr) as (r' & n & ->).
  rewrite <-!app_assoc in Hsrc, Hnone. rewrite <-!app_assoc.
  simpl in Hsrc, Hnone. simpl.
  assert (∀ k, k ≠ [] → k ++ n :: source ≠ n :: source) as Hlonger.
  { intros k Hk Heq. apply (f_equal length) in Heq.
    rewrite length_app in Heq. destruct k; [done|]. simpl in Heq. lia. }
  assert (files w !! source = Some Dir) as Hdir.
  { apply (wf_ancestors (files w) (r' ++ n :: source)); [done|by rewrite Hsrc| |].
    - apply suffix_app_r. by apply suffix_cons_r.
    - intros Heq. apply (f_equal length) in Heq.
      rewrite length_app in Heq. simpl in Heq. lia. }
  assert (r' ≠ [] → files w !! (n :: source) = Some Dir) as Hxdir.
  { intros Hr'.
    apply (wf_ancestors (files w) (r' ++ n :: source));
      [done|by rewrite Hsrc|by apply suffix_app_r|].
    intros Heq. by eapply Hlonger. }
  assert (is_Some (files w !! (n :: source))) as Hx.
  { destruct r' as [|m r'']; [simpl in Hsrc; by rewrite Hsrc|].
    rewrite Hxdir; done. }
  rewrite sync_dirs_unfold in Hrun.
  set (efiles := existing_files scandir_order (files w) target) in *.
  set (efolders := existing_folders scandir_order (files w) target) in *.
  set (body := item _ efiles efolders target prefix overwrite) in Hrun.
  assert (n :: source ∈ content scandir_order (files w) source) as Hin.
  { unfold content, is_dir. rewrite Hdir. apply elem_of_iterdir.
    split; [by split|done]. }
  destruct (list_elem_of_split _ _ Hin) as (pre & post & Hitems).
  pose proof (NoDup_content_names (files w) source) as Hnd.
  rewrite Hitems, fmap_app, fmap_cons in Hnd.
  change (name (n :: source)) with n in Hnd.
  apply NoDup_app in Hnd as (_ & Hpre_n & Hnd).
  apply NoDup_cons in Hnd as [Hpost _].
  assert (n ∉ name <$> pre) as Hpre.
  { intros H. apply (Hpre_n _ H). by left. }
  rewrite Hitems, for_each_app in Hrun.
  destruct (for_each pre body w) as [[[[]|e] w1]|] eqn:Hpre_run; [|done..].
  simpl in Hrun. rewrite bind_unfold in Hrun.
  destruct (body (n :: source) w1) as [[[[]|e] w2]|] eqn:Hbx; [|done..].
  destruct (for_each_other_names _ _ _ _ _ _ _ _ _ _ _ Hpre Hpre_run)
    as [Hw1 Hframe1].
  destruct (for_each_other_names _ _ _ _ _ _ _ _ _ _ _ Hpost Hrun)
    as [_ Hframe2].
  assert (∀ q, source `suffix_of` q → files w1 !! q = files w !! q)
    as Hsource.
  { intros q Hq. eapply writes_frame; [exact Hw1|]. by eapply apart_frame. }
  assert (wf (files w1)) as Hwf1 by (by eapply writes_wf).
  rewrite Hframe2 by (by apply suffix_app_r).
  assert (files w1 !! (r' ++ n :: source) = Some (File data)) as Hsrc1.
  { rewrite Hsource; [done|]. apply suffix_app_r. by apply suffix_cons_r. }
  assert (files w1 !! (r' ++ n :: target) = None) as Hnone1.
  { rewrite Hframe1; [done|]. by apply suffix_app_r. }
  assert (is_file (files w1) (n :: source) = true → r' = []) as Hfile_top.
  { intros Hf. destruct r' as [|m r'']; [done|]. exfalso.
    unfold is_file in Hf. rewrite Hsource in Hf by (by apply suffix_cons_r).
    by rewrite Hxdir in Hf. }
  unfold body in Hbx. apply item_cases in Hbx
    as [(Hskip & _ & _)|[(Hskip & Hfile & r1 & σ1 & Hmk & Hcp)|
                        (Hskip & Hfile & prefix' & w1' & Hw1' & Hcall)]];
    change (name (n :: source)) with n in *.
  - exfalso. unfold skip_rule in Hskip.
    apply orb_true_iff in Hskip as [[_ Hf]%andb_true_iff|
                                    [Hisf Hd]%andb_true_iff].
    + apply bool_decide_eq_true, existing_files_elem in Hf as [old Hold].
      specialize (Hanc [n]). unfold is_file in Hanc. simpl in Hanc.
      rewrite Hold in Hanc. discriminate Hanc; [by apply suffix_app_r|done].
    + apply bool_decide_eq_true, existing_folders_elem in Hd.
      rewrite (Hfile_top Hisf) in Hnone. simpl in Hnone. congruence.
  - rewrite (Hfile_top Hfile) in *. simpl in *.
    destruct Hcp as [(e' & _ & ? & _)|[-> Hcp]]; [done|].
    assert (σ1 !! (n :: source) = Some (File data)) as Hsrc2.
    { pose proof (mkdir_parents_writes target (files w1)) as Hmw.
      rewrite Hmk in Hmw. simpl in Hmw.
      rewrite (writes_frame _ _ _ _ Hmw); [done|].
      intros Hs. apply (proj1 Hapart). by eapply suffix_cons_l. }
    destruct (copyfile_cases (n :: source) (n :: target) σ1)
      as [[e' He']|(data0 & Hdata0 & _ & _ & _ & _ & Hret)].
    + rewrite He' in Hcp. done.
    + rewrite Hret in Hcp. injection Hcp as Hf.
      rewrite <-Hf, lookup_insert_eq. congruence.
  - assert (r' ≠ []) as Hr'.
    { intros ->. simpl in Hsrc1. unfold is_file in Hfile.
      by rewrite Hsrc1 in Hfile. }
    eapply (IH (n :: source) (n :: target) prefix' false w1' w2 r');
      [by rewrite Hw1'|by apply apart_cons|exact Hcall|done
       |by rewrite Hw1'|by rewrite Hw1'|].
    intros r2 Hr2 Hne2. rewrite Hw1'. unfold is_file.
    rewrite Hframe1 by (by apply suffix_app_r).
    specialize (Hanc (r2 ++ [n])). unfold is_file in Hanc.
    rewrite <-app_assoc in Hanc. simpl in Hanc. apply Hanc.
    + by apply suffix_app.
    + by destruct r2.
Qed.

(** X16: what a merge that returns has added.  A file of the source,
    at whatever depth, is in the target afterwards at the same relative
    path and with its bytes, when the target had nothing there and no
    file on the way down to it; source and target are apart.  The file
    is copied, not moved: the source still has it. *)
Theorem sync_dirs_adds_missing fuel source target prefix overwrite w w'
    r data :
  wf (files w) → apart source target →
  sync_dirs fuel source target prefix overwrite w = Some (Return (), w') →
  r ≠ [] →
  files w !! (r ++ source) = Some (File data) →
  files w !! (r ++ target) = None →
  (∀ r2, r2 `suffix_of` r → r2 ≠ [] →
         is_file (files w) (r2 ++ target) = false) →
  files w' !! (r ++ target) = Some (File data)
  ∧ files w' !! (r ++ source) = Some (File data).
Proof.
  intros Hwf Hapart Hrun Hr Hsrc Hnone Hanc.
  split; [by eapply sync_dirs_adds_file|].
  rewrite <-Hsrc. eapply writes_frame; [by eapply sync_dirs_writes|].
  eapply apart_frame; [done|]. by apply suffix_app_r.
Qed.

(** X17: what the two callers add to the project.  When a caller
    returns, a file of its scratch directory, at whatever depth, is in
    the target at the same relative path and with its bytes, when the
    target had nothing there and no file on the way down to it; and the
    scratch directory is gone. *)
Theorem callers_add_missing fuel result_path tests_target conf_path env
    w w' r data :
  let tests_source := lit "tests" :: result_path in
  let config_source := lit "config" :: result_path in
  let copy_tests :=
    _copy_pipeline_tests scandir_order mkdir_denied copy_denied
      fuel result_path tests_target in
  let copy_configs :=
    _copy_pipeline_configs scandir_order mkdir_denied copy_denied
      fuel result_path conf_path false env in
  wf (files w) → r ≠ [] →
  (apart tests_source tests_target →
   copy_tests w = Some (Return (), w') →
   files w !! (r ++ tests_source) = Some (File data) →
   files w !! (r ++ tests_target) = None →
   (∀ r2, r2 `suffix_of` r → r2 ≠ [] →
          is_file (files w) (r2 ++ tests_target) = false) →
   files w' !! (r ++ tests_target) = Some (File data)
   ∧ gone tests_source (files w'))
  ∧ (apart config_source (env :: conf_path) →
     copy_configs w = Some (Return (), w') →
     files w !! (r ++ config_source) = Some (File data) →
     files w !! (r ++ env :: conf_path) = None →
     (∀ r2, r2 `suffix_of` r → r2 ≠ [] →
            is_file (files w) (r2 ++ env :: conf_path) = false) →
     files w' !! (r ++ env :: conf_path) = Some (File data)
     ∧ gone config_source (files w')).
Proof.
  intros tests_source config_source copy_tests copy_configs Hwf Hr.
  assert (∀ source target,
            apart source target →
            try_finally (sync_dirs fuel source target [] false)
              (syscall (rmtree source)) w = Some (Return (), w') →
            files w !! (r ++ source) = Some (File data) →
            files w !! (r ++ target) = None →
            (∀ r2, r2 `suffix_of` r → r2 ≠ [] →
                   is_file (files w) (r2 ++ target) = false) →
            files w' !! (r ++ target) = Some (File data)
            ∧ gone source (files w')) as Hmerge.
  { intros source target Hapart Hrun Hsrc Hnone Hanc.
    pose proof Hrun as Hrun'.
    apply try_finally_rmtree in Hrun' as (r1 & w1 & Hbody & Hfiles).
    pose proof (sync_dirs_writes _ _ _ _ _ _ _ _ Hbody) as Hw.
    assert (files w !! source = Some Dir) as Hdir.
    { apply (wf_ancestors (files w) (r ++ source));
        [done|by rewrite Hsrc|by apply suffix_app_r|].
      intros Heq. apply (f_equal length) in Heq.
      rewrite length_app in Heq. destruct r; [done|]. simpl in Heq. lia. }
    assert (files w1 !! source = Some Dir) as Hdir1
      by (by eapply writes_dir).
    rewrite (try_finally_rmtree_dir _ _ _ _ _ Hbody Hdir1) in Hrun.
    injection Hrun as -> _.
    rewrite Hfiles. split.
    - rewrite rmtree_keeps by (by apply apart_target_below).
      by eapply sync_dirs_adds_file.
    - apply rmtree_gone; [by eapply writes_wf|].
      unfold is_file. by rewrite Hdir1. }
  split; [apply Hmerge|]. intros Hapart Hrun. by apply Hmerge.
Qed.

End MergeCopier.

(** ** The [delete] command *)

(** A loop of checks that write nothing: it returns when every check
    returns, and raises what the first failing check raises. *)
Lemma for_each_check {A} (l : list A) (body : A → M unit) (w : world)
    (E : exn → Prop) :
  (∀ x, x ∈ l → body x w = Some (Return (), w)
                ∨ ∃ e, E e ∧ body x w = Some (Raise e, w)) →
  (for_each l body w = Some (Return (), w)
   ∧ ∀ x, x ∈ l → body x w = Some (Return (), w))
  ∨ (∃ e, E e ∧ for_each l body w = Some (Raise e, w)).
Proof.
  induction l as [|x l IH]; intros Hbody; simpl.
  { left. split; [done|]. by intros x ?%not_elem_of_nil. }
  rewrite bind_unfold.
  assert (x ∈ x :: l) as Hin by (by left).
  destruct (Hbody x Hin) as [Hx|(e & He & Hx)]; rewrite Hx.
  - destruct IH as [[Hl Hall]|?].
    + intros y Hy. apply Hbody. by right.
    + left. split; [done|]. intros y [->|?]%elem_of_cons; auto.
    + by right.
  - right. by exists e.
Qed.

Section DeleteProperties.

Variable scandir_order : list path → list path.
Variable CONF_SOURCE : path.

Hypothesis scandir_order_perm : ∀ l, scandir_order l ≡ₚ l.

Lemma refuse_child_pipelines_cases dirs w :
  (refuse_child_pipelines scandir_order dirs w = Some (Return (), w)
   ∧ ∀ dir sub py, dir ∈ dirs →
       sub ∈ glob_subdirs scandir_order (files w) dir →
       py ∈ glob_py scandir_order (files w) sub → False)
  ∨ (∃ e, child_pipeline_error e
          ∧ refuse_child_pipelines scandir_order dirs w = Some (Raise e, w)).
Proof.
  unfold refuse_child_pipelines.
  match goal with |- context [for_each dirs ?b] => set (body := b) end.
  destruct (for_each_check dirs body w child_pipeline_error)
    as [[Hret Hall]|?]; [|left|by right].
  - intros dir _. unfold body. rewrite bind_unfold. simpl.
    match goal with |- context [for_each _ ?b] => set (inner := b) end.
    destruct (for_each_check (glob_subdirs scandir_order (files w) dir)
                inner w child_pipeline_error) as [[Hret _]|?];
      [|by left|by right].
    intros sub _. unfold inner. rewrite bind_unfold. simpl.
    destruct (glob_py scandir_order (files w) sub) as [|py pys]; simpl;
      [by left|right].
    eexists. split; [by eexists _, _|]. by rewrite bind_unfold.
  - split; [done|]. intros dir sub py Hdir Hsub Hpy.
    specialize (Hall dir Hdir). unfold body in Hall.
    rewrite bind_unfold in Hall. simpl in Hall.
    match type of Hall with context [for_each _ ?b] => set (inner := b) in * end.
    destruct (for_each_check (glob_subdirs scandir_order (files w) dir)
                inner w (λ _, True)) as [[_ Hsubs]|(e & _ & He)].
    + intros sub' _. unfold inner. rewrite bind_unfold. simpl.
      destruct (glob_py scandir_order (files w) sub') as [|py' pys]; simpl;
        [by left|right].
      eexists. split; [done|]. by rewrite bind_unfold.
    + specialize (Hsubs sub Hsub). unfold inner in Hsubs.
      rewrite bind_unfold in Hsubs. simpl in Hsubs.
      destruct (glob_py scandir_order (files w) sub) as [|py' pys];
        [by apply not_elem_of_nil in Hpy|].
      simpl in Hsubs. by rewrite bind_unfold in Hsubs.
    + congruence.
Qed.

(** C9: when the directory of the pipeline, or that of its tests, has
    a Python file in some subdirectory, [delete] raises before it
    writes or prints anything.  When the configuration directory of the
    environment exists, the error is the one about the child pipeline;
    when it does not, the error is that the environment cannot be
    located, which is checked first. *)
Theorem delete_refuses_child_pipeline metadata pipeline_name env yes confirm w
    dir sub py :
  let env' := match env with Some (c :: e) => c :: e | _ => lit "base" end in
  let artifacts :=
    _get_pipeline_artifacts CONF_SOURCE metadata pipeline_name env' in
  dir = pipeline_dir artifacts ∨ dir = pipeline_tests artifacts →
  is_dir (files w) dir = true →
  below dir sub → is_dir (files w) sub = true →
  below sub py → is_file (files w) py = true →
  Str.endswith (name py) (lit ".py") = true →
  ∃ m, delete_pipeline scandir_order CONF_SOURCE metadata pipeline_name env
         yes confirm w
       = Some (Raise (KedroCliError m), w)
       ∧ (exists_ (files w)
            (env' :: joinpath (project_path metadata) CONF_SOURCE) = true →
          child_pipeline_error (KedroCliError m))
       ∧ (exists_ (files w)
            (env' :: joinpath (project_path metadata) CONF_SOURCE) = false →
          m = EnvNotFound env').
Proof.
  intros env' artifacts Hdir Hisdir Hsub Hsubdir Hpy Hpyfile Hname.
  unfold delete_pipeline. fold env' artifacts.
  rewrite bind_stat.
  destruct (exists_ (files w) (env' :: joinpath _ _)) eqn:Henv;
    cbv beta iota delta [negb].
  2:{ eexists. split; [done|]. split; done. }
  rewrite !bind_stat, bind_unfold.
  match goal with
  | |- context [refuse_child_pipelines _ ?d w] => set (dirs := d)
  end.
  assert (dir ∈ dirs) as Hin.
  { unfold dirs. apply list_elem_of_filter. split; [by rewrite Hisdir|].
    destruct Hdir as [->| ->]; [by left|right; by left]. }
  assert (sub ∈ glob_subdirs scandir_order (files w) dir) as Hinsub.
  { unfold glob_subdirs. rewrite Hisdir, scandir_order_perm.
    apply list_elem_of_filter. unfold is_dir in Hsubdir.
    destruct (files w !! sub) as [[]|] eqn:Hs; try done.
    split; [done|]. by apply elem_of_paths. }
  assert (py ∈ glob_py scandir_order (files w) sub) as Hinpy.
  { unfold glob_py. rewrite Hsubdir, scandir_order_perm.
    apply list_elem_of_filter. split; [split; [done|by rewrite Hname]|].
    apply elem_of_paths. unfold is_file in Hpyfile.
    by destruct (files w !! py). }
  destruct (refuse_child_pipelines_cases dirs w)
    as [[_ Hnone]|(e & (d & c & ->) & ->)].
  { exfalso. by eapply Hnone. }
  eexists. split; [done|]. split; [|done]. intros _. by exists d, c.
Qed.

(** *** Deleting *)

Lemma delete_artifacts_one a w :
  _delete_artifacts [a] w
  = match files w !! a with
    | Some Dir =>
        Some (Return (),
              World (filter (λ kv, ¬ a `suffix_of` kv.1) (files w))
                (terminal w ++ [Deleting a; Ok]))
    | Some (File _) =>
        Some (Return (),
              World (delete a (files w)) (terminal w ++ [Deleting a; Ok]))
    | None =>
        Some (Raise (KedroCliError (Caused (FileNotFoundError a))),
              World (files w) (terminal w ++ [Deleting a; Failed]))
    end.
Proof.
  unfold _delete_artifacts. simpl. rewrite !bind_unfold. simpl.
  rewrite !bind_unfold. simpl.
  unfold try_except. rewrite bind_unfold. simpl.
  unfold is_dir, syscall, rmtree, unlink.
  destruct (files w !! a) as [[]|] eqn:Ha; simpl; rewrite ?Ha; simpl;
    unfold mret, M_ret; try rewrite <-(app_assoc (terminal w)); done.
Qed.

Lemma delete_artifacts_cons a l w :
  _delete_artifacts (a :: l) w
  = match _delete_artifacts [a] w with
    | Some (Return _, w1) => _delete_artifacts l w1
    | r => r
    end.
Proof.
  change (a :: l) with ([a] ++ l). unfold _delete_artifacts.
  by rewrite for_each_app.
Qed.

Lemma delete_artifacts_step a l w r w' :
  _delete_artifacts (a :: l) w = Some (r, w') →
  (files w !! a = None ∧ files w' = files w
   ∧ r = Raise (KedroCliError (Caused (FileNotFoundError a))))
  ∨ ∃ w1, _delete_artifacts l w1 = Some (r, w')
          ∧ files w1 ⊆ files w
          ∧ files w1 !! a = None
          ∧ (∀ q, ¬ a `suffix_of` q → files w1 !! q = files w !! q)
          ∧ ((∃ data, files w !! a = Some (File data)
                      ∧ files w1 = delete a (files w))
             ∨ (∀ q, a `suffix_of` q → files w1 !! q = None)).
Proof.
  rewrite delete_artifacts_cons, delete_artifacts_one.
  destruct (files w !! a) as [[data|]|] eqn:Ha.
  - intros Hrest. right. eexists. split; [exact Hrest|]. simpl.
    split; [apply delete_subseteq|]. split; [apply lookup_delete_eq|].
    split; [|left; by exists data].
    intros q Hq. apply lookup_delete_ne. by intros ->.
  - intros Hrest. right. eexists. split; [exact Hrest|]. simpl.
    assert (∀ q, a `suffix_of` q →
              filter (λ kv : path * entry, ¬ a `suffix_of` kv.1) (files w) !! q
              = None) as Hgone.
    { intros q Hq. apply map_lookup_filter_None. right.
      intros e _ Hn. by apply Hn. }
    split; [apply map_filter_subseteq|]. split; [by apply Hgone|].
    split; [|by right].
    intros q Hq. destruct (files w !! q) as [e|] eqn:He.
    + by apply map_lookup_filter_Some_2.
    + apply map_lookup_filter_None_2. by left.
  - intros [= <- <-]. by left.
Qed.

(** The effect of [_delete_artifacts], on a filesystem that is part of
    [σ0]. *)
Lemma delete_artifacts_within σ0 artifacts w r w' :
  _delete_artifacts artifacts w = Some (r, w') →
  files w ⊆ σ0 →
  files w' ⊆ files w
  ∧ (∀ q, (∀ a, a ∈ artifacts → ¬ a `suffix_of` q) →
       files w' !! q = files w !! q)
  ∧ (r = Return () → ∀ a, a ∈ artifacts → files w' !! a = None)
  ∧ (r = Return () → wf σ0 → ∀ a, a ∈ artifacts → gone a (files w'))
  ∧ (∀ e, r = Raise e → ∃ c, e = KedroCliError (Caused c)).
Proof.
  revert w.
  induction artifacts as [|a l IH]; intros w Hrun Hσ0.
  { injection Hrun as <- <-. split; [done|]. split; [done|].
    split; [by intros _ a ?%not_elem_of_nil|].
    split; [by intros _ _ a ?%not_elem_of_nil|done]. }
  apply delete_artifacts_step in Hrun
    as [(Ha & -> & ->)|(w1 & Hrest & Hsub & Hnone & Hframe & Hbelow)].
  { split; [done|]. split; [done|]. split; [done|]. split; [done|].
    intros e [= <-]. by eexists. }
  destruct (IH _ Hrest) as (Hsub' & Hframe' & Hnone' & Hgone' & Herr');
    [by etrans|].
  split; [by etrans|]. split; [|split; [|split; [|done]]].
  - intros q Hq. rewrite Hframe', Hframe; [done|..].
    + apply Hq. by left.
    + intros a' Ha'. apply Hq. by right.
  - intros Hr a' [->|Ha']%elem_of_cons; [|by apply Hnone'].
    eapply lookup_weaken_None; [exact Hnone|done].
  - intros Hr Hwf a' [->|Ha']%elem_of_cons; [|by apply Hgone'].
    intros q Hq. eapply lookup_weaken_None; [|exact Hsub'].
    destruct Hbelow as [(data & Hfile & ->)|Hbelow]; [|by apply Hbelow].
    destruct (decide (q = a)) as [->|Hne]; [apply lookup_delete_eq|].
    rewrite lookup_delete_ne by done.
    eapply lookup_weaken_None; [|exact Hσ0].
    eapply wf_below_file; [done| |by split].
    by eapply lookup_weaken.
Qed.

(** X10: what [_delete_artifacts] does, whether it returns or raises.
    It only removes: what is left is as it was, and whatever is neither
    an artifact nor below one is left.  When it returns, no artifact
    is there any more, and on a filesystem where every entry sits in a
    directory nothing is left below one either.  What it raises is a
    [KedroCliError] made from the error of the operating system. *)
Theorem delete_artifacts_outcome artifacts w r w' :
  _delete_artifacts artifacts w = Some (r, w') →
  files w' ⊆ files w
  ∧ (∀ q, (∀ a, a ∈ artifacts → ¬ a `suffix_of` q) →
       files w' !! q = files w !! q)
  ∧ (r = Return () → ∀ a, a ∈ artifacts → files w' !! a = None)
  ∧ (r = Return () → wf (files w) → ∀ a, a ∈ artifacts → gone a (files w'))
  ∧ (∀ e, r = Raise e → ∃ c, e = KedroCliError (Caused c)).
Proof. intros Hrun. by apply (delete_artifacts_within (files w)). Qed.

Lemma conf_files_eq conf conf_name :
  (confdir ← [lit "parameters"; lit "catalog"];
   filepath ← [ [confdir ++ lit "_" ++ conf_name ++ lit ".yml"];
                [conf_name ++ lit ".yml"; confdir] ];
   [joinpath conf filepath])
  = conf_files conf conf_name.
Proof. reflexivity. Qed.

Lemma echo_deletion_warning_files directories fs w :
  ∃ t, _echo_deletion_warning directories fs w
       = Some (Return (), World (files w) t).
Proof.
  unfold _echo_deletion_warning. destruct w as [σ t].
  destruct directories, fs; by eexists.
Qed.

Lemma delete_confirmed (l dirs fs : list path) (pipeline_name : str)
    (registry : path) (yes confirm : bool) w r w' :
  ((if negb yes then
      _echo_deletion_warning dirs fs;;
      echo Blank;;
      answer ← mret confirm;
      echo Blank;;
      mret answer
    else mret yes) ≫= λ yes0 : bool,
      if negb yes0 then raise (KedroCliError DeletionAborted)
      else
        _delete_artifacts l;;
        echo (Deleted pipeline_name);;
        echo (RegistryReminder pipeline_name registry)) w = Some (r, w') →
  (yes = false ∧ confirm = false
   ∧ r = Raise (KedroCliError DeletionAborted) ∧ files w' = files w)
  ∨ ((yes = true ∨ confirm = true)
     ∧ ∃ w1 w2, files w1 = files w
         ∧ _delete_artifacts l w1 = Some (r, w2)
         ∧ files w' = files w2).
Proof.
  assert (∀ w1, files w1 = files w →
            (_delete_artifacts l;;
             echo (Deleted pipeline_name);;
             echo (RegistryReminder pipeline_name registry)) w1
            = Some (r, w') →
            ∃ w2, _delete_artifacts l w1 = Some (r, w2)
                  ∧ files w' = files w2) as Hdel.
  { intros w1 Hw1. rewrite bind_unfold.
    destruct (_delete_artifacts l w1) as [[[[]|e] w2]|]; [| |done].
    - rewrite bind_unfold. simpl. intros [= <- <-]. by exists w2.
    - intros [= <- <-]. by exists w2. }
  rewrite bind_unfold. destruct yes; simpl.
  { intros Hrun. right. split; [by left|]. exists w.
    destruct (Hdel w eq_refl Hrun) as (w2 & ? & ?). by exists w2. }
  rewrite bind_unfold.
  destruct (echo_deletion_warning_files dirs fs w) as [t ->].
  rewrite !bind_unfold. simpl. destruct confirm; simpl.
  - intros Hrun. right. split; [by right|].
    match type of Hrun with
    | _ ?w0 = _ =>
        destruct (Hdel w0 eq_refl Hrun) as (w2 & ? & ?); by exists w0, w2
    end.
  - intros [= <- <-]. by left.
Qed.

Lemma delete_pipeline_cases metadata pipeline_name env yes confirm w r w' :
  let env' := match env with Some (c :: e) => c :: e | _ => lit "base" end in
  let artifacts :=
    _get_pipeline_artifacts CONF_SOURCE metadata pipeline_name env' in
  let files_to_delete :=
    filter (λ f, is_file (files w) f)
      (conf_files (pipeline_conf artifacts)
         (_split_on_last_dot pipeline_name).2) in
  let dirs_to_delete :=
    filter (λ d, is_dir (files w) d)
      [pipeline_dir artifacts; pipeline_tests artifacts] in
  delete_pipeline scandir_order CONF_SOURCE metadata pipeline_name env
    yes confirm w = Some (r, w') →
  (exists_ (files w) (env' :: joinpath (project_path metadata) CONF_SOURCE)
   = false
   ∧ r = Raise (KedroCliError (EnvNotFound env')) ∧ w' = w)
  ∨ (exists_ (files w) (env' :: joinpath (project_path metadata) CONF_SOURCE)
     = true
     ∧ ((∃ e, child_pipeline_error e ∧ r = Raise e ∧ w' = w)
        ∨ (files_to_delete = [] ∧ dirs_to_delete = []
           ∧ r = Raise (KedroCliError (PipelineNotFound pipeline_name))
           ∧ w' = w)
        ∨ (yes = false ∧ confirm = false
           ∧ r = Raise (KedroCliError DeletionAborted) ∧ files w' = files w)
        ∨ ((yes = true ∨ confirm = true)
           ∧ files_to_delete ++ dirs_to_delete ≠ []
           ∧ ∃ w1 w2, files w1 = files w
               ∧ _delete_artifacts (files_to_delete ++ dirs_to_delete) w1
                 = Some (r, w2)
               ∧ files w' = files w2))).
Proof.
  intros env' artifacts files_to_delete dirs_to_delete.
  unfold delete_pipeline. fold env' artifacts.
  rewrite bind_stat.
  destruct (exists_ (files w) (env' :: joinpath _ _)) eqn:Henv;
    cbv beta iota delta [negb].
  2:{ intros [= <- <-]. by left. }
  rewrite !bind_stat, bind_unfold. rewrite conf_files_eq.
  fold files_to_delete dirs_to_delete.
  intros Hrun. right. split; [done|]. revert Hrun.
  destruct (refuse_child_pipelines_cases dirs_to_delete w)
    as [[-> _]|(e & He & ->)].
  2:{ intros [= <- <-]. left. by exists e. }
  destruct files_to_delete as [|f fs] eqn:Hf;
    [destruct dirs_to_delete as [|d ds] eqn:Hd|].
  { intros [= <- <-]. right. left. done. }
  all: intros Hrun; apply delete_confirmed in Hrun; right; right;
    destruct Hrun as [?|[? ?]]; [by left|right; split; [done|]; by split].
Qed.

(** X11: what [delete] can do to the project, whatever its outcome.
    It only removes, and only at the two directories of the pipeline,
    the four configuration files of its name, and below them.  Without
    [--yes], when the question is answered with no, it removes nothing
    and raises.  When the directory of the environment is missing the
    error says so and nothing is removed or printed. *)
Theorem delete_pipeline_removes_only metadata pipeline_name env yes confirm
    w r w' :
  let env' := match env with Some (c :: e) => c :: e | _ => lit "base" end in
  let artifacts :=
    _get_pipeline_artifacts CONF_SOURCE metadata pipeline_name env' in
  let candidates :=
    conf_files (pipeline_conf artifacts) (_split_on_last_dot pipeline_name).2
    ++ [pipeline_dir artifacts; pipeline_tests artifacts] in
  delete_pipeline scandir_order CONF_SOURCE metadata pipeline_name env
    yes confirm w = Some (r, w') →
  files w' ⊆ files w
  ∧ (∀ q, (∀ a, a ∈ candidates → ¬ a `suffix_of` q) →
       files w' !! q = files w !! q)
  ∧ (yes = false → confirm = false →
     files w' = files w ∧ ∃ e, r = Raise e)
  ∧ (exists_ (files w) (env' :: joinpath (project_path metadata) CONF_SOURCE)
     = false →
     r = Raise (KedroCliError (EnvNotFound env')) ∧ w' = w).
Proof.
  intros env' artifacts candidates Hrun.
  apply delete_pipeline_cases in Hrun. fold env' artifacts in Hrun.
  destruct Hrun as [(Henv & -> & ->)|[Henv Hrun]].
  { split; [done|]. split; [done|]. split; [by eauto|]. done. }
  rewrite Henv.
  destruct Hrun
    as [(e & (d & c & ->) & -> & ->)|
        [(_ & _ & -> & ->)|[(-> & -> & -> & Hsame)|
         (Hyes & _ & w1 & w2 & Hw1 & Hdel & Hw2)]]].
  - split; [done|]. split; [done|]. split; [by eauto|]. done.
  - split; [done|]. split; [done|]. split; [by eauto|]. done.
  - rewrite Hsame. split; [done|]. split; [done|]. split; [by eauto|].
    done.
  - apply (delete_artifacts_within (files w1)) in Hdel
      as (Hsub & Hframe & _); [|done].
    rewrite Hw2, <-Hw1.
    split; [done|]. split; [|split; [|done]].
    + intros q Hq. apply Hframe. intros a Ha. apply Hq.
      unfold candidates.
      apply elem_of_app in Ha as [[_ Ha]%list_elem_of_filter|
                                  [_ Ha]%list_elem_of_filter];
        apply elem_of_app; [by left|by right].
    + intros -> ->. by destruct Hyes.
Qed.

(** X12: what a [delete] that returns has done.  It was given [--yes]
    or a confirmation; one of the two directories or four configuration
    files was there; afterwards none of the four is a file and neither
    of the two is a directory, and on a filesystem where every entry
    sits in a directory nothing is left of the directories it found. *)
Theorem delete_pipeline_deleted metadata pipeline_name env yes confirm w w' :
  let env' := match env with Some (c :: e) => c :: e | _ => lit "base" end in
  let artifacts :=
    _get_pipeline_artifacts CONF_SOURCE metadata pipeline_name env' in
  let confs :=
    conf_files (pipeline_conf artifacts)
      (_split_on_last_dot pipeline_name).2 in
  let dirs := [pipeline_dir artifacts; pipeline_tests artifacts] in
  delete_pipeline scandir_order CONF_SOURCE metadata pipeline_name env
    yes confirm w = Some (Return (), w') →
  (yes = true ∨ confirm = true)
  ∧ ((∃ c, c ∈ confs ∧ is_file (files w) c = true)
     ∨ (∃ d, d ∈ dirs ∧ is_dir (files w) d = true))
  ∧ (∀ c, c ∈ confs → is_file (files w') c = false)
  ∧ (∀ d, d ∈ dirs → is_dir (files w') d = false)
  ∧ (wf (files w) →
     ∀ d, d ∈ dirs → is_dir (files w) d = true → gone d (files w')).
Proof.
  intros env' artifacts confs dirs Hrun.
  apply delete_pipeline_cases in Hrun. fold env' artifacts confs dirs in Hrun.
  destruct Hrun as [(_ & ? & _)|[_ Hrun]]; [done|].
  destruct Hrun
    as [(e & _ & ? & _)|[(_ & _ & ? & _)|[(_ & _ & ? & _)|
         (Hyes & Hne & w1 & w2 & Hw1 & Hdel & Hw2)]]]; [done..|].
  apply (delete_artifacts_within (files w1)) in Hdel
    as (Hsub & _ & Hnone & Hgone & _); [|done].
  rewrite Hw1 in Hsub, Hgone. rewrite <-Hw2 in Hsub, Hnone, Hgone.
  split; [done|]. split; [|split; [|split]].
  - destruct (filter (λ f, is_file (files w) f) confs) as [|c cs] eqn:Hc.
    + destruct (filter (λ d, is_dir (files w) d) dirs) as [|d ds] eqn:Hd;
        [done|].
      right. exists d.
      assert (d ∈ filter (λ d, is_dir (files w) d) dirs) as Hin
        by (rewrite Hd; by left).
      apply list_elem_of_filter in Hin as [Hdir ?].
      split; [done|]. by apply Is_true_true.
    + left. exists c.
      assert (c ∈ filter (λ f, is_file (files w) f) confs) as Hin
        by (rewrite Hc; by left).
      apply list_elem_of_filter in Hin as [Hfile ?].
      split; [done|]. by apply Is_true_true.
  - intros c Hc. destruct (is_file (files w) c) eqn:Hfile.
    + unfold is_file. rewrite Hnone; [done..|].
      apply elem_of_app. left. apply list_elem_of_filter.
      split; [by rewrite Hfile|done].
    + unfold is_file in *.
      destruct (files w' !! c) as [[data|]|] eqn:Hc'; [|done..].
      by rewrite (lookup_weaken _ _ _ _ Hc' Hsub) in Hfile.
  - intros d Hd. destruct (is_dir (files w) d) eqn:Hdir.
    + unfold is_dir. rewrite Hnone; [done..|].
      apply elem_of_app. right. apply list_elem_of_filter.
      split; [by rewrite Hdir|done].
    + unfold is_dir in *.
      destruct (files w' !! d) as [[data|]|] eqn:Hd'; [done| |done].
      by rewrite (lookup_weaken _ _ _ _ Hd' Hsub) in Hdir.
  - intros Hwf d Hd Hdir. apply Hgone; [done..|].
    apply elem_of_app. right. apply list_elem_of_filter.
    split; [by rewrite Hdir|done].
Qed.

End DeleteProperties.

(** ** Where the artifacts of a name are *)

Lemma split_app_sep sep a s :
  sep ∉ a → Str.split sep (a ++ sep :: s) = a :: Str.split sep s.
Proof.
  induction a as [|c a IH]; intros Ha; simpl.
  - by rewrite N.eqb_refl.
  - apply not_elem_of_cons in Ha as [Hc Ha].
    rewrite (proj2 (N.eqb_neq c sep)) by congruence. by rewrite IH.
Qed.

Lemma split_has_part sep s c :
  c ∈ s → c ≠ sep → ∃ part, part ∈ Str.split sep s ∧ part ≠ [].
Proof.
  intros Hc Hne. induction s as [|c' s IH]; [by apply elem_of_nil in Hc|].
  simpl. destruct (c' =? sep)%N eqn:Hsep.
  - apply N.eqb_eq in Hsep as ->.
    apply elem_of_cons in Hc as [->|Hc]; [done|].
    destruct (IH Hc) as (part & ? & ?). exists part. split; [by right|done].
  - destruct (Str.split sep s) as [|part parts];
      eexists; (split; [by left|done]).
Qed.

Lemma split_parts sep s part :
  part ∈ Str.split sep s → (sep ∉ part) ∧ ∀ c, c ∈ part → c ∈ s.
Proof.
  revert part. induction s as [|c s IH]; intros part; simpl.
  { intros ->%list_elem_of_singleton.
    split; [apply not_elem_of_nil|done]. }
  destruct (c =? sep)%N eqn:Hsep.
  - intros [->|Hpart]%elem_of_cons.
    + split; [apply not_elem_of_nil|by intros ? ?%elem_of_nil].
    + destruct (IH _ Hpart) as [? Hin]. split; [done|].
      intros c' Hc'. right. by apply Hin.
  - apply N.eqb_neq in Hsep.
    destruct (Str.split sep s) as [|part0 parts].
    + intros ->%list_elem_of_singleton. split.
      * by intros [->|?%elem_of_nil]%elem_of_cons.
      * intros c' [->|?%elem_of_nil]%elem_of_cons; [by left|done].
    + intros [->|Hpart]%elem_of_cons.
      * destruct (IH part0) as [Hno Hin]; [by left|]. split.
        -- by intros [->|?]%elem_of_cons.
        -- intros c' [->|?]%elem_of_cons; [by left|right; by apply Hin].
      * destruct (IH part) as [Hno Hin]; [by right|]. split; [done|].
        intros c' Hc'. right. by apply Hin.
Qed.

Lemma Path_cons base part parts :
  part ≠ [] → Path base (part :: parts) = Path (part :: base) parts.
Proof. by destruct part. Qed.

Lemma Path_parts base parts :
  Path base parts = reverse (filter (λ part, part ≠ []) parts) ++ base.
Proof.
  revert base. induction parts as [|part parts IH]; intros base; [done|].
  destruct part as [|c part].
  - rewrite filter_cons_False by (by intros ?). apply IH.
  - rewrite Path_cons, filter_cons_True, reverse_cons, <-app_assoc by done.
    apply IH.
Qed.

Section Artifacts.

Variable unicode_isalnum : char → bool.
Variable CONF_SOURCE : path.

(** X13: where [delete] looks for a name without a slash, and what a
    name that passed the check of the [name] argument can reach.  The
    two directories are the parts of the name between its dots, the
    empty ones left out, under [<package>/pipelines] and under
    [tests/pipelines] beside the package; each part is one component of
    the path.  A name that passed the check gives directories strictly
    below these two, but for the empty name, which passes unchecked and
    gives these two directories themselves. *)
Theorem validated_name_artifacts metadata value env :
  let artifacts := _get_pipeline_artifacts CONF_SOURCE metadata value env in
  let pipelines :=
    lit "pipelines" :: package_name metadata :: source_dir metadata in
  let tests := lit "pipelines" :: lit "tests" :: source_dir metadata in
  let parts := reverse (filter (λ part, part ≠ []) (Str.split dot value)) in
  slash ∉ value →
  pipeline_dir artifacts = parts ++ pipelines
  ∧ pipeline_tests artifacts = parts ++ tests
  ∧ pipeline_conf artifacts
    = env :: joinpath (project_path metadata) CONF_SOURCE
  ∧ Forall (λ part, part ≠ [] ∧ (dot ∉ part) ∧ (slash ∉ part)) parts
  ∧ (_check_pipeline_name unicode_isalnum value = Return value →
     (value = [] ∧ pipeline_dir artifacts = pipelines
      ∧ pipeline_tests artifacts = tests)
     ∨ (value ≠ [] ∧ below pipelines (pipeline_dir artifacts)
        ∧ below tests (pipeline_tests artifacts))).
Proof.
  intros artifacts pipelines tests parts Hslash.
  assert (pipeline_dir artifacts = parts ++ pipelines
          ∧ pipeline_tests artifacts = parts ++ tests
          ∧ pipeline_conf artifacts
            = env :: joinpath (project_path metadata) CONF_SOURCE)
    as (Hdir & Htests & Hconf).
  { unfold artifacts, _get_pipeline_artifacts, _get_artifacts_to_package.
    cbn [pipeline_dir pipeline_tests pipeline_conf parent tail].
    assert (lit "pipelines." ++ value = lit "pipelines" ++ dot :: value)
      as -> by reflexivity.
    rewrite split_app_sep
      by (apply (bool_decide_unpack _); vm_compute; exact I).
    split; [|split; [|done]]; by rewrite !Path_cons, Path_parts. }
  do 3 (split; [done|]). split.
  { apply Forall_forall. intros part Hpart. unfold parts in Hpart.
    apply elem_of_reverse, list_elem_of_filter in Hpart as [Hne Hpart].
    apply split_parts in Hpart as [Hdot Hin]. split; [done|].
    split; [done|]. intros Hs. by apply Hslash, Hin. }
  rewrite Hdir, Htests.
  intros [->|Hdotted]%check_pipeline_name_dotted; [left; by split|right].
  destruct Hdotted as (c0 & folders & last & tl & Hvalue & Hc0 & _ & _).
  split; [by rewrite Hvalue|].
  assert (parts ≠ []) as Hparts.
  { destruct (split_has_part dot value c0) as (part & Hpart & Hne).
    - rewrite Hvalue. by left.
    - intros ->. vm_compute in Hc0. discriminate Hc0.
    - intros Hnil.
      assert (part ∈ parts) as Hin
        by (apply elem_of_reverse, list_elem_of_filter; by split).
      rewrite Hnil in Hin. by apply elem_of_nil in Hin. }
  split; (split; [by apply suffix_app_r|]); intros Heq;
    apply (f_equal length) in Heq; rewrite length_app in Heq;
    destruct parts; [done|simpl in Heq; lia|done|simpl in Heq; lia].
Qed.

End Artifacts.

(** ** The statements at concrete inputs *)

Lemma alphabetical_perm l : alphabetical l ≡ₚ l.
Proof. apply merge_sort_Permutation. Qed.



(** C2: with [overwrite] on, the file [a.txt] at the top is replaced,
    and the file [sub/b.txt] one level down is skipped and keeps its
    bytes. *)
Theorem overwrite_lost_below_top :
  ∃ w', run never2 3 S_ T_ true nested_collision = Some (Return (), w')
        ∧ files w' !! (T_ // "a.txt") = Some (File "1")
        ∧ nested_collision !! (S_ // "sub" // "b.txt") = Some (File "2")
        ∧ files w' !! (T_ // "sub" // "b.txt") = Some (File "0")
        ∧ terminal w'
          = [Creating [] (T_ // "a.txt"); Ok;
             Creating [] (T_ // "sub"); Blank;
             Creating (lit "  ") (T_ // "sub" // "b.txt"); Skipped].
Proof. eexists. vm_compute. done. Qed.

(** C4: a name that ends in a newline passes, and the dotted name
    [a.b] is refused. *)
Theorem pkg_name_newline_accepted (unicode_isalnum : char → bool) :
  _assert_pkg_name_ok unicode_isalnum (lit "ab" ++ [newline]) = Return ()
  ∧ _assert_pkg_name_ok unicode_isalnum (lit "a.b")
    = Raise (KedroCliError (OnlyWordCharacters (lit "a.b"))).
Proof. split; reflexivity. Qed.

Lemma sync_dirs_missing_source_witness :
  is_dir scenario (root // "nowhere") = false
  ∧ is_file scenario (root // "nowhere") = false
  ∧ run never2 1 (root // "nowhere") T_ false scenario
    = Some (Return (), World scenario []).
Proof.
  split; [reflexivity|]. split; [reflexivity|].
  exact (sync_dirs_missing_source alphabetical never1 never2 0
           (root // "nowhere") T_ [] false (World scenario [])
           eq_refl eq_refl).
Defined.

Lemma nested_failure_fails :
  fails_in alphabetical never1 g_denied 1 (S_ // "d") (T_ // "d") (lit "  ")
    false
    (World (files nested_failure_done)
       (terminal nested_failure_done ++ [Creating [] (T_ // "d"); Blank]))
    (OSError (PermissionError (T_ // "d" // "g.txt")))
    nested_failure_left.
Proof.
  refine (fails_file alphabetical never1 g_denied 0 (S_ // "d") (T_ // "d")
            (lit "  ") false _ [] (S_ // "d" // "g.txt") []
            (World (files nested_failure_done)
               (terminal nested_failure_done
                ++ [Creating [] (T_ // "d"); Blank]))
            _ (<[T_ // "d" := Dir]> (files nested_failure_done)) _ _ _ _ _);
    vm_compute; reflexivity.
Qed.

Lemma sync_dirs_failure_aborts_witness :
  run g_denied 2 S_ T_ false nested_failure
  = Some (Raise (OSError (PermissionError (T_ // "d" // "g.txt"))),
          nested_failure_left)
  ∧ files nested_failure_left !! (T_ // "a.txt") = Some (File "1")
  ∧ files nested_failure_left !! (T_ // "z.txt") = None.
Proof.
  destruct (sync_dirs_failure_aborts alphabetical never1 g_denied
              alphabetical_perm 1 S_ T_ [] false (World nested_failure [])
              [S_ // "a.txt"] (S_ // "d") [S_ // "z.txt"]
              nested_failure_done
              (OSError (PermissionError (T_ // "d" // "g.txt")))
              nested_failure_left)
    as (Hrun & Hkept & Hsiblings).
  - vm_compute. reflexivity.
  - vm_compute. reflexivity.
  - vm_compute. reflexivity.
  - right. split; [vm_compute; reflexivity|exact nested_failure_fails].
  - split; [exact Hrun|]. split.
    + eapply lookup_weaken; [|apply Hkept].
      * vm_compute. reflexivity.
      * apply (bool_decide_unpack _). vm_compute. exact I.
    + etrans; [apply (Hsiblings (S_ // "z.txt"))|].
      * apply list_elem_of_singleton. reflexivity.
      * reflexivity.
      * vm_compute. reflexivity.
Defined.

Lemma scratch_removed_witness :
  let tests_target := root // "src" // "tests" // "pipelines" // "p" in
  (∃ r w',
     _copy_pipeline_tests alphabetical never1 never2 10 generated tests_target
       (World project []) = Some (r, w')
     ∧ gone (generated // "tests") (files w'))
  ∧ (∃ r w',
       _copy_pipeline_configs alphabetical never1 never2 10 generated
         (root // "conf") false (lit "base") (World project [])
       = Some (r, w')
       ∧ gone (generated // "config") (files w')).
Proof.
  intros tests_target.
  assert (wf (files (World project []))) as Hwf
    by (apply (bool_decide_unpack _); vm_compute; exact I).
  destruct (scratch_removed alphabetical never1 never2 alphabetical_perm
              10 generated tests_target (root // "conf") false (lit "base")
              (World project []) Hwf) as [Htests Hconfigs].
  split.
  - destruct (Htests eq_refl) as [Hgone Hsome].
    destruct Hsome as [[r w'] Hrun].
    + apply (bool_decide_unpack _). vm_compute. exact I.
    + apply (bool_decide_unpack _). vm_compute. exact I.
    + exists r, w'. split; [exact Hrun|]. exact (Hgone r w' Hrun).
  - destruct (Hconfigs eq_refl) as [Hgone Hsome].
    destruct Hsome as [[r w'] Hrun].
    + right. apply (bool_decide_unpack _). vm_compute. exact I.
    + apply (bool_decide_unpack _). vm_compute. exact I.
    + exists r, w'. split; [exact Hrun|]. exact (Hgone r w' Hrun).
Defined.

Lemma delete_refuses_child_pipeline_witness :
  ∃ m, delete_pipeline alphabetical (root // "conf") metadata0 (lit "old")
         None true false (World project [])
       = Some (Raise (KedroCliError m), World project [])
       ∧ child_pipeline_error (KedroCliError m).
Proof.
  destruct (delete_refuses_child_pipeline alphabetical (root // "conf")
              alphabetical_perm metadata0 (lit "old") None true false
              (World project [])
              (pkg // "pipelines" // "old")
              (pkg // "pipelines" // "old" // "inner")
              (pkg // "pipelines" // "old" // "inner" // "pipeline.py"))
    as (m & Hrun & Herr & _).
  - left. reflexivity.
  - reflexivity.
  - apply (bool_decide_unpack _). vm_compute. exact I.
  - reflexivity.
  - apply (bool_decide_unpack _). vm_compute. exact I.
  - reflexivity.
  - reflexivity.
  - exists m. split; [exact Hrun|]. apply Herr. reflexivity.
Defined.

(** The pipeline [old] has a Python file in a subdirectory, and the
    environment [prod] has no configuration directory: [delete] raises
    that the environment cannot be located, not the error about the
    child pipeline. *)
Lemma delete_missing_env_counterexample :
  is_dir project (pkg // "pipelines" // "old") = true
  ∧ is_dir project (pkg // "pipelines" // "old" // "inner") = true
  ∧ is_file project (pkg // "pipelines" // "old" // "inner" // "pipeline.py")
    = true
  ∧ delete_pipeline alphabetical (root // "conf") metadata0 (lit "old")
      (Some (lit "prod")) true false (World project [])
    = Some (Raise (KedroCliError (EnvNotFound (lit "prod"))),
            World project [])
  ∧ ¬ child_pipeline_error (KedroCliError (EnvNotFound (lit "prod"))).
Proof.
  split; [reflexivity|]. split; [reflexivity|]. split; [reflexivity|].
  split; [vm_compute; reflexivity|].
  intros (d & c & Heq). discriminate Heq.
Qed.

Lemma nothing_below_check (σ : gmap path entry) (target : path) :
  map_Forall (λ q _, ¬ below target q) σ →
  ∀ q, below target q → σ !! q = None.
Proof.
  intros Hall q Hq. destruct (σ !! q) as [e|] eqn:He; [|done].
  by destruct (Hall q e He).
Qed.

Lemma no_file_above_check (σ : gmap path entry) (target : path) :
  map_Forall (λ q e, q `suffix_of` target → e = Dir) σ →
  ∀ q, q `suffix_of` target → is_file σ q = false.
Proof.
  intros Hall q Hq. unfold is_file.
  destruct (σ !! q) as [e|] eqn:He; [|done].
  by rewrite (Hall q e He Hq).
Qed.

(** C3 as stated fails: the empty directory of the source is not made
    in the target, nor is the target. *)
Lemma empty_directory_not_copied :
  empty_subdirectory !! (S_ // "empty") = Some Dir
  ∧ empty_subdirectory !! T_ = None
  ∧ ∃ w', run never2 3 S_ T_ false empty_subdirectory = Some (Return (), w')
          ∧ files w' !! (T_ // "empty") = None
          ∧ files w' !! T_ = None.
Proof. split; [done|]. split; [done|]. eexists. vm_compute. done. Qed.

Lemma merge_into_empty_target_witness :
  ∃ w', run never2 4 S_ T_ false nested_source = Some (Return (), w')
        ∧ files w' !! (T_ // "a.txt") = Some (File "1")
        ∧ files w' !! (T_ // "sub" // "b.txt") = Some (File "2")
        ∧ files w' !! (T_ // "sub") = Some Dir
        ∧ files w' !! (T_ // "empty") = None
        ∧ files w' !! T_ = Some Dir.
Proof.
  destruct (merge_into_empty_target alphabetical never1 never2
              alphabetical_perm (λ _, eq_refl) (λ _ _, eq_refl)
              4 S_ T_ [] false (World nested_source []))
    as (w' & Hrun & Hbelow & Habove & _).
  - apply (bool_decide_unpack _). vm_compute. exact I.
  - reflexivity.
  - apply (bool_decide_unpack _). vm_compute. exact I.
  - apply nothing_below_check, (bool_decide_unpack _). vm_compute. exact I.
  - apply no_file_above_check, (bool_decide_unpack _). vm_compute. exact I.
  - apply (bool_decide_unpack _). vm_compute. exact I.
  - exists w'. split; [exact Hrun|].
    split; [exact (Hbelow [lit "a.txt"] ltac:(discriminate))|].
    split; [exact (Hbelow [lit "b.txt"; lit "sub"] ltac:(discriminate))|].
    split; [exact (Hbelow [lit "sub"] ltac:(discriminate))|].
    split; [exact (Hbelow [lit "empty"] ltac:(discriminate))|].
    exact (Habove T_ (reflexivity _)).
Defined.

(** C5 as stated fails: with [overwrite] on, the call raises in the
    directory [d], listed before [f.txt], and [f.txt] keeps its
    bytes. *)
Lemma overwrite_does_not_reach_f :
  dir_meets_file_and_f !! (S_ // "f.txt") = Some (File "1")
  ∧ dir_meets_file_and_f !! (T_ // "f.txt") = Some (File "0")
  ∧ ∃ w', run never2 3 S_ T_ true dir_meets_file_and_f
          = Some (Raise (OSError (FileExistsError (T_ // "d"))), w')
          ∧ files w' !! (T_ // "f.txt") = Some (File "0").
Proof. split; [done|]. split; [done|]. eexists. vm_compute. done. Qed.

Lemma top_level_collision_witness :
  (∃ r w', run never2 4 S_ T_ false scenario = Some (r, w')
           ∧ files w' !! (T_ // "a.txt") = Some (File "0"))
  ∧ (∃ w', run never2 4 S_ T_ true scenario = Some (Return (), w')
           ∧ files w' !! (T_ // "a.txt") = Some (File "1")).
Proof.
  destruct (top_level_collision alphabetical never1 never2 alphabetical_perm
              4 S_ T_ [] (lit "a.txt") "1" "0" (World scenario []))
    as (Hoff & Hon & Hsome).
  - apply (bool_decide_unpack _). vm_compute. exact I.
  - reflexivity.
  - reflexivity.
  - split.
    + destruct (Hsome ltac:(apply (bool_decide_unpack _); vm_compute; exact I)
                      ltac:(apply (bool_decide_unpack _); vm_compute; exact I)
                      false) as [[r w'] Hrun].
      exists r, w'. split; [exact Hrun|]. exact (Hoff r w' Hrun).
    + eexists. split; [vm_compute; reflexivity|].
      apply Hon. vm_compute. reflexivity.
Defined.

(** ** The further properties at concrete inputs *)

Lemma no_file_between_check (σ : gmap path entry) (target r : path) :
  map_Forall (λ q e, target `suffix_of` q → q `suffix_of` r ++ target →
                     e = Dir) σ →
  ∀ r2, r2 `suffix_of` r → r2 ≠ [] → is_file σ (r2 ++ target) = false.
Proof.
  intros Hall r2 Hr2 _. unfold is_file.
  destruct (σ !! (r2 ++ target)) as [e|] eqn:He; [|done].
  rewrite (Hall _ _ He); [done|by apply suffix_app_r|by apply suffix_app].
Qed.

Lemma split_on_last_dot_join_witness :
  (dot ∉ lit "pipeline")
  ∧ _split_on_last_dot (lit "path.to" ++ dot :: lit "pipeline")
    = (lit "path.to", lit "pipeline").
Proof.
  assert (dot ∉ lit "pipeline") as Hlast
    by (apply (bool_decide_unpack _); vm_compute; exact I).
  split; [exact Hlast|].
  exact (split_on_last_dot_join (lit "path.to") (lit "pipeline") Hlast).
Defined.

Lemma sync_dirs_only_adds_witness :
  ∃ r w', run never2 5 S_ T_ true scenario = Some (r, w')
          ∧ (∀ p, is_Some (scenario !! p) → is_Some (files w' !! p))
          ∧ (∀ p, S_ `suffix_of` p → files w' !! p = scenario !! p)
          ∧ wf (files w').
Proof.
  assert (match run never2 5 S_ T_ true scenario with
          | Some _ => true
          | None => false
          end = true) as Hsome by (vm_compute; reflexivity).
  destruct (run never2 5 S_ T_ true scenario) as [[r w']|] eqn:Hrun;
    [|discriminate Hsome].
  exists r, w'. split; [reflexivity|].
  destruct (sync_dirs_only_adds alphabetical never1 never2 5 S_ T_ [] true
              (World scenario []) r w' Hrun)
    as (Hpresent & _ & _ & Hsource & Hwf).
  split; [exact Hpresent|]. split.
  - apply Hsource. apply (bool_decide_unpack _). vm_compute. exact I.
  - apply Hwf. apply (bool_decide_unpack _). vm_compute. exact I.
Defined.

Lemma sync_dirs_replaces_only_top_level_witness :
  ∃ r w', run never2 5 S_ T_ true nested_collision = Some (r, w')
          ∧ files w' !! (T_ // "sub" // "b.txt") = Some (File "0").
Proof.
  assert (match run never2 5 S_ T_ true nested_collision with
          | Some _ => true
          | None => false
          end = true) as Hsome by (vm_compute; reflexivity).
  destruct (run never2 5 S_ T_ true nested_collision) as [[r w']|] eqn:Hrun;
    [|discriminate Hsome].
  exists r, w'. split; [reflexivity|].
  assert (wf (files (World nested_collision []))) as Hwf
    by (apply (bool_decide_unpack _); vm_compute; exact I).
  assert (files (World nested_collision []) !! (T_ // "sub" // "b.txt")
          = Some (File "0")) as Hold by (vm_compute; reflexivity).
  destruct (sync_dirs_replaces_only_top_level alphabetical never1 never2
              alphabetical_perm 5 S_ T_ [] true (World nested_collision [])
              r w' Hwf Hrun (T_ // "sub" // "b.txt") (File "0") Hold)
    as [Hkept|(_ & x & data & data' & _ & _ & Heq & _)].
  - exact Hkept.
  - vm_compute in Heq. discriminate Heq.
Defined.

Lemma sync_dirs_ends_witness :
  ∃ r w', run never2 5 S_ T_ false scenario = Some (r, w')
          ∧ run never2 9 S_ T_ false scenario = Some (r, w').
Proof.
  apply (sync_dirs_ends alphabetical never1 never2 alphabetical_perm
           5 9 S_ T_ [] false (World scenario [])).
  - apply (bool_decide_unpack _). vm_compute. exact I.
  - apply (bool_decide_unpack _). vm_compute. exact I.
  - apply (bool_decide_unpack _). vm_compute. exact I.
Defined.

Lemma sync_dirs_idempotent_witness :
  run never2 5 S_ T_ false scenario = Some (Return (), scenario_merged)
  ∧ ∃ w2, _sync_dirs alphabetical never1 never2 5 S_ T_ [] false
            scenario_merged = Some (Return (), w2)
          ∧ files w2 = files scenario_merged.
Proof.
  assert (run never2 5 S_ T_ false scenario
          = Some (Return (), scenario_merged)) as Hrun
    by (vm_compute; reflexivity).
  split; [exact Hrun|].
  apply (sync_dirs_idempotent alphabetical never1 never2 alphabetical_perm
           5 5 S_ T_ [] [] false (World scenario []) scenario_merged).
  - apply (bool_decide_unpack _). vm_compute. exact I.
  - apply (bool_decide_unpack _). vm_compute. exact I.
  - exact Hrun.
  - apply (bool_decide_unpack _). vm_compute. exact I.
Defined.

Lemma callers_keep_project_witness :
  let tests_target := root // "src" // "tests" // "pipelines" // "p" in
  let w := World project [] in
  ∃ r w',
    _copy_pipeline_tests alphabetical never1 never2 10 generated tests_target
      w = Some (r, w')
    ∧ files w' !! (pkg // "pipelines" // "old" // "pipeline.py")
      = Some (File "old")
    ∧ files w' !! (root // "conf" // "base") = Some Dir.
Proof.
  intros tests_target w.
  assert (match _copy_pipeline_tests alphabetical never1 never2 10 generated
                  tests_target w with
          | Some _ => true
          | None => false
          end = true) as Hsome by (vm_compute; reflexivity).
  destruct (_copy_pipeline_tests alphabetical never1 never2 10 generated
              tests_target w) as [[r w']|] eqn:Hrun; [|discriminate Hsome].
  exists r, w'. split; [reflexivity|].
  assert (wf (files w)) as Hwf
    by (apply (bool_decide_unpack _); vm_compute; exact I).
  destruct (proj1 (callers_keep_project alphabetical never1 never2
                     alphabetical_perm 10 generated tests_target
                     (root // "conf") false (lit "base") w Hwf) r w' Hrun)
    as (Hkeep & Hframe & _).
  split.
  - apply Hkeep; [|vm_compute; reflexivity].
    apply (bool_decide_unpack _). vm_compute. exact I.
  - rewrite Hframe; [vm_compute; reflexivity|..];
      apply (bool_decide_unpack _); vm_compute; exact I.
Defined.

Lemma copy_pipeline_tests_moves_witness :
  let tests_target := root // "src" // "tests" // "pipelines" // "p" in
  ∃ w',
    _copy_pipeline_tests alphabetical never1 never2 10 generated tests_target
      (World project []) = Some (Return (), w')
    ∧ gone (generated // "tests") (files w')
    ∧ files w' !! (tests_target // "test_pipeline.py") = Some (File "test").
Proof.
  intros tests_target.
  destruct (copy_pipeline_tests_moves alphabetical never1 never2
              alphabetical_perm 10 generated tests_target (World project [])
              (λ _, eq_refl) (λ _ _, eq_refl))
    as (w' & Hrun & Hgone & _ & Hfiles).
  - apply (bool_decide_unpack _). vm_compute. exact I.
  - vm_compute. reflexivity.
  - apply (bool_decide_unpack _). vm_compute. exact I.
  - apply nothing_below_check, (bool_decide_unpack _). vm_compute. exact I.
  - apply no_file_above_check, (bool_decide_unpack _). vm_compute. exact I.
  - apply (bool_decide_unpack _). vm_compute. exact I.
  - exists w'. split; [exact Hrun|]. split; [exact Hgone|].
    apply (Hfiles [lit "test_pipeline.py"] "test"%string);
      [vm_compute; reflexivity|discriminate].
Defined.

Lemma delete_artifacts_outcome_witness :
  let w := World project_q [] in
  let artifacts :=
    [root // "conf" // "base" // "parameters_q.yml";
     pkg // "pipelines" // "q"] in
  ∃ w',
    _delete_artifacts artifacts w = Some (Return (), w')
    ∧ files w' !! (pkg // "pipelines") = Some Dir
    ∧ gone (pkg // "pipelines" // "q") (files w')
    ∧ files w' !! (root // "conf" // "base" // "catalog.yml")
      = Some (File "").
Proof.
  intros w artifacts.
  assert (match _delete_artifacts artifacts w with
          | Some (Return _, _) => true
          | _ => false
          end = true) as Hreturn by (vm_compute; reflexivity).
  destruct (_delete_artifacts artifacts w) as [[[[]|e] w']|] eqn:Hrun;
    [|discriminate Hreturn..].
  exists w'. split; [reflexivity|].
  destruct (delete_artifacts_outcome _ _ _ _ Hrun)
    as (_ & Hframe & _ & Hgone & _).
  assert (wf (files w)) as Hwf
    by (apply (bool_decide_unpack _); vm_compute; exact I).
  split; [|split].
  - rewrite Hframe; [vm_compute; reflexivity|].
    apply Forall_forall, (bool_decide_unpack _). vm_compute. exact I.
  - apply (Hgone eq_refl Hwf (pkg // "pipelines" // "q")).
    apply (bool_decide_unpack _). vm_compute. exact I.
  - rewrite Hframe; [vm_compute; reflexivity|].
    apply Forall_forall, (bool_decide_unpack _). vm_compute. exact I.
Defined.

Lemma delete_pipeline_removes_only_witness :
  let w := World project_q [] in
  ∃ r w',
    delete_pipeline alphabetical (root // "conf") metadata0 (lit "q") None
      false false w = Some (r, w')
    ∧ files w' = files w
    ∧ ∃ e, r = Raise e.
Proof.
  intros w.
  assert (match delete_pipeline alphabetical (root // "conf") metadata0
                  (lit "q") None false false w with
          | Some _ => true
          | None => false
          end = true) as Hsome by (vm_compute; reflexivity).
  destruct (delete_pipeline alphabetical (root // "conf") metadata0
              (lit "q") None false false w) as [[r w']|] eqn:Hrun;
    [|discriminate Hsome].
  exists r, w'. split; [reflexivity|].
  destruct (delete_pipeline_removes_only alphabetical (root // "conf")
              metadata0 (lit "q") None false false w r w' Hrun)
    as (_ & _ & Hunconfirmed & _).
  exact (Hunconfirmed eq_refl eq_refl).
Defined.

Lemma delete_pipeline_deleted_witness :
  let w := World project_q [] in
  ∃ w',
    delete_pipeline alphabetical (root // "conf") metadata0 (lit "q") None
      true false w = Some (Return (), w')
    ∧ is_file (files w') (root // "conf" // "base" // "parameters_q.yml")
      = false
    ∧ gone (pkg // "pipelines" // "q") (files w')
    ∧ gone (root // "src" // "tests" // "pipelines" // "q") (files w').
Proof.
  intros w.
  assert (match delete_pipeline alphabetical (root // "conf") metadata0
                  (lit "q") None true false w with
          | Some (Return _, _) => true
          | _ => false
          end = true) as Hreturn by (vm_compute; reflexivity).
  destruct (delete_pipeline alphabetical (root // "conf") metadata0
              (lit "q") None true false w) as [[[[]|e] w']|] eqn:Hrun;
    [|discriminate Hreturn..].
  exists w'. split; [reflexivity|].
  destruct (delete_pipeline_deleted alphabetical (root // "conf")
              metadata0 (lit "q") None true false w w' Hrun)
    as (_ & _ & Hconfs & _ & Hgone).
  assert (wf (files w)) as Hwf
    by (apply (bool_decide_unpack _); vm_compute; exact I).
  split; [|split].
  - apply Hconfs. apply (bool_decide_unpack _). vm_compute. exact I.
  - apply (Hgone Hwf (pkg // "pipelines" // "q"));
      [|vm_compute; reflexivity].
    apply (bool_decide_unpack _). vm_compute. exact I.
  - apply (Hgone Hwf (root // "src" // "tests" // "pipelines" // "q"));
      [|vm_compute; reflexivity].
    apply (bool_decide_unpack _). vm_compute. exact I.
Defined.

Lemma validated_name_artifacts_witness :
  let artifacts :=
    _get_pipeline_artifacts (root // "conf") metadata0 (lit "ab.q")
      (lit "base") in
  (slash ∉ lit "ab.q")
  ∧ pipeline_dir artifacts = pkg // "pipelines" // "ab" // "q"
  ∧ pipeline_tests artifacts
    = root // "src" // "tests" // "pipelines" // "ab" // "q"
  ∧ pipeline_conf artifacts = root // "conf" // "base".
Proof.
  intros artifacts.
  assert (slash ∉ lit "ab.q") as Hslash
    by (apply (bool_decide_unpack _); vm_compute; exact I).
  split; [exact Hslash|].
  destruct (validated_name_artifacts (λ _, false) (root // "conf") metadata0
              (lit "ab.q") (lit "base") Hslash)
    as (Hdir & Htests & Hconf & _).
  split; [|split].
  - etrans; [exact Hdir|]. vm_compute. reflexivity.
  - etrans; [exact Htests|]. vm_compute. reflexivity.
  - etrans; [exact Hconf|]. vm_compute. reflexivity.
Defined.

Lemma sync_dirs_file_source_witness :
  ∃ w',
    _sync_dirs alphabetical never1 never2 1 (S_ // "a.txt") (T_ // "new") []
      false (World scenario []) = Some (Return (), w')
    ∧ files w' !! (T_ // "new" // "a.txt") = Some (File "1")
    ∧ files w' !! (T_ // "new") = Some Dir
    ∧ files w' !! (T_ // "a.txt") = Some (File "0").
Proof.
  destruct (sync_dirs_file_source alphabetical never1 never2
              alphabetical_perm 0 (S_ // "a.txt") (T_ // "new") [] false
              (World scenario []) "1"%string
              (λ _, eq_refl) (λ _ _, eq_refl))
    as (w' & Hrun & Hnew & Hrest & _ & Hdirs).
  - apply (bool_decide_unpack _). vm_compute. exact I.
  - vm_compute. reflexivity.
  - apply (bool_decide_unpack _). vm_compute. exact I.
  - apply no_file_above_check, (bool_decide_unpack _). vm_compute. exact I.
  - exists w'. split; [exact Hrun|]. split; [|split].
    + etrans; [exact Hnew|]. vm_compute. reflexivity.
    + apply Hdirs; [vm_compute; reflexivity|reflexivity].
    + rewrite Hrest; [vm_compute; reflexivity| |];
        apply (bool_decide_unpack _); vm_compute; exact I.
Defined.

Lemma sync_dirs_raises_oserror_witness :
  run g_denied 2 S_ T_ false nested_failure
  = Some (Raise (OSError (PermissionError (T_ // "d" // "g.txt"))),
          nested_failure_left)
  ∧ (∃ c, OSError (PermissionError (T_ // "d" // "g.txt")) = OSError c)
  ∧ last (terminal nested_failure_left) = Some Failed.
Proof.
  apply (sync_dirs_raises_oserror alphabetical never1 g_denied 2 S_ T_ []
           false (World nested_failure [])).
  refine (fails_dir alphabetical never1 g_denied 1 S_ T_ [] false _
            [S_ // "a.txt"] (S_ // "d") [S_ // "z.txt"] nested_failure_done
            _ _ _ _ _ _ nested_failure_fails);
    vm_compute; reflexivity.
Defined.

Lemma sync_dirs_adds_missing_witness :
  run never2 5 S_ T_ false scenario = Some (Return (), scenario_merged)
  ∧ scenario !! (T_ // "sub" // "b.txt") = None
  ∧ files scenario_merged !! (T_ // "sub" // "b.txt") = Some (File "2")
  ∧ files scenario_merged !! (S_ // "sub" // "b.txt") = Some (File "2").
Proof.
  assert (run never2 5 S_ T_ false scenario
          = Some (Return (), scenario_merged)) as Hrun
    by (vm_compute; reflexivity).
  split; [exact Hrun|]. split; [vm_compute; reflexivity|].
  apply (sync_dirs_adds_missing alphabetical never1 never2 alphabetical_perm
           5 S_ T_ [] false (World scenario []) scenario_merged
           [lit "b.txt"; lit "sub"] "2"%string).
  - apply (bool_decide_unpack _). vm_compute. exact I.
  - apply (bool_decide_unpack _). vm_compute. exact I.
  - exact Hrun.
  - discriminate.
  - vm_compute. reflexivity.
  - vm_compute. reflexivity.
  - apply no_file_between_check, (bool_decide_unpack _). vm_compute. exact I.
Defined.

Lemma callers_add_missing_witness :
  let w := World project [] in
  ∃ w',
    _copy_pipeline_configs alphabetical never1 never2 10 generated
      (root // "conf") false (lit "base") w = Some (Return (), w')
    ∧ files w' !! (root // "conf" // "base" // "parameters_p.yml")
      = Some (File "{}")
    ∧ gone (generated // "config") (files w').
Proof.
  intros w.
  assert (match _copy_pipeline_configs alphabetical never1 never2 10
                  generated (root // "conf") false (lit "base") w with
          | Some (Return _, _) => true
          | _ => false
          end = true) as Hreturn by (vm_compute; reflexivity).
  destruct (_copy_pipeline_configs alphabetical never1 never2 10 generated
              (root // "conf") false (lit "base") w)
    as [[[[]|e] w']|] eqn:Hrun; [|discriminate Hreturn..].
  exists w'. split; [reflexivity|].
  assert (wf (files w)) as Hwf
    by (apply (bool_decide_unpack _); vm_compute; exact I).
  apply (proj2 (callers_add_missing alphabetical never1 never2
                  alphabetical_perm 10 generated
                  (root // "src" // "tests" // "pipelines" // "p")
                  (root // "conf") (lit "base") w w'
                  [lit "parameters_p.yml"] "{}"%string Hwf
                  ltac:(discriminate))).
  - apply (bool_decide_unpack _). vm_compute. exact I.
  - exact Hrun.
  - vm_compute. reflexivity.
  - vm_compute. reflexivity.
  - apply no_file_between_check, (bool_decide_unpack _). vm_compute. exact I.
Defined.
